(** * go-mux/mux: template compiler, route matching and reverse URL building

    A shallow embedding of [regexp.go], [mux.go], [matcher.go],
    [middleware.go], [context.go] and the route file of the package, with the
    properties of the specification proved (or refuted) on it.

    Go strings are byte sequences: they are [list ascii] here, indexed and
    sliced by byte as the Go code does.  Go's [regexp] package is not part of
    the repository; module [Regexp] models the fragment of its syntax and its
    leftmost-first matching that the router relies on. *)

From Stdlib Require Import Ascii String List ZArith Lia Bool.
From Stdlib Require Import DecimalString DecimalNat.
From stdpp Require Import base option list gmap strings.
Import ListNotations.
Open Scope string_scope.
Open Scope list_scope.
Open Scope nat_scope.

(** ** Go strings *)

Abbreviation str := (list ascii) (only parsing).

(** A string literal stands for its bytes. *)
Coercion list_ascii_of_string : string >-> list.

Definition byte_eqb (a b : ascii) : bool := Ascii.eqb a b.

Definition str_eqb (a b : str) : bool := bool_decide (a = b).

Definition code (c : ascii) : nat := nat_of_ascii c.

Definition in_range (lo hi : nat) (c : ascii) : bool :=
  (lo <=? code c) && (code c <=? hi).

(** Bytes below [utf8.RuneSelf]. *)
Definition is_ascii (c : ascii) : bool := code c <? 128.

Definition is_digit (c : ascii) : bool := in_range 48 57 c.
Definition is_upper (c : ascii) : bool := in_range 65 90 c.
Definition is_lower (c : ascii) : bool := in_range 97 122 c.
Definition is_alnum (c : ascii) : bool := is_digit c || is_upper c || is_lower c.
Definition is_word (c : ascii) : bool := is_alnum c || byte_eqb c "_".

(** [s[a:b]]: Go panics unless [0 <= a <= b <= len(s)]. *)
Definition slice (s : str) (a b : Z) : option str :=
  if ((0 <=? a) && (a <=? b) && (b <=? Z.of_nat (length s)))%Z
  then Some (take (Z.to_nat b - Z.to_nat a) (drop (Z.to_nat a) s))
  else None.

(** [strings.HasSuffix(s, "/")] *)
Definition HasSuffix_slash (s : str) : bool :=
  match last s with
  | Some c => byte_eqb c "/"
  | None => false
  end.

(** [strings.TrimRight(s, "/")] *)
Fixpoint TrimRight_slash (s : str) : str :=
  match s with
  | [] => []
  | c :: s' =>
      match TrimRight_slash s' with
      | [] => if byte_eqb c "/" then [] else [c]
      | t => c :: t
      end
  end.

(** [strings.Index(s, string(c))] for a single byte [c]. *)
Fixpoint IndexByte (s : str) (c : ascii) : option nat :=
  match s with
  | [] => None
  | x :: s' => if byte_eqb x c then Some 0 else S <$> IndexByte s' c
  end.

(** [strings.Contains(s, string(c))] *)
Definition ContainsByte (s : str) (c : ascii) : bool :=
  bool_decide (is_Some (IndexByte s c)).

(** [strings.SplitN(s, string(c), 2)]: one or two parts. *)
Definition SplitN2 (s : str) (c : ascii) : list str :=
  match IndexByte s c with
  | Some i => [take i s; drop (S i) s]
  | None => [s]
  end.

(** [strings.ToUpper] and [strings.ToLower] on ASCII letters; other bytes are
    kept (Go also maps non-ASCII letters, which HTTP methods and URL schemes
    do not contain). *)
Definition upper_byte (c : ascii) : ascii :=
  if is_lower c then ascii_of_nat (code c - 32) else c.
Definition lower_byte (c : ascii) : ascii :=
  if is_upper c then ascii_of_nat (code c + 32) else c.
Definition ToUpper (s : str) : str := map upper_byte s.
Definition ToLower (s : str) : str := map lower_byte s.

(** [strconv.Itoa] on a non-negative int. *)
Definition Itoa (n : nat) : str :=
  list_ascii_of_string (NilZero.string_of_uint (Nat.to_uint n)).

(** ** Errors and outcomes *)

(** Go [error] values.  [Errorf] keeps the format and its arguments apart,
    as they are passed to [fmt.Errorf]. *)
Inductive error : Type :=
| ErrMethodMismatch
| ErrNotFound
| Errorf (format : string) (args : list str)
| ErrRegexpSyntax (pattern : str)
| EscapeError (s : str).

Global Instance error_eq_dec : EqDecision error.
Proof. solve_decision. Defined.

(** What a call can do: return a value, return an error, panic; [Unmodelled]
    marks an input that leaves the fragment of [regexp] or [fmt] modelled
    here, about which nothing is claimed, and [OutOfFuel] a descent into
    subrouters cut short by the bound it was given. *)
Inductive outcome (A : Type) : Type :=
| Ret (a : A)
| Fail (e : error)
| Panic (msg : string)
| Unmodelled
| OutOfFuel.
Arguments Ret {A} a.
Arguments Fail {A} e.
Arguments Panic {A} msg.
Arguments Unmodelled {A}.
Arguments OutOfFuel {A}.

Definition obind {A B} (x : outcome A) (f : A -> outcome B) : outcome B :=
  match x with
  | Ret a => f a
  | Fail e => Fail e
  | Panic m => Panic m
  | Unmodelled => Unmodelled
  | OutOfFuel => OutOfFuel
  end.

Notation "'let*' x ':=' c 'in' k" := (obind c (fun x => k))
  (at level 10, x pattern, c at level 100, k at level 200).

(** ** Go's [regexp] package, the fragment the router uses

    Syntax: ASCII literals, [\] before a punctuation byte, [.], classes
    [[...]] and [[^...]] of bytes and ranges, [^], [$], the groups [(...)],
    [(?:...)] and [(?P<name>...)], alternation and the quantifiers [*], [+],
    [?] with their lazy forms.  Everything else of RE2 (counted repetition,
    flags, Perl classes, non-ASCII pattern bytes, a quantifier on an
    expression that can match the empty string) is [Unsupported]: the model
    says nothing about it.  Matching is by backtracking, which yields the
    leftmost match and the submatches Go returns for this fragment; the
    subject is decoded rune by rune as Go does. *)
Module Regexp.

Inductive re : Type :=
| Eps
| Chr (c : ascii)
| Dot
| CSet (neg : bool) (ranges : list (ascii * ascii))
| Bol
| Eol
| Cat (r1 r2 : re)
| Alt (r1 r2 : re)
| Star (greedy : bool) (r : re)
| Plus (greedy : bool) (r : re)
| Quest (greedy : bool) (r : re)
| Cap (i : nat) (name : str) (r : re).

Fixpoint nullable (r : re) : bool :=
  match r with
  | Eps | Bol | Eol => true
  | Chr _ | Dot | CSet _ _ => false
  | Cat r1 r2 => nullable r1 && nullable r2
  | Alt r1 r2 => nullable r1 || nullable r2
  | Star _ _ | Quest _ _ => true
  | Plus _ r | Cap _ _ r => nullable r
  end.

(** *** Parsing: one byte at a time, with a stack of open groups *)

Inductive perror : Type := SyntaxErr | Unsupported.

(** An open group: its capture index and name if it captures, the finished
    alternatives and the items of the current one, both latest first. *)
Record frame : Type := Frame {
  f_cap : option (nat * str);
  f_alts : list re;
  f_cat : list re
}.

(** Inside [[...]]: at its start, between items, after a byte that may start
    a range, after the dash of a range, after a backslash. *)
Inductive cstate : Type :=
| C0
| C1 (neg : bool) (items : list (ascii * ascii))
| C2 (neg : bool) (items : list (ascii * ascii)) (c : ascii)
| C3 (neg : bool) (items : list (ascii * ascii)) (c : ascii)
| C4 (neg : bool) (items : list (ascii * ascii)).

(** Whether the last item is a quantified one: [RFresh] right after the
    quantifier, where [?] makes it lazy. *)
Inductive repflag : Type := RNone | RFresh | RLazy.

Inductive mode : Type :=
| MNormal (rep : repflag)
| MEsc
| MOpen
| MOpenQ
| MOpenQP
| MName (acc : str)
| MClass (cs : cstate).

Record pstate : Type := PState {
  p_mode : mode;
  p_cur : frame;
  p_stack : list frame;
  p_ncap : nat
}.

Definition mk_cat (items : list re) : re := foldr Cat Eps items.

Fixpoint mk_alt (r : re) (rs : list re) : re :=
  match rs with
  | [] => r
  | r' :: rs' => Alt r (mk_alt r' rs')
  end.

(** The expression of a group once it is closed. *)
Definition close_frame (f : frame) : re :=
  match rev (mk_cat (rev (f_cat f)) :: f_alts f) with
  | [] => Eps
  | r :: rs => mk_alt r rs
  end.

Definition push_item (r : re) (st : pstate) : pstate :=
  let f := p_cur st in
  PState (MNormal RNone) (Frame (f_cap f) (f_alts f) (r :: f_cat f))
         (p_stack st) (p_ncap st).

Definition set_mode (m : mode) (st : pstate) : pstate :=
  PState m (p_cur st) (p_stack st) (p_ncap st).

Definition open_group (cap : option str) (st : pstate) : pstate :=
  match cap with
  | Some name =>
      PState (MNormal RNone) (Frame (Some (S (p_ncap st), name)) [] [])
             (p_cur st :: p_stack st) (S (p_ncap st))
  | None =>
      PState (MNormal RNone) (Frame None [] []) (p_cur st :: p_stack st) (p_ncap st)
  end.

Definition quantify (q : ascii) (greedy : bool) (r : re) : re :=
  if byte_eqb q "*" then Star greedy r
  else if byte_eqb q "+" then Plus greedy r
  else Quest greedy r.

Definition make_lazy (r : re) : re :=
  match r with
  | Star _ r' => Star false r'
  | Plus _ r' => Plus false r'
  | Quest _ r' => Quest false r'
  | _ => r
  end.

Definition is_quantifier (c : ascii) : bool :=
  byte_eqb c "*" || byte_eqb c "+" || byte_eqb c "?".

(** A byte in normal mode. *)
Definition step_normal (rep : repflag) (st : pstate) (c : ascii) : pstate + perror :=
  let f := p_cur st in
  if is_quantifier c then
    match rep, f_cat f with
    | RNone, r :: rs =>
        if nullable r then inr Unsupported
        else inl (PState (MNormal RFresh)
                    (Frame (f_cap f) (f_alts f) (quantify c true r :: rs))
                    (p_stack st) (p_ncap st))
    | RNone, [] => inr SyntaxErr
    | RFresh, r :: rs =>
        if byte_eqb c "?" then
          inl (PState (MNormal RLazy)
                 (Frame (f_cap f) (f_alts f) (make_lazy r :: rs))
                 (p_stack st) (p_ncap st))
        else inr SyntaxErr
    | _, _ => inr SyntaxErr
    end
  else if byte_eqb c "(" then inl (set_mode MOpen st)
  else if byte_eqb c ")" then
    match p_stack st with
    | [] => inr SyntaxErr
    | parent :: rest =>
        let r := close_frame f in
        let item := match f_cap f with
                    | Some (i, name) => Cap i name r
                    | None => r
                    end in
        inl (PState (MNormal RNone)
               (Frame (f_cap parent) (f_alts parent) (item :: f_cat parent))
               rest (p_ncap st))
    end
  else if byte_eqb c "|" then
    inl (PState (MNormal RNone)
           (Frame (f_cap f) (mk_cat (rev (f_cat f)) :: f_alts f) [])
           (p_stack st) (p_ncap st))
  else if byte_eqb c "[" then inl (set_mode (MClass C0) st)
  else if byte_eqb c "\" then inl (set_mode MEsc st)
  else if byte_eqb c "^" then inl (push_item Bol st)
  else if byte_eqb c "$" then inl (push_item Eol st)
  else if byte_eqb c "." then inl (push_item Dot st)
  else if byte_eqb c "{" || byte_eqb c "}" || byte_eqb c "]" then inr Unsupported
  else if is_ascii c then inl (push_item (Chr c) st)
  else inr Unsupported.

(** A byte inside a class. *)
Definition step_class (cs : cstate) (st : pstate) (c : ascii) : pstate + perror :=
  let item_start (neg : bool) (items : list (ascii * ascii)) :=
    if byte_eqb c "]" then
      match items with
      | [] => inr Unsupported
      | _ => inl (push_item (CSet neg (rev items)) st)
      end
    else if byte_eqb c "\" then inl (set_mode (MClass (C4 neg items)) st)
    else if byte_eqb c "-" || byte_eqb c "[" then inr Unsupported
    else if is_ascii c then inl (set_mode (MClass (C2 neg items c)) st)
    else inr Unsupported in
  match cs with
  | C0 => if byte_eqb c "^" then inl (set_mode (MClass (C1 true [])) st)
          else item_start false []
  | C1 neg items => item_start neg items
  | C2 neg items a =>
      if byte_eqb c "-" then inl (set_mode (MClass (C3 neg items a)) st)
      else item_start neg ((a, a) :: items)
  | C3 neg items a =>
      if byte_eqb c "]" || byte_eqb c "\" || byte_eqb c "-" || byte_eqb c "["
      then inr Unsupported
      else if negb (is_ascii c) then inr Unsupported
      else if code a <=? code c
           then inl (set_mode (MClass (C1 neg ((a, c) :: items))) st)
           else inr SyntaxErr
  | C4 neg items =>
      if is_ascii c && negb (is_alnum c)
      then inl (set_mode (MClass (C1 neg ((c, c) :: items))) st)
      else inr Unsupported
  end.

Definition step (st : pstate) (c : ascii) : pstate + perror :=
  match p_mode st with
  | MNormal rep => step_normal rep st c
  | MEsc =>
      if is_ascii c && negb (is_alnum c) then inl (push_item (Chr c) st)
      else inr Unsupported
  | MOpen =>
      if byte_eqb c "?" then inl (set_mode MOpenQ st)
      else step_normal RNone (open_group (Some []) st) c
  | MOpenQ =>
      if byte_eqb c ":" then inl (open_group None st)
      else if byte_eqb c "P" then inl (set_mode MOpenQP st)
      else inr Unsupported
  | MOpenQP =>
      if byte_eqb c "<" then inl (set_mode (MName []) st)
      else inr Unsupported
  | MName acc =>
      if byte_eqb c ">" then
        match acc with
        | [] => inr SyntaxErr
        | _ => inl (open_group (Some (rev acc)) st)
        end
      else if is_word c then inl (set_mode (MName (c :: acc)) st)
      else inr SyntaxErr
  | MClass cs => step_class cs st c
  end.

Fixpoint steps (st : pstate) (s : str) : pstate + perror :=
  match s with
  | [] => inl st
  | c :: s' =>
      match step st c with
      | inl st' => steps st' s'
      | inr e => inr e
      end
  end.

Definition init : pstate := PState (MNormal RNone) (Frame None [] []) [] 0.

(** The parsed expression and its number of capturing groups.  A name may
    be given to more than one group. *)
Definition parse (s : str) : (re * nat) + perror :=
  match steps init s with
  | inr e => inr e
  | inl st =>
      match p_mode st, p_stack st with
      | MNormal _, [] => inl (close_frame (p_cur st), p_ncap st)
      | _, _ => inr SyntaxErr
      end
  end.

(** *** Matching *)

(** The bytes of the rune at the head of a non-empty string, as
    [utf8.DecodeRuneInString] counts them: an invalid encoding is one byte
    wide. *)
Definition cont_byte (lo hi : nat) (s : str) (i : nat) : bool :=
  match s !! i with
  | Some c => in_range lo hi c
  | None => false
  end.

Definition rune_width (s : str) : nat :=
  match s with
  | [] => 0
  | c :: _ =>
      let b := code c in
      if (194 <=? b) && (b <=? 223) then
        if cont_byte 128 191 s 1 then 2 else 1
      else if (224 <=? b) && (b <=? 239) then
        let lo := if b =? 224 then 160 else 128 in
        let hi := if b =? 237 then 159 else 191 in
        if cont_byte lo hi s 1 && cont_byte 128 191 s 2 then 3 else 1
      else if (240 <=? b) && (b <=? 244) then
        let lo := if b =? 240 then 144 else 128 in
        let hi := if b =? 244 then 143 else 191 in
        if cont_byte lo hi s 1 && cont_byte 128 191 s 2 && cont_byte 128 191 s 3
        then 4 else 1
      else 1
  end.

(** The rune at the head of the subject: its byte when it is ASCII, and its
    width. *)
Definition next (s : str) : option (option ascii * nat) :=
  match s with
  | [] => None
  | c :: _ => if is_ascii c then Some (Some c, 1) else Some (None, rune_width s)
  end.

Definition in_ranges (x : option ascii) (ranges : list (ascii * ascii)) : bool :=
  match x with
  | Some c => existsb (fun '(lo, hi) => in_range (code lo) (code hi) c) ranges
  | None => false
  end.

(** Submatch positions, by group index; index 0 is the whole match. *)
Abbreviation caps := (list (option (nat * nat))) (only parsing).

(** What remains to be matched after an expression: the rest of the subject,
    the position reached and the groups so far. *)
Abbreviation kont := (str -> nat -> caps -> option caps) (only parsing).

(** Iterating [body]: [n] bounds the iterations, each of which must advance. *)
Fixpoint loop (body : str -> nat -> caps -> kont -> option caps) (greedy : bool)
    (k : kont) (n : nat) (s : str) (pos : nat) (c : caps) : option caps :=
  match n with
  | 0 => None
  | S n' =>
      let again :=
        body s pos c (fun s' pos' c' =>
          if pos <? pos' then loop body greedy k n' s' pos' c' else None) in
      if greedy then
        match again with
        | Some r => Some r
        | None => k s pos c
        end
      else
        match k s pos c with
        | Some r => Some r
        | None => again
        end
  end.

Fixpoint run (r : re) (s : str) (pos : nat) (c : caps) (k : kont) : option caps :=
  match r with
  | Eps => k s pos c
  | Chr a =>
      match s with
      | x :: s' => if byte_eqb x a then k s' (S pos) c else None
      | [] => None
      end
  | Dot =>
      match next s with
      | Some (x, w) =>
          if bool_decide (x = Some "010"%char) then None
          else k (drop w s) (pos + w) c
      | None => None
      end
  | CSet neg ranges =>
      match next s with
      | Some (x, w) =>
          if xorb neg (in_ranges x ranges) then k (drop w s) (pos + w) c
          else None
      | None => None
      end
  | Bol => if pos =? 0 then k s pos c else None
  | Eol => match s with [] => k s pos c | _ => None end
  | Cat r1 r2 => run r1 s pos c (fun s' pos' c' => run r2 s' pos' c' k)
  | Alt r1 r2 =>
      match run r1 s pos c k with
      | Some res => Some res
      | None => run r2 s pos c k
      end
  | Star greedy r' => loop (run r') greedy k (S (length s)) s pos c
  | Plus greedy r' =>
      run r' s pos c (fun s' pos' c' =>
        loop (run r') greedy k (S (length s')) s' pos' c')
  | Quest greedy r' =>
      if greedy then
        match run r' s pos c k with
        | Some res => Some res
        | None => k s pos c
        end
      else
        match k s pos c with
        | Some res => Some res
        | None => run r' s pos c k
        end
  | Cap i _ r' =>
      run r' s pos c (fun s' pos' c' => k s' pos' (<[i := Some (pos, pos')]> c'))
  end.

(** The leftmost match: start positions are tried from left to right, rune
    by rune; [n] bounds the positions left. *)
Fixpoint search (r : re) (ncap : nat) (n : nat) (s : str) (pos : nat) : option caps :=
  match run r s pos (replicate (S ncap) None)
          (fun _ pos' c' => Some (<[0 := Some (pos, pos')]> c')) with
  | Some res => Some res
  | None =>
      match n, next s with
      | S n', Some (_, w) => search r ncap n' (drop w s) (pos + w)
      | _, _ => None
      end
  end.

(** *** The API of the package *)

(** A compiled [regexp.Regexp]. *)
Record Regexp : Type := mkRegexp {
  source : str;
  prog : re;
  numSubexp : nat
}.

(** [regexp.Compile] *)
Definition Compile (pattern : str) : outcome Regexp :=
  match parse pattern with
  | inl (r, n) => Ret (mkRegexp pattern r n)
  | inr SyntaxErr => Fail (ErrRegexpSyntax pattern)
  | inr Unsupported => Unmodelled
  end.

(** [Regexp.String] *)
Definition String (re : Regexp) : str := source re.

(** [Regexp.NumSubexp] *)
Definition NumSubexp (re : Regexp) : nat := numSubexp re.

Definition exec (re : Regexp) (s : str) : option caps :=
  search (prog re) (numSubexp re) (length s) s 0.

(** [Regexp.MatchString] *)
Definition MatchString (re : Regexp) (s : str) : bool :=
  bool_decide (is_Some (exec re s)).

(** [Regexp.FindStringSubmatchIndex]: [nil] without a match, else two
    positions per group, [-1] for a group that took no part. *)
Definition FindStringSubmatchIndex (re : Regexp) (s : str) : list Z :=
  match exec re s with
  | None => []
  | Some c =>
      flat_map (fun o => match o with
                         | Some (a, b) => [Z.of_nat a; Z.of_nat b]
                         | None => [(-1)%Z; (-1)%Z]
                         end) c
  end.

Definition is_meta (c : ascii) : bool :=
  bool_decide (c ∈ ("\.+*?()|[]{}^$" : str)).

(** [regexp.QuoteMeta] *)
Definition QuoteMeta (s : str) : str :=
  flat_map (fun c => if is_meta c then ["\"%char; c] else [c]) s.

End Regexp.

(** ** [fmt] and [net/url] helpers *)

(** [fmt.Sprintf] for formats whose verbs are [%s] (and [%%]) with string
    arguments; [None] is any other format, and arguments left over. *)
Fixpoint Sprintf (format : str) (args : list str) : option str :=
  match format with
  | [] => match args with [] => Some [] | _ => None end
  | c :: rest =>
      if byte_eqb c "%" then
        match rest with
        | v :: rest' =>
            if byte_eqb v "s" then
              match args with
              | a :: args' => (fun r => a ++ r) <$> Sprintf rest' args'
              | [] => (fun r => ("%!s(MISSING)" : str) ++ r) <$> Sprintf rest' []
              end
            else if byte_eqb v "%" then (fun r => v :: r) <$> Sprintf rest' args
            else None
        | [] => None
        end
      else (fun r => c :: r) <$> Sprintf rest args
  end.

Definition hex_digit (n : nat) : ascii :=
  if n <? 10 then ascii_of_nat (48 + n) else ascii_of_nat (55 + n).

Definition unhex (c : ascii) : option nat :=
  if is_digit c then Some (code c - 48)
  else if in_range 97 102 c then Some (code c - 87)
  else if in_range 65 70 c then Some (code c - 55)
  else None.

(** [url.QueryEscape] *)
Definition QueryEscape (s : str) : str :=
  flat_map (fun c =>
    if is_alnum c || bool_decide (c ∈ ("-_.~" : str)) then [c]
    else if byte_eqb c " " then ["+"%char]
    else ["%"%char; hex_digit (code c / 16); hex_digit (code c mod 16)]) s.

(** [shouldEscape] of net/url for a byte of a path: letters, digits, the
    marks [-_.~] and the reserved bytes other than [?] are kept. *)
Definition shouldEscape_path (c : ascii) : bool :=
  negb (is_alnum c || bool_decide (c ∈ ("-_.~$&+,/:;=@" : str))).

(** [escape] of net/url for a path. *)
Definition escape_path (s : str) : str :=
  flat_map (fun c =>
    if shouldEscape_path c
    then ["%"%char; hex_digit (code c / 16); hex_digit (code c mod 16)]
    else [c]) s.

(** [url.QueryUnescape] *)
Fixpoint QueryUnescape (s : str) : error + str :=
  let cons (c : ascii) (r : error + str) : error + str :=
    match r with
    | inl e => inl e
    | inr t => inr (c :: t)
    end in
  match s with
  | [] => inr []
  | c :: rest =>
      if byte_eqb c "%" then
        match rest with
        | a :: b :: rest' =>
            match unhex a, unhex b with
            | Some x, Some y => cons (ascii_of_nat (16 * x + y)) (QueryUnescape rest')
            | _, _ => inl (EscapeError (take 3 s))
            end
        | _ => inl (EscapeError (take 3 s))
        end
      else if byte_eqb c "+" then cons " "%char (QueryUnescape rest)
      else cons c (QueryUnescape rest)
  end.

(** ** regexp.go: the template compiler *)

Record routeRegexpOptions : Type := mkOptions {
  o_strictSlash : bool;
  o_useEncodedPath : bool
}.

Inductive regexpType : Type :=
| regexpTypePath
| regexpTypeHost
| regexpTypePrefix
| regexpTypeQuery.

Global Instance regexpType_eq_dec : EqDecision regexpType.
Proof. solve_decision. Defined.

(** The first-level brace indices of a string, an error when the braces are
    unbalanced.  [go] is the loop from byte [i] on. *)
Fixpoint braceIndices_go (whole s : str) (i : nat) (level : Z) (idx : nat)
    (idxs : list nat) : error + list nat :=
  match s with
  | [] =>
      if bool_decide (level ≠ 0%Z)
      then inl (Errorf "mux: unbalanced braces in %q" [whole])
      else inr idxs
  | c :: s' =>
      if byte_eqb c "{" then
        let level := (level + 1)%Z in
        braceIndices_go whole s' (S i) level
          (if bool_decide (level = 1%Z) then i else idx) idxs
      else if byte_eqb c "}" then
        let level := (level - 1)%Z in
        if bool_decide (level = 0%Z) then
          braceIndices_go whole s' (S i) level idx (idxs ++ [idx; i + 1])
        else if bool_decide (level < 0)%Z then
          inl (Errorf "mux: unbalanced braces in %q" [whole])
        else braceIndices_go whole s' (S i) level idx idxs
      else braceIndices_go whole s' (S i) level idx idxs
  end.

Definition braceIndices (s : str) : error + list nat :=
  braceIndices_go s s 0 0%Z 0 [].

(** The capture group name of the variable of index [idx]. *)
Definition varGroupName (idx : nat) : str := ("v" : str) ++ Itoa idx.

(** A compiled template: the regexp that matches a host, a path or a query,
    and what is needed to collect and validate the route variables.  The
    field [regexpType] of the Go struct is [regexpType_of] here, the type
    having the name. *)
Record routeRegexp : Type := mkRouteRegexp {
  template : str;
  regexpType_of : regexpType;
  options : routeRegexpOptions;
  regexp : Regexp.Regexp;
  reverse : str;
  varsN : list str;
  varsR : list Regexp.Regexp;
  wildcardHostPort : bool
}.

(** A slice expression inside a function that panics when it is out of
    range. *)
Definition slice_or_panic (s : str) (a b : Z) : outcome str :=
  match slice s a b with
  | Some r => Ret r
  | None => Panic "slice bounds out of range"
  end.

(** The buffers and arrays that the loop of [newRouteRegexp] fills. *)
Record compiled : Type := mkCompiled {
  c_pattern : str;
  c_reverse : str;
  c_varsN : list str;
  c_varsR : list Regexp.Regexp;
  c_end : nat
}.

(** The loop of [newRouteRegexp] over the pairs of brace indices; [k] is
    [i/2].  [varsN] and [varsR] are filled from index 0 upwards, which is
    appending. *)
Fixpoint compileVars (tpl defaultPattern : str) (idxs : list nat) (k : nat)
    (b : compiled) : outcome compiled :=
  match idxs with
  | [] => Ret b
  | [_] => Panic "index out of range"
  | i0 :: i1 :: rest =>
      let* raw := slice_or_panic tpl (Z.of_nat (c_end b)) (Z.of_nat i0) in
      let end_ := i1 in
      let* inner := slice_or_panic tpl (Z.of_nat i0 + 1) (Z.of_nat end_ - 1) in
      let parts := SplitN2 inner ":" in
      let name := default [] (parts !! 0) in
      let patt := match parts !! 1 with
                  | Some p => p
                  | None => defaultPattern
                  end in
      if bool_decide (name = []) || bool_decide (patt = []) then
        let* bad := slice_or_panic tpl (Z.of_nat i0) (Z.of_nat end_) in
        Fail (Errorf "mux: missing name or pattern in %q" [bad])
      else
        let pattern := c_pattern b ++ Regexp.QuoteMeta raw ++ ("(?P<" : str)
                         ++ varGroupName k ++ (">" : str) ++ patt ++ (")" : str) in
        let reverse := c_reverse b ++ raw ++ ("%s" : str) in
        let* vr := Regexp.Compile (("^" : str) ++ patt ++ ("$" : str)) in
        compileVars tpl defaultPattern rest (S k)
          (mkCompiled pattern reverse (c_varsN b ++ [name]) (c_varsR b ++ [vr]) end_)
  end.

(** What [newRouteRegexp] has put together when it compiles the full
    pattern: the pattern, the reverse template, the variables, the options
    as adjusted and the host port flag. *)
Record assembled : Type := mkAssembled {
  a_pattern : str;
  a_reverse : str;
  a_varsN : list str;
  a_varsR : list Regexp.Regexp;
  a_options : routeRegexpOptions;
  a_wildcardHostPort : bool;
  a_nvars : nat
}.

(** [newRouteRegexp] up to the compilation of the full pattern. *)
Definition assemble (tpl : str) (typ : regexpType) (options : routeRegexpOptions)
    : outcome assembled :=
  match braceIndices tpl with
  | inl errBraces => Fail errBraces
  | inr idxs =>
      let template := tpl in
      let defaultPattern : str :=
        if bool_decide (typ = regexpTypeQuery) then ".*"
        else if bool_decide (typ = regexpTypeHost) then "[^.]+"
        else "[^/]+" in
      let options :=
        if bool_decide (typ ≠ regexpTypePath)
        then mkOptions false (o_useEncodedPath options)
        else options in
      let strip := o_strictSlash options && HasSuffix_slash tpl in
      let tpl := if strip then take (length tpl - 1) tpl else tpl in
      let endSlash := strip in
      let* b := compileVars tpl defaultPattern idxs 0
                  (mkCompiled "^" [] [] [] 0) in
      let* raw := slice_or_panic tpl (Z.of_nat (c_end b)) (Z.of_nat (length tpl)) in
      let pattern := c_pattern b ++ Regexp.QuoteMeta raw in
      let pattern := if o_strictSlash options then pattern ++ ("[/]?" : str)
                     else pattern in
      let* pattern :=
        if bool_decide (typ = regexpTypeQuery) then
          match SplitN2 template "=" !! 1 with
          | Some queryVal =>
              Ret (if bool_decide (queryVal = []) then pattern ++ defaultPattern
                   else pattern)
          | None => Panic "index out of range"
          end
        else Ret pattern in
      let pattern := if bool_decide (typ ≠ regexpTypePrefix)
                     then pattern ++ ("$" : str) else pattern in
      let wildcardHostPort :=
        bool_decide (typ = regexpTypeHost) && negb (ContainsByte pattern ":") in
      let reverse := c_reverse b ++ raw in
      let reverse := if endSlash then reverse ++ ("/" : str) else reverse in
      Ret (mkAssembled pattern reverse (c_varsN b) (c_varsR b) options
             wildcardHostPort (length idxs / 2))
  end.

(** [newRouteRegexp] parses a route template and returns the [routeRegexp]
    that matches a host, a path or a query string.  A pattern with capture
    groups of its own makes it panic. *)
Definition newRouteRegexp (tpl : str) (typ : regexpType)
    (options : routeRegexpOptions) : outcome routeRegexp :=
  let* a := assemble tpl typ options in
  let* reg := Regexp.Compile (a_pattern a) in
  if bool_decide (Regexp.NumSubexp reg ≠ a_nvars a) then
    Panic "route contains capture groups in its regexp. Only non-capturing groups are accepted: e.g. (?:pattern) instead of (pattern)"
  else
    Ret (mkRouteRegexp tpl typ (a_options a) reg (a_reverse a) (a_varsN a)
           (a_varsR a) (a_wildcardHostPort a)).

(** ** Requests, handlers and match results *)

(** [url.URL], with the result of its method [EscapedPath] as a field. *)
Record URL : Type := mkURL {
  Scheme : str;
  URL_Host : str;
  Path : str;
  EscapedPath : str;
  RawQuery : str
}.

(** What the router reads of an [http.Request]; [TLS] is [r.TLS != nil]. *)
Record Request : Type := mkRequest {
  Method : str;
  Req_URL : URL;
  Host : str;
  TLS : bool
}.

(** Handlers: those of the application, told apart by a number, the
    permanent redirect of strict slash with the URL it redirects to, and a
    handler that a middleware has put around another.  An [http.Handler]
    value is an [option Handler], [None] being [nil]. *)
#[warnings="-register-all"]
Inductive Handler : Type :=
| HandlerFunc (id : nat)
| RedirectHandler (u : URL) (code : nat)
| Wrapped (by_ : nat) (next : option Handler).

Definition StatusMovedPermanently : nat := 301.

(** [middleware.Middleware] *)
Abbreviation middleware := (option Handler -> option Handler) (only parsing).

Abbreviation RouteId := nat (only parsing).
Abbreviation RouterId := nat (only parsing).

(** [RouteMatch] holds the information of a matched route; its fields
    [Route] and [Handler] are [Route_of] and [Handler_of] here. *)
Record RouteMatch : Type := mkRouteMatch {
  Route_of : option RouteId;
  Handler_of : option Handler;
  Vars : option (gmap (list ascii) (list ascii));
  MatchErr : option error
}.

Definition emptyMatch : RouteMatch := mkRouteMatch None None None None.

Definition set_MatchErr (e : option error) (m : RouteMatch) : RouteMatch :=
  mkRouteMatch (Route_of m) (Handler_of m) (Vars m) e.
Definition set_Handler (h : option Handler) (m : RouteMatch) : RouteMatch :=
  mkRouteMatch (Route_of m) h (Vars m) (MatchErr m).
Definition set_Route (r : option RouteId) (m : RouteMatch) : RouteMatch :=
  mkRouteMatch r (Handler_of m) (Vars m) (MatchErr m).
Definition set_Vars (v : option (gmap (list ascii) (list ascii))) (m : RouteMatch)
    : RouteMatch :=
  mkRouteMatch (Route_of m) (Handler_of m) v (MatchErr m).

(** ** regexp.go: matching and reverse building *)

(** [getHost] tries its best to return the request host. *)
Definition getHost (r : Request) : str :=
  if bool_decide (Scheme (Req_URL r) ≠ []) then URL_Host (Req_URL r) else Host r.

(** The host without its port when the port is not to be matched. *)
Definition stripPort (wildcard : bool) (host : str) : str :=
  if wildcard then
    match IndexByte host ":" with
    | Some i => take i host
    | None => host
    end
  else host.

(** [bytes.IndexAny(s, "&;")] *)
Fixpoint IndexAny_sep (s : str) : option nat :=
  match s with
  | [] => None
  | c :: s' =>
      if byte_eqb c "&" || byte_eqb c ";" then Some 0 else S <$> IndexAny_sep s'
  end.

(** The loop of [findFirstQueryKey]; every round shortens [query], so
    [length rawQuery] rounds are enough. *)
Fixpoint findFirstQueryKey_go (n : nat) (query key : str) : str * bool :=
  match n, query with
  | S n', _ :: _ =>
      let '(foundKey, query) :=
        match IndexAny_sep query with
        | Some i => (take i query, drop (S i) query)
        | None => (query, [])
        end in
      if bool_decide (length foundKey = 0) then findFirstQueryKey_go n' query key
      else
        let '(foundKey, value) :=
          match IndexByte foundKey "=" with
          | Some i => (take i foundKey, drop (S i) foundKey)
          | None => (foundKey, [])
          end in
        if length foundKey <? length key then findFirstQueryKey_go n' query key
        else
          match QueryUnescape foundKey with
          | inl _ => findFirstQueryKey_go n' query key
          | inr keyString =>
              if bool_decide (keyString ≠ key) then findFirstQueryKey_go n' query key
              else
                match QueryUnescape value with
                | inl _ => findFirstQueryKey_go n' query key
                | inr valueString => (valueString, true)
                end
          end
  | _, _ => ([], false)
  end.

(** [findFirstQueryKey] returns the first value of [key] in the raw query,
    or the empty string and false. *)
Definition findFirstQueryKey (rawQuery key : str) : str * bool :=
  findFirstQueryKey_go (length rawQuery) rawQuery key.

(** [routeRegexp.getURLQuery] returns one query parameter of the request
    URL. *)
Definition getURLQuery (r : routeRegexp) (req : Request) : str :=
  if bool_decide (regexpType_of r ≠ regexpTypeQuery) then []
  else
    let templateKey := default [] (SplitN2 (template r) "=" !! 0) in
    let '(val, ok) := findFirstQueryKey (RawQuery (Req_URL req)) templateKey in
    if ok then templateKey ++ ("=" : str) ++ val else [].

Definition matchQueryString (r : routeRegexp) (req : Request) : bool :=
  Regexp.MatchString (regexp r) (getURLQuery r req).

(** [routeRegexp.Match] matches the regexp against the URL host or path. *)
Definition routeRegexp_Match (r : routeRegexp) (req : Request) : bool :=
  if bool_decide (regexpType_of r = regexpTypeHost) then
    Regexp.MatchString (regexp r) (stripPort (wildcardHostPort r) (getHost req))
  else if bool_decide (regexpType_of r = regexpTypeQuery) then
    matchQueryString r req
  else
    let path := if o_useEncodedPath (options r) then EscapedPath (Req_URL req)
                else Path (Req_URL req) in
    Regexp.MatchString (regexp r) path.

(** The first loop of [routeRegexp.url]: the value of every variable. *)
Fixpoint urlValues (typ : regexpType) (names : list str)
    (values : gmap (list ascii) (list ascii)) : error + list str :=
  match names with
  | [] => inr []
  | v :: rest =>
      match values !! v with
      | None => inl (Errorf "mux: missing route variable %q" [v])
      | Some value =>
          let value := if bool_decide (typ = regexpTypeQuery)
                       then QueryEscape value else value in
          match urlValues typ rest values with
          | inl e => inl e
          | inr vs => inr (value :: vs)
          end
      end
  end.

(** The second loop of [routeRegexp.url]: the first variable, from index
    [k] on, whose value does not match its own regexp.  A missing map entry
    reads as the empty string. *)
Fixpoint checkVars (vR : list Regexp.Regexp) (k : nat) (names : list str)
    (values : gmap (list ascii) (list ascii)) : outcome unit :=
  match names with
  | [] => Ret tt
  | v :: rest =>
      match vR !! k with
      | None => Panic "index out of range"
      | Some re =>
          let value := default [] (values !! v) in
          if negb (Regexp.MatchString re value) then
            Fail (Errorf "mux: variable %q doesn't match, expected %q"
                    [value; Regexp.String re])
          else checkVars vR (S k) rest values
      end
  end.

(** [routeRegexp.url] builds a URL part using the given values. *)
Definition routeRegexp_url (r : routeRegexp)
    (values : gmap (list ascii) (list ascii)) : outcome str :=
  match urlValues (regexpType_of r) (varsN r) values with
  | inl e => Fail e
  | inr vs =>
      match Sprintf (reverse r) vs with
      | None => Unmodelled
      | Some rv =>
          if negb (Regexp.MatchString (regexp r) rv) then
            let* _ := checkVars (varsR r) 0 (varsN r) values in
            Ret rv
          else Ret rv
      end
  end.

(** [extractVars]: the variable of index [i] is the submatch of index
    [i+1].  Writing to a [nil] map panics. *)
Fixpoint extractVars (input : str) (matches : list Z) (names : list str) (i : nat)
    (output : option (gmap (list ascii) (list ascii)))
    : outcome (option (gmap (list ascii) (list ascii))) :=
  match names with
  | [] => Ret output
  | name :: rest =>
      match matches !! (2 * i + 2), matches !! (2 * i + 3) with
      | Some a, Some b =>
          let* v := slice_or_panic input a b in
          match output with
          | None => Panic "assignment to entry in nil map"
          | Some m => extractVars input matches rest (S i) (Some (<[name := v]> m))
          end
      | _, _ => Panic "index out of range"
      end
  end.

(** ** matcher.go, mux.go and the route file: the data *)

(** The matchers of a route.  A subrouter is a [Router] used as a matcher,
    held by reference.  The two header matchers of [matcher.go] compare maps
    with helpers that are not in the sources at hand; for [Route.Match] they
    are predicates on the request like a [MatcherFunc]. *)
Inductive matcher : Type :=
| methodMatcher (methods : list str)
| schemeMatcher (schemes : list str)
| MatcherFunc (f : Request -> RouteMatch -> bool * RouteMatch)
| regexpMatcher (rr : routeRegexp)
| routerMatcher (router : RouterId).

(** [routeRegexpGroup] groups the route matchers that carry variables. *)
Record routeRegexpGroup : Type := mkGroup {
  host : option routeRegexp;
  path : option routeRegexp;
  queries : list routeRegexp
}.

Abbreviation BuildVarsFunc :=
  (gmap (list ascii) (list ascii) -> gmap (list ascii) (list ascii)) (only parsing).

(** [routeConf]: the configuration shared by [Router] and [Route]; its
    field [regexp] is [regexp_group] here.  [Route] and [Router] embed it as
    [conf] and [r_conf]. *)
Record routeConf : Type := mkConf {
  useEncodedPath : bool;
  strictSlash : bool;
  skipClean : bool;
  regexp_group : routeRegexpGroup;
  matchers : list matcher;
  buildScheme : str;
  buildVarsFunc : option BuildVarsFunc
}.

(** [Route] stores what is needed to match a request and build URLs.
    [namedRoutes] refers to the registry of names that the whole tree
    shares. *)
Record Route : Type := mkRoute {
  handler : option Handler;
  buildOnly : bool;
  name : str;
  err : option error;
  namedRoutes : nat;
  conf : routeConf
}.

Record Router : Type := mkRouter {
  NotFoundHandler : option Handler;
  MethodNotAllowedHandler : option Handler;
  routes : list RouteId;
  r_namedRoutes : nat;
  middlewares : list middleware;
  r_conf : routeConf
}.

(** The objects that the routers, the routes and the name registries are,
    each found by its index: a [*Route] is a [RouteId], a [*Router] a
    [RouterId], and a registry is shared by the routers and routes that hold
    its index. *)
Record Store : Type := mkStore {
  route_heap : list Route;
  router_heap : list Router;
  registry_heap : list (gmap (list ascii) nat)
}.

Definition emptyStore : Store := mkStore [] [] [].

(** ** matcher.go *)

(** Modelled from the spec: [matchInArray], which [methodMatcher.Match] and
    [schemeMatcher.Match] call and whose definition is not in the sources
    at hand.  The specification has the method set do a case-insensitive
    containment test; [methodMatcher.Match] passes the request method on as
    it is, so the test compares without regard to ASCII case. *)
Definition matchInArray (arr : list str) (value : str) : bool :=
  existsb (fun v => str_eqb (ToUpper v) (ToUpper value)) arr.

(** [methodMatcher.Match] *)
Definition methodMatcher_Match (m : list str) (r : Request) : bool :=
  matchInArray m (Method r).

(** [schemeMatcher.Match] *)
Definition schemeMatcher_Match (m : list str) (r : Request) : bool :=
  let scheme := Scheme (Req_URL r) in
  let scheme : str :=
    if bool_decide (scheme = []) then (if TLS r then "https" else "http")
    else scheme in
  matchInArray m scheme.

(** ** The route file: [Route.Match] *)

(** How a subrouter held as a matcher is matched. *)
Abbreviation subMatch :=
  (RouterId -> Request -> RouteMatch -> outcome (bool * RouteMatch)) (only parsing).

(** [matcher.Match], by the dynamic type of the matcher. *)
Definition matcher_Match (sub : subMatch) (m : matcher) (req : Request)
    (match_ : RouteMatch) : outcome (bool * RouteMatch) :=
  match m with
  | methodMatcher ms => Ret (methodMatcher_Match ms req, match_)
  | schemeMatcher ss => Ret (schemeMatcher_Match ss req, match_)
  | MatcherFunc f => Ret (f req match_)
  | regexpMatcher rr => Ret (routeRegexp_Match rr req, match_)
  | routerMatcher id => sub id req match_
  end.

Definition is_methodMatcher (m : matcher) : bool :=
  match m with
  | methodMatcher _ => true
  | _ => false
  end.

(** [EscapedPath] of a URL whose [Path] has been assigned [p] after the URL
    was parsed: its [RawPath] no longer decodes to the path, so the path is
    escaped anew. *)
Definition escapedPathOf (p : str) : str :=
  if bool_decide (p = ("*" : str)) then "*" else escape_path p.

(** The URL [u] with the path [p] assigned to its field [Path]. *)
Definition with_Path (u : URL) (p : str) : URL :=
  mkURL (Scheme u) (URL_Host u) p (escapedPathOf p) (RawQuery u).

(** The strict slash redirect of [setMatch]: the request URL, read again
    from its own text, with a slash taken from or added to its path.  The
    URL is taken to read back with the scheme, the host, the path and the
    query that it has; the escaped path of the result is that of the new
    path. *)
Definition redirectTarget (u : URL) (p1 : bool) : outcome URL :=
  if p1 then
    let* p := slice_or_panic (Path u) 0 (Z.of_nat (length (Path u)) - 1) in
    Ret (with_Path u p)
  else
    Ret (with_Path u (Path u ++ ("/" : str))).

(** The submatches of [input] and, when there are some, the variables
    extracted from them. *)
Definition extractFrom (rr : routeRegexp) (input : str) (m : RouteMatch)
    : outcome (bool * RouteMatch) :=
  let matches := Regexp.FindStringSubmatchIndex (regexp rr) input in
  if 0 <? length matches then
    let* vars := extractVars input matches (varsN rr) 0 (Vars m) in
    Ret (true, set_Vars vars m)
  else Ret (false, m).

Fixpoint setMatch_queries (qs : list routeRegexp) (req : Request) (m : RouteMatch)
    : outcome RouteMatch :=
  match qs with
  | [] => Ret m
  | q :: rest =>
      let* (_, m) := extractFrom q (getURLQuery q req) m in
      setMatch_queries rest req m
  end.

(** [routeRegexpGroup.setMatch] extracts the variables from the URL once a
    route matches. *)
Definition setMatch (v : routeRegexpGroup) (req : Request) (m : RouteMatch)
    (r : Route) : outcome RouteMatch :=
  let* m :=
    match host v with
    | Some h =>
        let* (_, m) := extractFrom h (stripPort (wildcardHostPort h) (getHost req)) m in
        Ret m
    | None => Ret m
    end in
  let path_ := if useEncodedPath (conf r) then EscapedPath (Req_URL req)
               else Path (Req_URL req) in
  let* m :=
    match path v with
    | Some p =>
        let* (matched, m) := extractFrom p path_ m in
        if matched && o_strictSlash (options p) then
          let p1 := HasSuffix_slash path_ in
          let p2 := HasSuffix_slash (template p) in
          if bool_decide (p1 ≠ p2) then
            let* u := redirectTarget (Req_URL req) p1 in
            Ret (set_Handler (Some (RedirectHandler u StatusMovedPermanently)) m)
          else Ret m
        else Ret m
    | None => Ret m
    end in
  setMatch_queries (queries v) req m.

(** The loop of [Route.Match] over the matchers; [matchErr] is the local
    variable of that name.  [inl] is the early [return false]. *)
Fixpoint Route_Match_loop (sub : subMatch) (ms : list matcher) (req : Request)
    (matchErr : option error) (match_ : RouteMatch)
    : outcome (RouteMatch + option error * RouteMatch) :=
  match ms with
  | [] => Ret (inr (matchErr, match_))
  | m :: rest =>
      let* (matched, match_) := matcher_Match sub m req match_ in
      if negb matched then
        if is_methodMatcher m then
          Route_Match_loop sub rest req (Some ErrMethodMismatch) match_
        else
          let match_ :=
            if bool_decide (MatchErr match_ = Some ErrNotFound)
            then set_MatchErr None match_ else match_ in
          Ret (inl match_)
      else Route_Match_loop sub rest req matchErr match_
  end.

(** [Route.Match] matches the route against the request; [id] is the
    pointer to the route [r]. *)
Definition Route_Match (sub : subMatch) (id : RouteId) (r : Route) (req : Request)
    (match_ : RouteMatch) : outcome (bool * RouteMatch) :=
  if buildOnly r || bool_decide (err r ≠ None) then Ret (false, match_)
  else
    let* res := Route_Match_loop sub (matchers (conf r)) req None match_ in
    match res with
    | inl match_ => Ret (false, match_)
    | inr (Some matchErr, match_) => Ret (false, set_MatchErr (Some matchErr) match_)
    | inr (None, match_) =>
        let match_ :=
          if bool_decide (MatchErr match_ = Some ErrMethodMismatch)
             && bool_decide (handler r ≠ None)
          then set_Handler (handler r) (set_MatchErr None match_)
          else match_ in
        let match_ :=
          if bool_decide (Route_of match_ = None) then set_Route (Some id) match_
          else match_ in
        let match_ :=
          if bool_decide (Handler_of match_ = None) then set_Handler (handler r) match_
          else match_ in
        let match_ :=
          if bool_decide (Vars match_ = None) then set_Vars (Some ∅) match_
          else match_ in
        let* match_ := setMatch (regexp_group (conf r)) req match_ r in
        Ret (true, match_)
    end.

(** ** mux.go: [Router.Match] *)

(** The middleware chain around a handler: the middlewares are applied from
    the last to the first. *)
Definition applyMiddlewares (mws : list middleware) (h : option Handler)
    : option Handler :=
  foldr (fun mw acc => mw acc) h mws.

(** The loop of [Router.Match] over the routes: the match result with the
    route that matched, if one did. *)
Fixpoint Router_Match_loop (sub : subMatch) (st : Store) (rs : list RouteId)
    (req : Request) (match_ : RouteMatch) : outcome (bool * RouteMatch) :=
  match rs with
  | [] => Ret (false, match_)
  | id :: rest =>
      match route_heap st !! id with
      | None => Panic "invalid memory address or nil pointer dereference"
      | Some route =>
          let* (matched, match_) := Route_Match sub id route req match_ in
          if matched then Ret (true, match_)
          else Router_Match_loop sub st rest req match_
      end
  end.

(** [Router.Match] on the router [r], subrouters being matched by [sub]. *)
Definition Router_Match_with (sub : subMatch) (st : Store) (r : Router)
    (req : Request) (match_ : RouteMatch) : outcome (bool * RouteMatch) :=
  let* (matched, match_) := Router_Match_loop sub st (routes r) req match_ in
  if matched then
    if bool_decide (MatchErr match_ = None) then
      Ret (true, set_Handler (applyMiddlewares (middlewares r) (Handler_of match_))
                   match_)
    else Ret (true, match_)
  else if bool_decide (MatchErr match_ = Some ErrMethodMismatch) then
    match MethodNotAllowedHandler r with
    | Some h => Ret (true, set_Handler (Some h) match_)
    | None => Ret (false, match_)
    end
  else
    match NotFoundHandler r with
    | Some h => Ret (true, set_MatchErr (Some ErrNotFound) (set_Handler (Some h) match_))
    | None => Ret (false, set_MatchErr (Some ErrNotFound) match_)
    end.

(** [Router.Match] matches the request against the routes of the router
    and fills the match.  [fuel] bounds the depth of subrouters visited. *)
Fixpoint Router_Match (fuel : nat) (st : Store) (id : RouterId) (req : Request)
    (match_ : RouteMatch) : outcome (bool * RouteMatch) :=
  match fuel with
  | 0 => OutOfFuel
  | S n =>
      match router_heap st !! id with
      | None => Panic "invalid memory address or nil pointer dereference"
      | Some r => Router_Match_with (Router_Match n st) st r req match_
      end
  end.

(** ** Building routers and routes *)

(** A builder call reads and updates the store, and may panic. *)
Definition M (A : Type) : Type := Store -> outcome (A * Store).

Definition ret {A} (a : A) : M A := fun st => Ret (a, st).

Definition bind {A B} (c : M A) (k : A -> M B) : M B :=
  fun st =>
    match c st with
    | Ret (a, st') => k a st'
    | Fail e => Fail e
    | Panic m => Panic m
    | Unmodelled => Unmodelled
    | OutOfFuel => OutOfFuel
    end.

Notation "'do' x <- c ; k" := (bind c (fun x => k))
  (at level 10, x pattern, c at level 100, k at level 200).

Definition lift {A} (o : outcome A) : M A :=
  fun st => let* a := o in Ret (a, st).

Definition nil_dereference : string :=
  "invalid memory address or nil pointer dereference".

(** Reading through a [*Route]; a nil pointer panics. *)
Definition getRoute (p : option RouteId) : M (RouteId * Route) :=
  fun st =>
    match p with
    | Some id =>
        match route_heap st !! id with
        | Some r => Ret ((id, r), st)
        | None => Panic nil_dereference
        end
    | None => Panic nil_dereference
    end.

Definition putRoute (id : RouteId) (r : Route) : M unit :=
  fun st =>
    Ret (tt, mkStore (<[id := r]> (route_heap st)) (router_heap st) (registry_heap st)).

Definition getRouter (id : RouterId) : M Router :=
  fun st =>
    match router_heap st !! id with
    | Some r => Ret (r, st)
    | None => Panic nil_dereference
    end.

Definition putRouter (id : RouterId) (r : Router) : M unit :=
  fun st =>
    Ret (tt, mkStore (route_heap st) (<[id := r]> (router_heap st)) (registry_heap st)).

Definition set_err (e : option error) (r : Route) : Route :=
  mkRoute (handler r) (buildOnly r) (name r) e (namedRoutes r) (conf r).
Definition set_conf (c : routeConf) (r : Route) : Route :=
  mkRoute (handler r) (buildOnly r) (name r) (err r) (namedRoutes r) c.
Definition set_regexp_group (g : routeRegexpGroup) (c : routeConf) : routeConf :=
  mkConf (useEncodedPath c) (strictSlash c) (skipClean c) g (matchers c)
         (buildScheme c) (buildVarsFunc c).
Definition set_router_conf (c : routeConf) (r : Router) : Router :=
  mkRouter (NotFoundHandler r) (MethodNotAllowedHandler r) (routes r)
           (r_namedRoutes r) (middlewares r) c.

Definition zeroConf : routeConf :=
  mkConf false false false (mkGroup None None []) [] [] None.

(** [NewRouter] creates a router, with a name registry of its own. *)
Definition NewRouter : M RouterId :=
  fun st =>
    let reg := length (registry_heap st) in
    let id := length (router_heap st) in
    Ret (id, mkStore (route_heap st)
               (router_heap st ++ [mkRouter None None [] reg [] zeroConf])
               (registry_heap st ++ [∅])).

Definition copyRouteRegexp (r : routeRegexp) : routeRegexp :=
  mkRouteRegexp (template r) (regexpType_of r) (options r) (regexp r) (reverse r)
                (varsN r) (varsR r) (wildcardHostPort r).

(** [copyRouteConf]: a deep copy of a [routeConf]. *)
Definition copyRouteConf (r : routeConf) : routeConf :=
  mkConf (useEncodedPath r) (strictSlash r) (skipClean r)
    (mkGroup (copyRouteRegexp <$> host (regexp_group r))
             (copyRouteRegexp <$> path (regexp_group r))
             (map copyRouteRegexp (queries (regexp_group r))))
    (matchers r) (buildScheme r) (buildVarsFunc r).

(** [Router.NewRoute] registers an empty route. *)
Definition Router_NewRoute (rt : RouterId) : M (option RouteId) :=
  do r <- getRouter rt;
  fun st =>
    let id := length (route_heap st) in
    let route := mkRoute None false [] None (r_namedRoutes r)
                   (copyRouteConf (r_conf r)) in
    let r' := mkRouter (NotFoundHandler r) (MethodNotAllowedHandler r)
                (routes r ++ [id]) (r_namedRoutes r) (middlewares r) (r_conf r) in
    Ret (Some id, mkStore (route_heap st ++ [route])
                    (<[rt := r']> (router_heap st)) (registry_heap st)).

(** [Router.StrictSlash] *)
Definition Router_StrictSlash (rt : RouterId) (value : bool) : M RouterId :=
  do r <- getRouter rt;
  let c := r_conf r in
  do _ <- putRouter rt (set_router_conf
            (mkConf (useEncodedPath c) value (skipClean c) (regexp_group c)
                    (matchers c) (buildScheme c) (buildVarsFunc c)) r);
  ret rt.

(** [Router.SkipClean] *)
Definition Router_SkipClean (rt : RouterId) (value : bool) : M RouterId :=
  do r <- getRouter rt;
  let c := r_conf r in
  do _ <- putRouter rt (set_router_conf
            (mkConf (useEncodedPath c) (strictSlash c) value (regexp_group c)
                    (matchers c) (buildScheme c) (buildVarsFunc c)) r);
  ret rt.

(** [Router.UseEncodedPath] *)
Definition Router_UseEncodedPath (rt : RouterId) : M RouterId :=
  do r <- getRouter rt;
  let c := r_conf r in
  do _ <- putRouter rt (set_router_conf
            (mkConf true (strictSlash c) (skipClean c) (regexp_group c)
                    (matchers c) (buildScheme c) (buildVarsFunc c)) r);
  ret rt.

(** [Router.Use] appends middlewares to the chain. *)
Definition Router_Use (rt : RouterId) (mwf : list middleware) : M unit :=
  do r <- getRouter rt;
  putRouter rt (mkRouter (NotFoundHandler r) (MethodNotAllowedHandler r) (routes r)
                  (r_namedRoutes r) (middlewares r ++ mwf) (r_conf r)).

(** Setting the exported fields [NotFoundHandler] and
    [MethodNotAllowedHandler] of a router. *)
Definition Router_setFallbacks (rt : RouterId) (notFound notAllowed : option Handler)
    : M unit :=
  do r <- getRouter rt;
  putRouter rt (mkRouter notFound notAllowed (routes r) (r_namedRoutes r)
                  (middlewares r) (r_conf r)).

(** [Route.BuildOnly] *)
Definition Route_BuildOnly (p : option RouteId) : M (option RouteId) :=
  do (id, r) <- getRoute p;
  do _ <- putRoute id (mkRoute (handler r) true (name r) (err r) (namedRoutes r) (conf r));
  ret (Some id).

(** [Route.Handler] sets a handler for the route. *)
Definition Route_Handler (p : option RouteId) (h : option Handler) : M (option RouteId) :=
  do (id, r) <- getRoute p;
  do _ <- putRoute id
            (if bool_decide (err r = None)
             then mkRoute h (buildOnly r) (name r) (err r) (namedRoutes r) (conf r)
             else r);
  ret (Some id).

(** [Route.Name] sets the name of the route, used to build URLs.  It is an
    error to call [Name] more than once on a route. *)
Definition Route_Name (p : option RouteId) (name_ : str) : M (option RouteId) :=
  do (id, r) <- getRoute p;
  let r := if bool_decide (name r ≠ [])
           then set_err (Some (Errorf "mux: route already has name %q, can't set %q"
                                 [name r; name_])) r
           else r in
  if bool_decide (err r = None) then
    fun st =>
      match registry_heap st !! namedRoutes r with
      | None => Panic "assignment to entry in nil map"
      | Some reg =>
          let r := mkRoute (handler r) (buildOnly r) name_ (err r) (namedRoutes r)
                     (conf r) in
          Ret (Some id, mkStore (<[id := r]> (route_heap st)) (router_heap st)
                          (<[namedRoutes r := <[name_ := id]> reg]> (registry_heap st)))
      end
  else
    do _ <- putRoute id r;
    ret (Some id).

(** [Router.Get] returns the route registered with the given name. *)
Definition Router_Get (rt : RouterId) (name_ : str) : M (option RouteId) :=
  do r <- getRouter rt;
  fun st => Ret (registry_heap st !! r_namedRoutes r ≫= (fun reg => reg !! name_), st).

(** [Route.addMatcher] adds a matcher to the route. *)
Definition addMatcher (m : matcher) (r : Route) : Route :=
  if bool_decide (err r = None) then
    let c := conf r in
    set_conf (mkConf (useEncodedPath c) (strictSlash c) (skipClean c) (regexp_group c)
                (matchers c ++ [m]) (buildScheme c) (buildVarsFunc c)) r
  else r.

(** Modelled from the spec: [uniqueVars], which [addRegexpMatcher] calls and
    whose definition is not in the sources at hand.  A variable name that
    occurs in both lists is a construction error. *)
Definition uniqueVars (s1 s2 : list str) : option error :=
  match filter (fun v => v ∈ s2) s1 with
  | v :: _ => Some (Errorf "mux: duplicated route variable %q" [v])
  | [] => None
  end.

(** The loop of [addRegexpMatcher] over the query regexps. *)
Fixpoint uniqueVars_queries (vs : list str) (qs : list routeRegexp) : option error :=
  match qs with
  | [] => None
  | q :: rest =>
      match uniqueVars vs (varsN q) with
      | Some e => Some e
      | None => uniqueVars_queries vs rest
      end
  end.

(** [Route.addRegexpMatcher] adds a host, path or query matcher and URL
    builder to the route: the error it returns and the route as it leaves
    it. *)
Definition addRegexpMatcher (tpl : str) (typ : regexpType) (r : Route)
    : outcome (option error * Route) :=
  if bool_decide (err r ≠ None) then Ret (err r, r)
  else
    let g := regexp_group (conf r) in
    let is_path := bool_decide (typ = regexpTypePath)
                   || bool_decide (typ = regexpTypePrefix) in
    let bad_start :=
      is_path && match tpl with
                 | c :: _ => negb (byte_eqb c "/")
                 | [] => false
                 end in
    if bad_start then
      Ret (Some (Errorf "mux: path must start with a slash, got %q" [tpl]), r)
    else
      let tpl := match is_path, path g with
                 | true, Some p => TrimRight_slash (template p) ++ tpl
                 | _, _ => tpl
                 end in
      match newRouteRegexp tpl typ
              (mkOptions (strictSlash (conf r)) (useEncodedPath (conf r))) with
      | Fail e => Ret (Some e, r)
      | Panic m => Panic m
      | Unmodelled => Unmodelled
      | OutOfFuel => OutOfFuel
      | Ret rr =>
          match uniqueVars_queries (varsN rr) (queries g) with
          | Some e => Ret (Some e, r)
          | None =>
              let other := if bool_decide (typ = regexpTypeHost) then path g
                           else host g in
              match other ≫= (fun o => uniqueVars (varsN rr) (varsN o)) with
              | Some e => Ret (Some e, r)
              | None =>
                  let g' :=
                    if bool_decide (typ = regexpTypeHost)
                    then mkGroup (Some rr) (path g) (queries g)
                    else if bool_decide (typ = regexpTypeQuery)
                    then mkGroup (host g) (path g) (queries g ++ [rr])
                    else mkGroup (host g) (Some rr) (queries g) in
                  Ret (None, addMatcher (regexpMatcher rr)
                               (set_conf (set_regexp_group g' (conf r)) r))
              end
          end
      end.

(** [r.err = r.addRegexpMatcher(tpl, typ); return r] *)
Definition Route_regexp (typ : regexpType) (p : option RouteId) (tpl : str)
    : M (option RouteId) :=
  do (id, r) <- getRoute p;
  do (e, r) <- lift (addRegexpMatcher tpl typ r);
  do _ <- putRoute id (set_err e r);
  ret (Some id).

(** [Route.Host] adds a matcher for the URL host. *)
Definition Route_Host := Route_regexp regexpTypeHost.

(** [Route.Path] adds a matcher for the URL path. *)
Definition Route_Path := Route_regexp regexpTypePath.

(** [Route.PathPrefix] adds a matcher for the URL path prefix. *)
Definition Route_PathPrefix := Route_regexp regexpTypePrefix.

(** [Route.MatcherFunc] adds a custom function to be used as matcher. *)
Definition Route_MatcherFunc (p : option RouteId)
    (f : Request -> RouteMatch -> bool * RouteMatch) : M (option RouteId) :=
  do (id, r) <- getRoute p;
  do _ <- putRoute id (addMatcher (MatcherFunc f) r);
  ret (Some id).

(** [Route.Methods] adds a matcher for HTTP methods. *)
Definition Route_Methods (p : option RouteId) (methods : list str) : M (option RouteId) :=
  let methods := map ToUpper methods in
  do (id, r) <- getRoute p;
  do _ <- putRoute id (addMatcher (methodMatcher methods) r);
  ret (Some id).

(** [Route.Schemes] adds a matcher for URL schemes. *)
Definition Route_Schemes (p : option RouteId) (schemes : list str) : M (option RouteId) :=
  let schemes := map ToLower schemes in
  do (id, r) <- getRoute p;
  let c := conf r in
  let r := match schemes with
           | s0 :: _ =>
               set_conf (mkConf (useEncodedPath c) (strictSlash c) (skipClean c)
                           (regexp_group c) (matchers c) s0 (buildVarsFunc c)) r
           | [] => r
           end in
  do _ <- putRoute id (addMatcher (schemeMatcher schemes) r);
  ret (Some id).

(** The loop of [Route.Queries] over the pairs. *)
Fixpoint Queries_loop (pairs : list str) (r : Route) : outcome Route :=
  match pairs with
  | k :: v :: rest =>
      let* (e, r) := addRegexpMatcher (k ++ ("=" : str) ++ v) regexpTypeQuery r in
      let r := set_err e r in
      if bool_decide (e ≠ None) then Ret r else Queries_loop rest r
  | _ => Ret r
  end.

(** [Route.Queries] adds matchers for URL query values, given as a sequence
    of key/value pairs. *)
Definition Route_Queries (p : option RouteId) (pairs : list str) : M (option RouteId) :=
  do (id, r) <- getRoute p;
  if bool_decide (length pairs mod 2 ≠ 0) then
    do _ <- putRoute id
              (set_err (Some (Errorf
                 "mux: number of parameters must be multiple of 2, got %v" pairs)) r);
    ret None
  else
    do r <- lift (Queries_loop pairs r);
    do _ <- putRoute id r;
    ret (Some id).

(** [Route.BuildVarsFunc] adds a function that modifies the build
    variables; it is composed with one set before. *)
Definition Route_BuildVarsFunc (p : option RouteId) (f : BuildVarsFunc)
    : M (option RouteId) :=
  do (id, r) <- getRoute p;
  let c := conf r in
  let f' := match buildVarsFunc c with
            | Some old => fun m => f (old m)
            | None => f
            end in
  do _ <- putRoute id
            (set_conf (mkConf (useEncodedPath c) (strictSlash c) (skipClean c)
                         (regexp_group c) (matchers c) (buildScheme c) (Some f')) r);
  ret (Some id).

(** [Route.Subrouter] creates a subrouter for the route: a router with a
    copy of the configuration of the route and the registry of names of the
    route, added to the route as a matcher. *)
Definition Route_Subrouter (p : option RouteId) : M RouterId :=
  do (id, r) <- getRoute p;
  fun st =>
    let rt := length (router_heap st) in
    let router := mkRouter None None [] (namedRoutes r) [] (copyRouteConf (conf r)) in
    Ret (rt, mkStore (<[id := addMatcher (routerMatcher rt) r]> (route_heap st))
               (router_heap st ++ [router]) (registry_heap st)).

(** [Router.Handle] and [Router.HandleFunc] register a route with a matcher
    for the URL path. *)
Definition Router_Handle (rt : RouterId) (path_ : str) (h : option Handler)
    : M (option RouteId) :=
  do p <- Router_NewRoute rt;
  do p <- Route_Path p path_;
  Route_Handler p h.

(** [Router.Name] *)
Definition Router_Name (rt : RouterId) (name_ : str) : M (option RouteId) :=
  do p <- Router_NewRoute rt; Route_Name p name_.

(** [Router.Methods] *)
Definition Router_Methods (rt : RouterId) (methods : list str) : M (option RouteId) :=
  do p <- Router_NewRoute rt; Route_Methods p methods.

(** [Router.Path] *)
Definition Router_Path (rt : RouterId) (tpl : str) : M (option RouteId) :=
  do p <- Router_NewRoute rt; Route_Path p tpl.

(** [Router.PathPrefix] *)
Definition Router_PathPrefix (rt : RouterId) (tpl : str) : M (option RouteId) :=
  do p <- Router_NewRoute rt; Route_PathPrefix p tpl.

(** [Router.Host] *)
Definition Router_Host (rt : RouterId) (tpl : str) : M (option RouteId) :=
  do p <- Router_NewRoute rt; Route_Host p tpl.

(** [Router.Queries] *)
Definition Router_Queries (rt : RouterId) (pairs : list str) : M (option RouteId) :=
  do p <- Router_NewRoute rt; Route_Queries p pairs.

(** [Router.Schemes] *)
Definition Router_Schemes (rt : RouterId) (schemes : list str) : M (option RouteId) :=
  do p <- Router_NewRoute rt; Route_Schemes p schemes.

(** [Route.GetError] returns an error resulted from building the route. *)
Definition Route_GetError (st : Store) (id : RouteId) : option error :=
  route_heap st !! id ≫= err.

(** [Route.GetName] *)
Definition Route_GetName (st : Store) (id : RouteId) : option str :=
  name <$> route_heap st !! id.

(** [Route.GetPathTemplate] returns the template used to build the path. *)
Definition Route_GetPathTemplate (r : Route) : error + str :=
  match err r, path (regexp_group (conf r)) with
  | Some e, _ => inl e
  | None, None => inl (Errorf "mux: route doesn't have a path" [])
  | None, Some p => inr (template p)
  end.

(** ** The route file and middleware.go: methods and build variables *)

(** The methods of the first method matcher among the matchers: the loop
    of [Route.GetMethods]. *)
Fixpoint first_methodMatcher (ms : list matcher) : option (list str) :=
  match ms with
  | [] => None
  | methodMatcher methods :: _ => Some methods
  | _ :: rest => first_methodMatcher rest
  end.

(** [Route.GetMethods] returns the methods the route matches against. *)
Definition Route_GetMethods (r : Route) : error + list str :=
  match err r with
  | Some e => inl e
  | None =>
      match first_methodMatcher (matchers (conf r)) with
      | Some methods => inr methods
      | None => inl (Errorf "mux: route doesn't have methods" [])
      end
  end.

(** The loop of [getAllMethodsForRoute] over the routes of the router; every
    route is matched against a match of its own. *)
Fixpoint getAllMethodsForRoute_loop (sub : subMatch) (st : Store) (rs : list RouteId)
    (req : Request) (allMethods : list str) : outcome (error + list str) :=
  match rs with
  | [] => Ret (inr allMethods)
  | id :: rest =>
      match route_heap st !! id with
      | None => Panic nil_dereference
      | Some route =>
          let* (matched, match_) := Route_Match sub id route req emptyMatch in
          if matched || bool_decide (MatchErr match_ = Some ErrMethodMismatch) then
            match Route_GetMethods route with
            | inl e => Ret (inl e)
            | inr methods =>
                getAllMethodsForRoute_loop sub st rest req (allMethods ++ methods)
            end
          else getAllMethodsForRoute_loop sub st rest req allMethods
      end
  end.

(** [getAllMethodsForRoute] returns the methods of the method matchers of
    the routes that match the request but for its method.  [fuel] bounds
    the depth of subrouters that matching visits. *)
Definition getAllMethodsForRoute (fuel : nat) (st : Store) (rt : RouterId)
    (req : Request) : outcome (error + list str) :=
  match router_heap st !! rt with
  | None => Panic nil_dereference
  | Some r => getAllMethodsForRoute_loop (Router_Match fuel st) st (routes r) req []
  end.

(** [Route.buildVars] applies the function set with [BuildVarsFunc], if
    any, to the variables of a URL build. *)
Definition Route_buildVars (r : Route) (m : gmap (list ascii) (list ascii))
    : gmap (list ascii) (list ascii) :=
  match buildVarsFunc (conf r) with
  | Some f => f m
  | None => m
  end.

(** * Definitions for the properties

    The routers, requests and templates that the properties are stated
    on. *)

(** ** For the fuel of [Router.Match] *)

(** [sub'] agrees with [sub] wherever [sub] was not cut short. *)
Definition sub_le (sub sub' : subMatch) : Prop :=
  forall id req m, sub id req m <> OutOfFuel -> sub' id req m = sub id req m.

(** ** For C2: a method mismatch does not mask a later route *)

(** A route for [method] and the path [/x] with the handler [h], built as
    [rt.HandleFunc("/x", h).Methods(method)] or, with [methods_first], as
    [rt.Methods(method).Path("/x").Handler(h)]. *)
Definition route_x (rt : RouterId) (method : str) (h : Handler) (methods_first : bool)
    : M (option RouteId) :=
  if methods_first then
    do p <- Router_Methods rt [method];
    do p <- Route_Path p "/x";
    Route_Handler p (Some h)
  else
    do p <- Router_Handle rt "/x" (Some h);
    Route_Methods p [method].

(** The router with the routes [GET /x] and [POST /x], in this order;
    its strict slash setting, middlewares and fallback handlers are
    arbitrary. *)
Definition router_get_post (strict : bool) (mws : list middleware)
    (notFound notAllowed : option Handler) (h1 h2 : Handler) (o1 o2 : bool)
    : M RouterId :=
  do rt <- NewRouter;
  do _ <- Router_StrictSlash rt strict;
  do _ <- Router_Use rt mws;
  do _ <- Router_setFallbacks rt notFound notAllowed;
  do _ <- route_x rt "GET" h1 o1;
  do _ <- route_x rt "POST" h2 o2;
  ret rt.

(** ** For C4: a path template registered on a subrouter *)

(** The router with a subrouter under [PathPrefix("/products")] on which
    the template [/{key}/] is registered with the handler [h]. *)
Definition router_products (h : Handler) : M RouterId :=
  do rt <- NewRouter;
  do p <- Router_PathPrefix rt "/products";
  do s <- Route_Subrouter p;
  do _ <- Router_Handle s "/{key}/" (Some h);
  ret rt.

(** The same for any templates: [NewRouter()], then
    [PathPrefix(parent).Subrouter()], then [Handle(child, h)] on the
    subrouter. *)
Definition router_under (parent child : str) (h : Handler) : M RouterId :=
  do rt <- NewRouter;
  do p <- Router_PathPrefix rt parent;
  do s <- Route_Subrouter p;
  do _ <- Router_Handle s child (Some h);
  ret rt.

(** The store after [PathPrefix("/a//").Subrouter()] and [Handle("/b", h)]. *)
Definition slashes_store : Store := Eval vm_compute in
  match router_under "/a//" "/b" (HandlerFunc 7) emptyStore with
  | Ret (_, st) => st
  | _ => emptyStore
  end.

(** ** For C10: the middleware chain is applied on a match without error only *)

(** A middleware that wraps the handler it is given. *)
Definition wrapWith (tag : nat) : middleware := fun next => Some (Wrapped tag next).

(** A router with a middleware, both fallback handlers and the routes
    [GET /x], [GET /y] and a route for the path [/x] without a handler. *)
Definition router_with_middleware : M RouterId :=
  do rt <- NewRouter;
  do _ <- Router_Use rt [wrapWith 1];
  do _ <- Router_setFallbacks rt (Some (HandlerFunc 404)) (Some (HandlerFunc 405));
  do _ <- route_x rt "GET" (HandlerFunc 1) false;
  do p <- Router_Handle rt "/y" (Some (HandlerFunc 2));
  do _ <- Route_Methods p [("GET" : str)];
  do _ <- Router_Path rt "/x";
  ret rt.

Definition store_with_middleware : Store :=
  match router_with_middleware emptyStore with
  | Ret (_, st) => st
  | _ => emptyStore
  end.

Definition request_for (method path_ : str) : Request :=
  mkRequest method (mkURL [] [] path_ path_ []) [] false.

(** ** For C5: capture groups and variables *)

(** What [newRouteRegexp] has assembled for the template [/{id:([0-9]+)}],
    whose pattern has a capture group of its own, and the compiled full
    pattern. *)
Definition grouped_assembled : assembled := Eval vm_compute in
    match assemble "/{id:([0-9]+)}" regexpTypePath (mkOptions false false) with
    | Ret a => a
    | _ => mkAssembled [] [] [] [] (mkOptions false false) false 0
    end.

Definition grouped_regexp : Regexp.Regexp := Eval vm_compute in
    match Regexp.Compile (a_pattern grouped_assembled) with
    | Ret reg => reg
    | _ => Regexp.mkRegexp [] Regexp.Eps 0
    end.

(** ** For C3: strict slash and the trailing slash of a template *)

(** The descriptor [rr] is that of the template [t] with a slash stripped
    from its end: its pattern is the pattern of [t] with [[/]?] before the
    end anchor (which kind Prefix does not have), and its reverse template
    that of [t] with the slash added again. *)
Definition slash_stripped (typ : regexpType) (t : str) (opts : routeRegexpOptions)
    (rr : routeRegexp) : Prop :=
  let anchor : str := if bool_decide (typ = regexpTypePrefix) then "" else "$" in
  exists a0 body,
    assemble t typ (mkOptions false (o_useEncodedPath opts)) = Ret a0
    /\ a_pattern a0 = body ++ anchor
    /\ Regexp.source (regexp rr) = body ++ ("[/]?" : str) ++ anchor
    /\ reverse rr = a_reverse a0 ++ ("/" : str).

(** The descriptor [rr] is that of the template [t] followed by a slash
    that is kept: its strict slash option is off, its pattern is the
    pattern of [t] with the slash before the end anchor (which kind Prefix
    does not have), and its reverse template that of [t] followed by the
    slash.  For kind Query, the pattern of [t] has [.*] for a query value
    that is empty, which the value that ends in the slash is not. *)
Definition slash_kept (typ : regexpType) (t : str) (opts : routeRegexpOptions)
    (rr : routeRegexp) : Prop :=
  let anchor : str := if bool_decide (typ = regexpTypePrefix) then "" else "$" in
  let any : str :=
    if bool_decide (typ = regexpTypeQuery) && bool_decide (SplitN2 t "=" !! 1 = Some [])
    then ".*" else "" in
  o_strictSlash (options rr) = false
  /\ exists a0 body,
       assemble t typ (mkOptions false (o_useEncodedPath opts)) = Ret a0
       /\ a_pattern a0 = body ++ any ++ anchor
       /\ Regexp.source (regexp rr) = body ++ ("/" : str) ++ anchor
       /\ reverse rr = a_reverse a0 ++ ("/" : str).

(** ** For C6: the error of a reverse build whose value fails its validator *)

Definition article_values : gmap (list ascii) (list ascii) :=
  {[ ("category" : str) := ("go" : str); ("id" : str) := ("abc" : str) ]}.

(** ** For C7: route names *)

(** A router with a route named [home], and a route of a subrouter that is
    given the same name. *)
Definition two_routes_one_name : M (option RouteId * option RouteId * RouterId) :=
  do rt <- NewRouter;
  do a <- Router_Name rt "home";
  do p <- Router_PathPrefix rt "/admin";
  do s <- Route_Subrouter p;
  do b <- Router_Name s "home";
  ret (a, b, rt).

Definition store_one_name : Store :=
  match two_routes_one_name emptyStore with
  | Ret (_, st) => st
  | _ => emptyStore
  end.

(** ** For C1: from values to a path and back *)

(** Every variable of the descriptor has a value, and the value matches the
    validator of the variable. *)
Definition valid_values (rr : routeRegexp) (values : gmap (list ascii) (list ascii)) : Prop :=
  forall i v re,
    varsN rr !! i = Some v -> varsR rr !! i = Some re ->
    exists value, values !! v = Some value /\ Regexp.MatchString re value = true.

(** The round trip: the reverse build succeeds with a path that the
    compiled pattern matches, and the variables extracted from the
    submatches of the path are the values that were put in. *)
Definition round_trip (rr : routeRegexp) (values : gmap (list ascii) (list ascii)) : Prop :=
  exists P vars,
    routeRegexp_url rr values = Ret P
    /\ Regexp.MatchString (regexp rr) P = true
    /\ extractVars P (Regexp.FindStringSubmatchIndex (regexp rr) P) (varsN rr) 0
         (Some ∅) = Ret (Some vars)
    /\ forall v, v ∈ varsN rr -> vars !! v = values !! v.

Definition xyz_values : gmap (list ascii) (list ascii) :=
  {[ ("a" : str) := ("x" : str); ("b" : str) := ("yz" : str) ]}.

Definition zero_routeRegexp : routeRegexp :=
  mkRouteRegexp [] regexpTypePath (mkOptions false false)
    (Regexp.mkRegexp [] Regexp.Eps 0) [] [] [] false.

(** The descriptor of the path template [/{a}{b}]. *)
Definition ab_regexp : routeRegexp := Eval vm_compute in
    match newRouteRegexp "/{a}{b}" regexpTypePath (mkOptions false false) with
    | Ret rr => rr
    | _ => zero_routeRegexp
    end.

(** ** For C1: the round trip on delimited templates *)

(** A template of the class: literals and variables with the default
    pattern, [(lit, name)] standing for [lit{name}], and a last literal. *)
Fixpoint render (segs : list (list ascii * list ascii)) (tail : list ascii) : list ascii :=
  match segs with
  | [] => tail
  | (lit, name) :: rest => lit ++ "{"%char :: name ++ "}"%char :: render rest tail
  end.

Definition no_brace (c : ascii) : bool :=
  negb (byte_eqb c "{") && negb (byte_eqb c "}").

(** The brace indices of [render segs tail], counted from [off]. *)
Fixpoint indices (off : nat) (segs : list (list ascii * list ascii)) : list nat :=
  match segs with
  | [] => []
  | (lit, name) :: rest =>
      let a := off + length lit in
      let b := a + length name + 2 in
      a :: b :: indices b rest
  end.

Definition seg_braces_ok (seg : list ascii * list ascii) : bool :=
  forallb no_brace (fst seg) && forallb no_brace (snd seg).

Definition name_ok (c : ascii) : bool := no_brace c && negb (byte_eqb c ":").

(** The validator of a variable with the default pattern of a path. *)
Definition default_validator : Regexp.Regexp := Eval vm_compute in
    match Regexp.Compile "^[^/]+$" with
    | Ret re => re
    | _ => Regexp.mkRegexp [] Regexp.Eps 0
    end.

(** The pattern and the reverse template that the loop of [newRouteRegexp]
    builds for the segments, from the variable of index [k] on. *)
Fixpoint seg_pattern (k : nat) (segs : list (list ascii * list ascii)) : list ascii :=
  match segs with
  | [] => []
  | (lit, _) :: rest =>
      Regexp.QuoteMeta lit ++ ("(?P<" : list ascii) ++ varGroupName k
        ++ (">" : list ascii) ++ ("[^/]+" : list ascii) ++ (")" : list ascii)
        ++ seg_pattern (S k) rest
  end.

Fixpoint seg_reverse (segs : list (list ascii * list ascii)) : list ascii :=
  match segs with
  | [] => []
  | (lit, _) :: rest => lit ++ ("%s" : list ascii) ++ seg_reverse rest
  end.

Fixpoint seg_length (segs : list (list ascii * list ascii)) : nat :=
  match segs with
  | [] => 0
  | (lit, name) :: rest => length lit + length name + 2 + seg_length rest
  end.

Definition seg_names_ok (seg : list ascii * list ascii) : bool :=
  forallb no_brace (fst seg) && forallb name_ok (snd seg)
  && negb (bool_decide (snd seg = [])).

(** ** For C1: the parse of the pattern *)

Definition notslash : Regexp.re := Regexp.CSet true [("/"%char, "/"%char)].

Definition var_group (k : nat) : Regexp.re :=
  Regexp.Cap (S k) (varGroupName k)
    (Regexp.Cat (Regexp.Plus true notslash) Regexp.Eps).

(** The parser between two items of the top level. *)
Definition top (cat : list Regexp.re) (n : nat) : Regexp.pstate :=
  Regexp.PState (Regexp.MNormal Regexp.RNone) (Regexp.Frame None [] cat) [] n.

(** The items of the parsed pattern for the segments. *)
Fixpoint seg_items (k : nat) (segs : list (list ascii * list ascii)) : list Regexp.re :=
  match segs with
  | [] => []
  | (lit, _) :: rest => map Regexp.Chr lit ++ var_group k :: seg_items (S k) rest
  end.

Definition seg_ascii (seg : list ascii * list ascii) : bool := forallb is_ascii (fst seg).

Definition slashset : Regexp.re := Regexp.CSet false [("/"%char, "/"%char)].

(** The program of the full pattern: the start anchor, the segments, the
    last literal, the optional slash of strict slash and the end anchor. *)
Definition path_items (segs : list (list ascii * list ascii)) (tail : list ascii)
    (strict : bool) : list Regexp.re :=
  Regexp.Bol :: seg_items 0 segs ++ map Regexp.Chr tail
    ++ (if strict then [Regexp.Quest true slashset] else []) ++ [Regexp.Eol].

Definition path_pattern (segs : list (list ascii * list ascii)) (tail : list ascii)
    (strict : bool) : list ascii :=
  ("^" : list ascii) ++ seg_pattern 0 segs ++ Regexp.QuoteMeta tail
    ++ (if strict then ("[/]?" : list ascii) else []) ++ ("$" : list ascii).

(** ** For C1: matching the path *)

Definition not_slash (c : ascii) : bool := negb (byte_eqb c "/").

(** What may follow a variable in the path: the end or a slash. *)
Definition boundary (s : list ascii) : bool :=
  match s with
  | [] => true
  | c :: _ => byte_eqb c "/"
  end.

(** The path of the segments: every variable replaced by its value. *)
Fixpoint seg_path (val : list ascii -> list ascii) (segs : list (list ascii * list ascii)) : list ascii :=
  match segs with
  | [] => []
  | (lit, name) :: rest => lit ++ val name ++ seg_path val rest
  end.

(** The submatches of the variables in the path, which starts at [pos]. *)
Fixpoint spans (val : list ascii -> list ascii) (pos : nat) (segs : list (list ascii * list ascii)) : list (nat * nat) :=
  match segs with
  | [] => []
  | (lit, name) :: rest =>
      let a := pos + length lit in
      let b := a + length (val name) in
      (a, b) :: spans val b rest
  end.

(** The groups after the segments have been matched. *)
Fixpoint caps_after (val : list ascii -> list ascii) (k pos : nat) (segs : list (list ascii * list ascii))
    (c : list (option (nat * nat))) : list (option (nat * nat)) :=
  match segs with
  | [] => c
  | (lit, name) :: rest =>
      let a := pos + length lit in
      let b := a + length (val name) in
      caps_after val (S k) b rest (<[S k := Some (a, b)]> c)
  end.

Definition value_ok (val : list ascii -> list ascii) (seg : list ascii * list ascii) : bool :=
  negb (bool_decide (val (snd seg) = [])) && forallb not_slash (val (snd seg)).

Definition slash_first (s : list ascii) : bool :=
  match s with
  | c :: _ => byte_eqb c "/"
  | [] => false
  end.

(** Every variable of the segments is followed by a slash, or by the end or
    a slash of what comes after the segments. *)
Fixpoint delimited (segs : list (list ascii * list ascii)) (after : list ascii) : bool :=
  match segs with
  | [] => true
  | _ :: rest =>
      match rest with
      | [] => boundary after
      | (lit', _) :: _ => slash_first lit'
      end
      && delimited rest after
  end.

(** The variables extracted from the submatches of the segments. *)
Fixpoint put_all (val : list ascii -> list ascii) (segs : list (list ascii * list ascii))
    (m : gmap (list ascii) (list ascii)) : gmap (list ascii) (list ascii) :=
  match segs with
  | [] => m
  | (_, name) :: rest => put_all val rest (<[name := val name]> m)
  end.

Definition flatZ (l : list (nat * nat)) : list Z :=
  flat_map (fun '(a, b) => [Z.of_nat a; Z.of_nat b]) l.

(** ** For C1: the validator of a variable with the default pattern *)

(** What follows [[^/]+] in the validator: the end of the value. *)
Definition at_end (K : list ascii -> nat -> list (option (nat * nat)) -> option (list (option (nat * nat))))
    : list ascii -> nat -> list (option (nat * nat)) -> option (list (option (nat * nat))) :=
  fun s pos c => Regexp.run (Regexp.Cat Regexp.Eol Regexp.Eps) s pos c K.

(** ** For C1: the reverse build *)

Definition no_percent (c : ascii) : bool := negb (byte_eqb c "%").

(** ** For C1: the class of templates and its descriptors *)

Definition lit_ok (c : ascii) : bool := is_ascii c && no_brace c && no_percent c.

Definition seg_ok (seg : list ascii * list ascii) : bool :=
  forallb lit_ok (fst seg) && forallb name_ok (snd seg)
  && negb (bool_decide (snd seg = [])).

(** The templates of the round trip: ASCII literals without [%], variables
    with the default pattern, and after every variable the end of the
    template or a slash. *)
Definition template_ok (segs : list (list ascii * list ascii)) (tail : list ascii) : bool :=
  forallb seg_ok segs && forallb lit_ok tail && delimited segs tail.

(** The last literal without the slash that strict slash strips. *)
Definition stripped (strict : bool) (tail : list ascii) : list ascii :=
  if strict && HasSuffix_slash tail then take (length tail - 1) tail else tail.

Definition strip_rest (strict : bool) (tail : list ascii) : list ascii :=
  if strict && HasSuffix_slash tail then ["/"%char] else [].

(** The descriptor of a template of the class. *)
Definition path_regexp (segs : list (list ascii * list ascii)) (tail : list ascii)
    (opts : routeRegexpOptions) : routeRegexp :=
  let strict := o_strictSlash opts in
  mkRouteRegexp (render segs tail) regexpTypePath opts
    (Regexp.mkRegexp (path_pattern segs (stripped strict tail) strict)
       (Regexp.mk_cat (path_items segs (stripped strict tail) strict))
       (length segs))
    (seg_reverse segs ++ stripped strict tail ++ strip_rest strict tail)
    (map snd segs) (replicate (length segs) default_validator) false.

Definition article_segments : list (list ascii * list ascii) :=
  [(("/articles/" : list ascii), ("category" : list ascii));
   (("/" : list ascii), ("id" : list ascii))].

Definition article_42 : gmap (list ascii) (list ascii) :=
  {[ ("category" : list ascii) := ("technology" : list ascii);
     ("id" : list ascii) := ("42" : list ascii) ]}.

(** ** For the brace indices of a template *)

(** The braces of [s] are balanced from the nesting depth [level] on: no
    closing brace without an open one, and all closed at the end. *)
Fixpoint balanced_from (level : nat) (s : str) : bool :=
  match s with
  | [] => level =? 0
  | c :: s' =>
      if byte_eqb c "{" then balanced_from (S level) s'
      else if byte_eqb c "}" then
        match level with
        | 0 => false
        | S l => balanced_from l s'
        end
      else balanced_from level s'
  end.

Definition balanced (s : str) : bool := balanced_from 0 s.

(** The bytes of [s] from the position [a] to the position [b], the latter
    left out. *)
Definition between (s : str) (a b : nat) : str := take (b - a) (drop a s).

(** The pairs of a list of brace indices, from the position [lo] on.  Each
    pair is the position of an opening brace of the first level and the
    position after the brace that closes it: there is no brace from [lo]
    to the opening brace, the braces between the opening brace and the
    closing one are balanced, and the pairs follow each other. *)
Fixpoint pairs_ok (s : str) (lo : nat) (idxs : list nat) : Prop :=
  match idxs with
  | [] => True
  | [_] => False
  | a :: b :: rest =>
      lo <= a /\ a + 2 <= b /\ b <= length s /\
      s !! a = Some "{"%char /\ s !! (b - 1) = Some "}"%char /\
      forallb no_brace (between s lo a) = true /\
      balanced (between s (S a) (b - 1)) = true /\
      pairs_ok s b rest
  end.

(** The position after the last pair, [lo] when there is none. *)
Fixpoint pairs_end (lo : nat) (idxs : list nat) : nat :=
  match idxs with
  | _ :: b :: rest => pairs_end b rest
  | _ => lo
  end.

(** What the loop of [braceIndices] has read when it is at the position
    [i]: at the level 0, no brace since the last pair; at a level above,
    no brace from the last pair to the opening brace at [idx], and after
    that brace the bytes of a balanced string that lack [level - 1]
    closing braces. *)
Definition scanned (whole : str) (i level idx : nat) (idxs : list nat) : Prop :=
  let lo := pairs_end 0 idxs in
  match level with
  | 0 => lo <= i /\ forallb no_brace (between whole lo i) = true
  | S l =>
      lo <= idx /\ idx < i /\ whole !! idx = Some "{"%char
      /\ forallb no_brace (between whole lo idx) = true
      /\ forall u, balanced_from 0 (between whole (S idx) i ++ u) = balanced_from l u
  end.

(** The bounds of the pairs alone, below [n]. *)
Fixpoint in_bounds (n lo : nat) (idxs : list nat) : Prop :=
  match idxs with
  | [] => True
  | [_] => False
  | a :: b :: rest => lo <= a /\ a + 2 <= b /\ b <= n /\ in_bounds n b rest
  end.

(** Whether the inside of a pair of braces has no name or no pattern: it
    is empty or starts with the colon, or its first colon is its last
    byte. *)
Definition no_name_or_pattern (inner : str) : bool :=
  match IndexByte inner ":" with
  | Some i => bool_decide (i = 0) || bool_decide (S i = length inner)
  | None => bool_decide (inner = [])
  end.

(** ** For the reverse build *)

Definition only_a : gmap (list ascii) (list ascii) :=
  {[ ("a" : str) := ("x" : str) ]}.

(** ** For the verdict of [Route.Match] and the result of [Router.Match] *)

(** The matchers that read the request only: they neither change the match
    nor descend into a subrouter. *)
Definition reads_request_only (m : matcher) : bool :=
  match m with
  | methodMatcher _ | schemeMatcher _ | regexpMatcher _ => true
  | MatcherFunc _ | routerMatcher _ => false
  end.

(** Whether such a matcher accepts the request. *)
Definition accepts (m : matcher) (req : Request) : bool :=
  match m with
  | methodMatcher ms => methodMatcher_Match ms req
  | schemeMatcher ss => schemeMatcher_Match ss req
  | regexpMatcher rr => routeRegexp_Match rr req
  | MatcherFunc _ | routerMatcher _ => true
  end.

(** A matcher other than a method matcher rejects the request. *)
Definition other_rejects (ms : list matcher) (req : Request) : bool :=
  existsb (fun m => negb (is_methodMatcher m) && negb (accepts m req)) ms.

(** A method matcher rejects the request. *)
Definition method_rejects (ms : list matcher) (req : Request) : bool :=
  existsb (fun m => is_methodMatcher m && negb (accepts m req)) ms.

(** [match.MatchErr] after a matcher other than a method matcher has
    failed: [ErrNotFound] is taken back. *)
Definition clear_NotFound (m : RouteMatch) : RouteMatch :=
  if bool_decide (MatchErr m = Some ErrNotFound) then set_MatchErr None m else m.

(** A route for the method [GET] and the scheme [https]. *)
Definition get_https_route : Route :=
  mkRoute None false [] None 0
    (mkConf false false false (mkGroup None None [])
       [methodMatcher [("GET" : str)]; schemeMatcher [("https" : str)]] [] None).

(** A store with a router that has no route, and one with a route of that
    router that has no matcher yet. *)
Definition lone_router_store : Store :=
  mkStore [] [mkRouter None None [] 0 [] zeroConf] [∅].

Definition fresh_route_store : Store :=
  mkStore [mkRoute None false [] None 0 zeroConf]
    [mkRouter None None [0] 0 [] zeroConf] [∅].

(** A store with a route that has a construction error. *)
Definition errored_store : Store :=
  mkStore [mkRoute None false [] (Some ErrNotFound) 0 zeroConf]
    [mkRouter None None [0] 0 [] zeroConf] [∅].

(** ** For the methods of the routes that match but for the method *)

(** Whether a route counts for the methods of a request: it can match, and
    its matchers other than the method matchers accept the request. *)
Definition contributes (r : Route) (req : Request) : bool :=
  negb (buildOnly r) && bool_decide (err r = None)
  && negb (other_rejects (matchers (conf r)) req).

(** The methods of the routes that count, in the order of the routes, or
    the error of the first of them that has no method matcher. *)
Fixpoint methods_of (routes_ : list Route) (req : Request) : error + list str :=
  match routes_ with
  | [] => inr []
  | r :: rest =>
      if contributes r req then
        match Route_GetMethods r, methods_of rest req with
        | inl e, _ => inl e
        | inr _, inl e => inl e
        | inr ms, inr all => inr (ms ++ all)
        end
      else methods_of rest req
  end.

(** The routes whose matchers read the request only, and for which the
    extraction of the variables returns when every matcher accepts the
    request and the match has a map of variables, as it has when
    [Route.Match] extracts them. *)
Definition plain_route (req : Request) (r : Route) : Prop :=
  forallb reads_request_only (matchers (conf r)) = true
  /\ (other_rejects (matchers (conf r)) req = false ->
      method_rejects (matchers (conf r)) req = false ->
      forall m, is_Some (Vars m) ->
        exists m', setMatch (regexp_group (conf r)) req m r = Ret m').

(** A route for the path template of the descriptor [rr] and the method
    [method]. *)
Definition method_path_route (rr : routeRegexp) (method : str) : Route :=
  mkRoute None false [] None 0
    (mkConf false false false (mkGroup None (Some rr) [])
       [regexpMatcher rr; methodMatcher [method]] [] None).

(** The descriptors of the path templates [/products/{id}] and
    [/articles/{id}]. *)
Definition product_regexp : routeRegexp :=
  path_regexp [(("/products/" : list ascii), ("id" : list ascii))] []
    (mkOptions false false).

Definition article_regexp : routeRegexp :=
  path_regexp [(("/articles/" : list ascii), ("id" : list ascii))] []
    (mkOptions false false).

(** A store whose router has routes for [/products/{id}] with the methods
    [GET], [PUT] and [POST], in this order, and between them a route for
    [/articles/{id}] with the method [DELETE]. *)
Definition product_routes : list Route :=
  [method_path_route product_regexp "GET";
   method_path_route article_regexp "DELETE";
   method_path_route product_regexp "PUT";
   method_path_route product_regexp "POST"].

Definition product_store : Store :=
  mkStore product_routes [mkRouter None None [0; 1; 2; 3] 0 [] zeroConf] [∅].

(** ** For the port of a host *)

(** The descriptor of the host template [{sub}.example.com]. *)
Definition host_regexp : routeRegexp := Eval vm_compute in
    match newRouteRegexp "{sub}.example.com" regexpTypeHost (mkOptions false false) with
    | Ret rr => rr
    | _ => zero_routeRegexp
    end.

Definition request_to (host_ : str) : Request :=
  mkRequest "GET" (mkURL [] [] "/" "/" []) host_ false.

(** ** For templates without variables and for strict slash *)

(** The descriptor of a path prefix template without variables. *)
Definition prefix_regexp (t : list ascii) (opts : routeRegexpOptions) : routeRegexp :=
  mkRouteRegexp t regexpTypePrefix (mkOptions false (o_useEncodedPath opts))
    (Regexp.mkRegexp (("^" : list ascii) ++ Regexp.QuoteMeta t)
       (Regexp.mk_cat (Regexp.Bol :: map Regexp.Chr t)) 0)
    t [] [] false.

(** A route that has the descriptor [rr] for its path and nothing else to
    match; [h] is its handler. *)
Definition path_route (rr : routeRegexp) (h : option Handler) : Route :=
  mkRoute h false [] None 0
    (mkConf false (o_strictSlash (options rr)) false (mkGroup None (Some rr) [])
       [regexpMatcher rr] [] None).

(** The URL [u] with the path [p]. *)

(** A route created under [UseEncodedPath] that has the descriptor [rr]
    for its path and nothing else to match. *)
Definition encoded_path_route (rr : routeRegexp) (h : option Handler) : Route :=
  mkRoute h false [] None 0
    (mkConf true false false (mkGroup None (Some rr) []) [regexpMatcher rr] [] None).

(** A request for the path [/products/a/b], written [/products/a%2Fb]. *)
Definition encoded_request : Request :=
  mkRequest "GET" (mkURL [] [] "/products/a/b" "/products/a%2Fb" []) [] false.

Definition value_encoded : list ascii -> list ascii := fun _ => ("a%2Fb" : list ascii).

(** The template [/products/{id}/] and the value [42] of its variable. *)
Definition product_segments : list (list ascii * list ascii) :=
  [(("/products/" : list ascii), ("id" : list ascii))].

Definition value_42 : list ascii -> list ascii := fun _ => ("42" : list ascii).

Definition value_a_b : list ascii -> list ascii := fun _ => ("a b" : list ascii).

(** ** For the raw query *)

(** A byte of a query key that needs no escaping and is no separator. *)
Definition key_byte (c : ascii) : bool :=
  negb (bool_decide (c ∈ ("&;=%+" : str))).

(** A byte that does not end a pair of the raw query. *)
Definition no_separator (c : ascii) : bool :=
  negb (bool_decide (c ∈ ("&;" : str))).

(** The raw query of a list of keys and values: [k=v] joined by [&], the
    values escaped. *)
Fixpoint encode_query (pairs : list (list ascii * list ascii)) : list ascii :=
  match pairs with
  | [] => []
  | (k, v) :: rest =>
      k ++ "="%char :: QueryEscape v
        ++ match rest with
           | [] => []
           | _ :: _ => "&"%char :: encode_query rest
           end
  end.

(** The value of the first pair with the key, and whether there is one. *)
Fixpoint first_value (pairs : list (list ascii * list ascii)) (key : list ascii)
    : list ascii * bool :=
  match pairs with
  | [] => ([], false)
  | (k, v) :: rest =>
      if bool_decide (k = key) then (v, true) else first_value rest key
  end.

Definition not_newline (c : ascii) : bool := negb (byte_eqb c "010").

(** The descriptor of the query template [key=], whose value is empty. *)
Definition any_value_regexp (key : list ascii) (opts : routeRegexpOptions)
    : routeRegexp :=
  mkRouteRegexp (key ++ ["="%char]) regexpTypeQuery
    (mkOptions false (o_useEncodedPath opts))
    (Regexp.mkRegexp
       (("^" : list ascii) ++ Regexp.QuoteMeta (key ++ ["="%char])
          ++ (".*" : list ascii) ++ ("$" : list ascii))
       (Regexp.mk_cat (Regexp.Bol :: map Regexp.Chr (key ++ ["="%char])
                         ++ [Regexp.Star true Regexp.Dot; Regexp.Eol]))
       0)
    (key ++ ["="%char]) [] [] false.

(** The validator of a variable with the default pattern of a query. *)
Definition any_validator : Regexp.Regexp := Eval vm_compute in
    match Regexp.Compile "^.*$" with
    | Ret re => re
    | _ => Regexp.mkRegexp [] Regexp.Eps 0
    end.

(** The group of the first variable with the default pattern of a query. *)
Definition any_group : Regexp.re :=
  Regexp.Cap 1 (varGroupName 0) (Regexp.Cat (Regexp.Star true Regexp.Dot) Regexp.Eps).

(** The descriptor of the query template [key={name}]. *)
Definition query_var_regexp (key name : list ascii) (opts : routeRegexpOptions)
    : routeRegexp :=
  mkRouteRegexp (render [(key ++ ["="%char], name)] []) regexpTypeQuery
    (mkOptions false (o_useEncodedPath opts))
    (Regexp.mkRegexp
       (("^" : list ascii) ++ Regexp.QuoteMeta (key ++ ["="%char])
          ++ ("(?P<v0>.*)" : list ascii) ++ ("$" : list ascii))
       (Regexp.mk_cat (Regexp.Bol :: map Regexp.Chr (key ++ ["="%char])
                         ++ [any_group; Regexp.Eol]))
       1)
    ((key ++ ["="%char]) ++ ("%s" : list ascii)) [name] [any_validator] false.

Definition term_values : gmap (list ascii) (list ascii) :=
  {[ ("term" : str) := ("x y&z" : str) ]}.

(** ** For the build variables *)

Definition add_lang : gmap (list ascii) (list ascii) -> gmap (list ascii) (list ascii) :=
  fun m => <[("lang" : str) := ("en" : str)]> m.

(** * Properties *)

(** ** Enough fuel: a result of [Router.Match] does not depend on the bound *)

Lemma obind_settled {A B} (o : outcome A) (f : A -> outcome B) :
  obind o f <> OutOfFuel -> o <> OutOfFuel.
Proof. destruct o; simpl; congruence. Qed.

Lemma matcher_Match_mono sub sub' m req mt :
  sub_le sub sub' ->
  matcher_Match sub m req mt <> OutOfFuel ->
  matcher_Match sub' m req mt = matcher_Match sub m req mt.
Proof. intros Hle; destruct m; simpl; auto. Qed.

Lemma Route_Match_loop_mono sub sub' ms req :
  sub_le sub sub' ->
  forall e mt,
    Route_Match_loop sub ms req e mt <> OutOfFuel ->
    Route_Match_loop sub' ms req e mt = Route_Match_loop sub ms req e mt.
Proof.
  intros Hle; induction ms as [|m ms IH]; intros e mt H; simpl in *; [done|].
  pose proof (obind_settled _ _ H) as H1.
  rewrite (matcher_Match_mono _ _ _ _ _ Hle H1).
  destruct (matcher_Match sub m req mt) as [[b mt']| | | |]; simpl in *; try done.
  destruct (negb b); [destruct (is_methodMatcher m)|]; auto.
Qed.

Lemma Route_Match_mono sub sub' id r req mt :
  sub_le sub sub' ->
  Route_Match sub id r req mt <> OutOfFuel ->
  Route_Match sub' id r req mt = Route_Match sub id r req mt.
Proof.
  intros Hle H; unfold Route_Match in *.
  destruct (buildOnly r || bool_decide (err r <> None)); [done|].
  pose proof (obind_settled _ _ H) as H1.
  by rewrite (Route_Match_loop_mono _ _ _ _ Hle _ _ H1).
Qed.

Lemma Router_Match_loop_mono sub sub' st rs req :
  sub_le sub sub' ->
  forall mt,
    Router_Match_loop sub st rs req mt <> OutOfFuel ->
    Router_Match_loop sub' st rs req mt = Router_Match_loop sub st rs req mt.
Proof.
  intros Hle; induction rs as [|id rs IH]; intros mt H; simpl in *; [done|].
  destruct (route_heap st !! id) as [route|]; [|done].
  pose proof (obind_settled _ _ H) as H1.
  rewrite (Route_Match_mono _ _ _ _ _ _ Hle H1).
  destruct (Route_Match sub id route req mt) as [[b mt']| | | |]; simpl in *; try done.
  destruct b; auto.
Qed.

Lemma Router_Match_with_mono sub sub' st r req mt :
  sub_le sub sub' ->
  Router_Match_with sub st r req mt <> OutOfFuel ->
  Router_Match_with sub' st r req mt = Router_Match_with sub st r req mt.
Proof.
  intros Hle H; unfold Router_Match_with in *.
  pose proof (obind_settled _ _ H) as H1.
  by rewrite (Router_Match_loop_mono _ _ _ _ _ Hle _ H1).
Qed.

Lemma Router_Match_S st n :
  sub_le (Router_Match n st) (Router_Match (S n) st).
Proof.
  induction n as [|n IH]; intros id req mt H; [done|].
  change (Router_Match (S (S n)) st id req mt) with
    (match router_heap st !! id with
     | None => Panic "invalid memory address or nil pointer dereference"
     | Some r => Router_Match_with (Router_Match (S n) st) st r req mt
     end).
  simpl in H |- *.
  destruct (router_heap st !! id) as [r|]; [|done].
  by apply Router_Match_with_mono.
Qed.

(** A result obtained with some fuel is the result with any larger fuel. *)
Lemma Router_Match_fuel st n n' id req mt :
  n <= n' ->
  Router_Match n st id req mt <> OutOfFuel ->
  Router_Match n' st id req mt = Router_Match n st id req mt.
Proof.
  induction 1 as [|n' Hle IH]; intros H; [done|].
  rewrite <- (IH H). apply Router_Match_S. by rewrite (IH H).
Qed.

(** ** C2: a method mismatch does not mask a later route *)

(** C2. On the router with the routes [GET /x] and [POST /x], both with
    handlers, [Router.Match] on a POST request for [/x] succeeds with the
    second route, its handler (inside the middleware chain of the router)
    and a nil match error: the method mismatch of the first route does not
    bring in the method-not-allowed fallback. *)
Theorem C2_later_route_wins (strict o1 o2 : bool) (mws : list middleware)
    (notFound notAllowed : option Handler) (h1 h2 : Handler) (req : Request)
    (fuel : nat) :
  Method req = ("POST" : str) ->
  Path (Req_URL req) = ("/x" : str) ->
  0 < fuel ->
  exists rt st,
    router_get_post strict mws notFound notAllowed h1 h2 o1 o2 emptyStore = Ret (rt, st)
    /\ Router_Match fuel st rt req emptyMatch
       = Ret (true, mkRouteMatch (Some 1) (applyMiddlewares mws (Some h2))
                      (Some ∅) None).
Proof.
  intros Hm Hp Hf.
  destruct req as [m [sch uh p ep q] h tls]; simpl in Hm, Hp; subst m p.
  destruct fuel as [|fuel]; [lia|].
  destruct strict, o1, o2; eexists _, _; (split; [vm_compute; reflexivity|]);
    vm_compute; reflexivity.
Qed.

Lemma C2_later_route_wins_witness :
  exists rt st,
    router_get_post false [] None (Some (HandlerFunc 405)) (HandlerFunc 1)
      (HandlerFunc 2) false false emptyStore = Ret (rt, st)
    /\ Router_Match 1 st rt (mkRequest "POST" (mkURL [] [] "/x" "/x" []) "example.com" false)
         emptyMatch
       = Ret (true, mkRouteMatch (Some 1) (Some (HandlerFunc 2)) (Some ∅) None).
Proof.
  apply (C2_later_route_wins false false false [] None (Some (HandlerFunc 405))
           (HandlerFunc 1) (HandlerFunc 2)
           (mkRequest "POST" (mkURL [] [] "/x" "/x" []) "example.com" false) 1);
    [reflexivity | reflexivity | lia].
Defined.

(** ** The outcomes of a sequence of steps *)

Lemma obind_Ret {A B} (o : outcome A) (f : A -> outcome B) (b : B) :
  obind o f = Ret b -> exists a, o = Ret a /\ f a = Ret b.
Proof. destruct o; simpl; try congruence. eauto. Qed.

(** ** C4: a path template registered on a subrouter *)

(** The path template of a route that already has one is prefixed by it,
    with its trailing slashes trimmed. *)
Lemma addRegexpMatcher_prefixed (tpl : str) (typ : regexpType) (r r' : Route)
    (parent : routeRegexp) :
  typ = regexpTypePath \/ typ = regexpTypePrefix ->
  path (regexp_group (conf r)) = Some parent ->
  addRegexpMatcher tpl typ r = Ret (None, r') ->
  exists rr,
    path (regexp_group (conf r')) = Some rr
    /\ template rr = TrimRight_slash (template parent) ++ tpl.
Proof.
  intros Htyp Hparent H. unfold addRegexpMatcher in H.
  destruct (bool_decide (err r <> None)) eqn:He.
  { apply bool_decide_eq_true in He. congruence. }
  apply bool_decide_eq_false in He.
  assert (Herr : err r = None) by (destruct (err r); [exfalso; by apply He|done]).
  rewrite Hparent in H.
  assert (Hp : bool_decide (typ = regexpTypePath)
               || bool_decide (typ = regexpTypePrefix) = true).
  { destruct Htyp; subst; reflexivity. }
  rewrite Hp in H. simpl in H.
  destruct (match tpl with [] => false | c :: _ => negb (byte_eqb c "/") end);
    [congruence|].
  destruct (newRouteRegexp _ typ _) as [rr| | | |] eqn:Hnew; try congruence.
  assert (Htpl : template rr = TrimRight_slash (template parent) ++ tpl).
  { unfold newRouteRegexp in Hnew.
    destruct (assemble _ _ _); simpl in Hnew; try congruence.
    destruct (Regexp.Compile _); simpl in Hnew; try congruence.
    destruct (bool_decide _); [congruence|]. by injection Hnew as <-. }
  destruct (uniqueVars_queries _ _); [congruence|].
  destruct (_ ≫= _); [congruence|].
  injection H as <-. exists rr. split; [|done].
  unfold addMatcher; simpl. rewrite Herr; simpl.
  destruct Htyp; subst; reflexivity.
Qed.

(** A sequence of two steps that returns: both steps return. *)
Lemma bind_Ret {A B} (c : M A) (k : A -> M B) st b st' :
  bind c k st = Ret (b, st') ->
  exists a st1, c st = Ret (a, st1) /\ k a st1 = Ret (b, st').
Proof.
  unfold bind. destruct (c st) as [[a st1]| | | |]; try discriminate. eauto.
Qed.

(** [strings.TrimRight(s, "/")] takes every slash at the end of [s] away,
    and nothing else. *)
Lemma TrimRight_slash_snoc (s : str) :
  TrimRight_slash (s ++ ["/"%char]) = TrimRight_slash s.
Proof.
  induction s as [|c s IH]; [reflexivity|].
  cbn [app TrimRight_slash]. by rewrite IH.
Qed.

Lemma TrimRight_slash_id (s : str) :
  HasSuffix_slash s = false -> TrimRight_slash s = s.
Proof.
  induction s as [|c s IH]; [reflexivity|].
  intros H. cbn [TrimRight_slash].
  destruct s as [|d s'].
  - cbn. unfold HasSuffix_slash in H. cbn in H. by rewrite H.
  - rewrite IH; [reflexivity|]. exact H.
Qed.

Lemma TrimRight_slash_repeat (p : str) (n : nat) :
  HasSuffix_slash p = false ->
  TrimRight_slash (p ++ repeat "/"%char n) = p.
Proof.
  intros Hp. induction n as [|n IH].
  - rewrite app_nil_r. by apply TrimRight_slash_id.
  - cbn [repeat]. rewrite repeat_cons, app_assoc, TrimRight_slash_snoc. exact IH.
Qed.

(** The first path template of a route is the template as given. *)
Lemma addRegexpMatcher_first (tpl : str) (typ : regexpType) (r r' : Route) :
  typ = regexpTypePath \/ typ = regexpTypePrefix ->
  path (regexp_group (conf r)) = None ->
  addRegexpMatcher tpl typ r = Ret (None, r') ->
  exists rr,
    path (regexp_group (conf r')) = Some rr /\ template rr = tpl.
Proof.
  intros Htyp Hparent H. unfold addRegexpMatcher in H.
  destruct (bool_decide (err r <> None)) eqn:He.
  { apply bool_decide_eq_true in He. congruence. }
  apply bool_decide_eq_false in He.
  assert (Herr : err r = None) by (destruct (err r); [exfalso; by apply He|done]).
  rewrite Hparent in H.
  assert (Hp : bool_decide (typ = regexpTypePath)
               || bool_decide (typ = regexpTypePrefix) = true).
  { destruct Htyp; subst; reflexivity. }
  rewrite Hp in H. simpl in H.
  destruct (match tpl with [] => false | c :: _ => negb (byte_eqb c "/") end);
    [congruence|].
  destruct (newRouteRegexp _ typ _) as [rr| | | |] eqn:Hnew; try congruence.
  assert (Htpl : template rr = tpl).
  { unfold newRouteRegexp in Hnew.
    destruct (assemble _ _ _); simpl in Hnew; try congruence.
    destruct (Regexp.Compile _); simpl in Hnew; try congruence.
    destruct (bool_decide _); [congruence|]. by injection Hnew as <-. }
  destruct (uniqueVars_queries _ _); [congruence|].
  destruct (_ ≫= _); [congruence|].
  injection H as <-. exists rr. split; [|done].
  unfold addMatcher; simpl. rewrite Herr; simpl.
  destruct Htyp; subst; reflexivity.
Qed.

(** C4. A route is registered with the template [child] on the subrouter
    of [PathPrefix(parent)], where [parent] is [p] followed by any number
    of slashes and [p] does not end in a slash.  When neither route has a
    construction error, the path template of the route is [p] followed by
    [child]: the trailing slashes of the parent are trimmed, all of them.
    So the route registered with [/{key}/] under [/products], and under
    [/products/] as well, has the template [/products/{key}/], and a
    request for [/products/42/] matches it with the variable [key]
    extracted as [42]. *)
Theorem C4_subrouter_template (p child : str) (n : nat) (h : Handler) (rt : RouterId)
    (st : Store) (req : Request) (fuel : nat) :
  HasSuffix_slash p = false ->
  router_under (p ++ repeat "/"%char n) child h emptyStore = Ret (rt, st) ->
  err <$> route_heap st !! 0 = Some None ->
  err <$> route_heap st !! 1 = Some None ->
  Path (Req_URL req) = ("/products/42/" : str) ->
  2 <= fuel ->
  Route_GetPathTemplate <$> route_heap st !! 1 = Some (inr (p ++ child))
  /\ (exists rt st sub,
        router_products h emptyStore = Ret (rt, st)
        /\ route_heap st !! 1 = Some sub
        /\ Route_GetPathTemplate sub = inr ("/products/{key}/" : str)
        /\ Router_Match fuel st rt req emptyMatch
           = Ret (true, mkRouteMatch (Some 1) (Some h)
                          (Some {[ ("key" : str) := ("42" : str) ]}) None))
  /\ (exists rt st sub,
        router_under "/products/" "/{key}/" h emptyStore = Ret (rt, st)
        /\ route_heap st !! 1 = Some sub
        /\ Route_GetPathTemplate sub = inr ("/products/{key}/" : str)
        /\ Router_Match fuel st rt req emptyMatch
           = Ret (true, mkRouteMatch (Some 1) (Some h)
                          (Some {[ ("key" : str) := ("42" : str) ]}) None)).
Proof.
  intros Hp H Hepr Hesub Hreq Hf. split.
  - set (parent := p ++ repeat "/"%char n) in *.
    unfold router_under in H.
    apply bind_Ret in H as (rt0 & st1 & H1 & H).
    injection H1 as <- <-.
    apply bind_Ret in H as (p0 & st2 & H2 & H).
    unfold Router_PathPrefix in H2.
    apply bind_Ret in H2 as (q & st1' & Hn & H2).
    injection Hn as <- <-.
    unfold Route_PathPrefix, Route_regexp in H2.
    apply bind_Ret in H2 as ([id0 r0] & st1' & Hg & H2).
    injection Hg as <- <- <-.
    apply bind_Ret in H2 as ([e1 r1] & st1' & Hl & H2).
    unfold lift in Hl. apply obind_Ret in Hl as ([e1' r1'] & Ha1 & Hl).
    injection Hl as -> -> <-.
    apply bind_Ret in H2 as ([] & st1' & Hput & H2).
    injection Hput as <-. injection H2 as <- <-.
    apply bind_Ret in H as (s & st3 & H3 & H).
    unfold Route_Subrouter in H3.
    apply bind_Ret in H3 as ([id0 r0] & st2' & Hg & H3).
    injection Hg as <- <- <-.
    injection H3 as <- <-.
    apply bind_Ret in H as (u & st4 & H4 & H).
    injection H as <- <-.
    unfold Router_Handle in H4.
    apply bind_Ret in H4 as (q & st3' & Hn & H4).
    injection Hn as <- <-.
    apply bind_Ret in H4 as (q & st3' & Hpa & H4).
    unfold Route_Path, Route_regexp in Hpa.
    apply bind_Ret in Hpa as ([id1 r1'] & st3'' & Hg & Hpa).
    injection Hg as <- <- <-.
    apply bind_Ret in Hpa as ([e2 r2] & st3'' & Hl & Hpa).
    unfold lift in Hl. apply obind_Ret in Hl as ([e2' r2'] & Ha2 & Hl).
    injection Hl as -> -> <-.
    apply bind_Ret in Hpa as ([] & st3'' & Hput & Hpa).
    injection Hput as <-. injection Hpa as <- <-.
    unfold Route_Handler in H4.
    apply bind_Ret in H4 as ([id1 r1'] & st4' & Hg & H4).
    injection Hg as <- <- <-.
    apply bind_Ret in H4 as ([] & st4' & Hput & H4).
    injection Hput as <-. injection H4 as _ <-.
    cbn [route_heap lookup list_lookup fmap option_fmap option_map] in Hepr, Hesub |- *.
    assert (e1 = None) as ->.
    { unfold addMatcher in Hepr. destruct (bool_decide _); by injection Hepr. }
    assert (e2 = None) as ->.
    { destruct (bool_decide _); by injection Hesub. }
    apply addRegexpMatcher_first in Ha1 as (rr1 & Hr1 & Ht1); [|by right|reflexivity].
    apply (addRegexpMatcher_prefixed _ _ _ _ (copyRouteRegexp (copyRouteRegexp rr1)))
      in Ha2 as (rr2 & Hr2 & Ht2); [|by left|cbn; by rewrite Hr1].
    rewrite (bool_decide_eq_true_2 (None = None)) by done.
    unfold Route_GetPathTemplate. cbn [err conf]. rewrite Hr2, Ht2.
    cbn [copyRouteRegexp template]. rewrite Ht1.
    unfold parent. by rewrite TrimRight_slash_repeat.
  - destruct req as [m [sch uh pa ep q] ho tls]; simpl in Hreq; subst pa.
    split.
    + eexists _, _, _. split; [vm_compute; reflexivity|].
      split; [vm_compute; reflexivity|].
      split; [vm_compute; reflexivity|].
      rewrite (Router_Match_fuel _ 2 fuel) by (try lia; vm_compute; congruence).
      vm_compute. reflexivity.
    + eexists _, _, _. split; [vm_compute; reflexivity|].
      split; [vm_compute; reflexivity|].
      split; [vm_compute; reflexivity|].
      rewrite (Router_Match_fuel _ 2 fuel) by (try lia; vm_compute; congruence).
      vm_compute. reflexivity.
Qed.

(** The parent [/a//] and the child [/b]: the template is [/a/b]. *)
Lemma C4_subrouter_template_witness :
  Route_GetPathTemplate <$> route_heap slashes_store !! 1
  = Some (inr (("/a" : str) ++ ("/b" : str)))
  /\ (exists rt st sub,
        router_products (HandlerFunc 7) emptyStore = Ret (rt, st)
        /\ route_heap st !! 1 = Some sub
        /\ Route_GetPathTemplate sub = inr ("/products/{key}/" : str)
        /\ Router_Match 2 st rt
             (mkRequest "GET" (mkURL [] [] "/products/42/" "/products/42/" []) [] false)
             emptyMatch
           = Ret (true, mkRouteMatch (Some 1) (Some (HandlerFunc 7))
                          (Some {[ ("key" : str) := ("42" : str) ]}) None))
  /\ (exists rt st sub,
        router_under "/products/" "/{key}/" (HandlerFunc 7) emptyStore = Ret (rt, st)
        /\ route_heap st !! 1 = Some sub
        /\ Route_GetPathTemplate sub = inr ("/products/{key}/" : str)
        /\ Router_Match 2 st rt
             (mkRequest "GET" (mkURL [] [] "/products/42/" "/products/42/" []) [] false)
             emptyMatch
           = Ret (true, mkRouteMatch (Some 1) (Some (HandlerFunc 7))
                          (Some {[ ("key" : str) := ("42" : str) ]}) None)).
Proof.
  apply (C4_subrouter_template "/a" "/b" 2 (HandlerFunc 7) 0 slashes_store
           (mkRequest "GET" (mkURL [] [] "/products/42/" "/products/42/" []) [] false) 2);
    [reflexivity | vm_compute; reflexivity | reflexivity | reflexivity | reflexivity | lia].
Defined.

(** ** C10: the middleware chain is applied on a match without error only *)

(** C10. Let the loop of [Router.Match] over the routes of the router end
    with [found] and the match [m1].  When no route matched, the fallback
    chosen ([MethodNotAllowedHandler] on a method mismatch, else
    [NotFoundHandler]) is returned as it is, and when a route matched but
    left a match error the match is returned as the route left it: the
    middlewares of the router are applied in neither case.  They are
    applied, the first one outermost, when a route matched with a nil match
    error. *)
Theorem C10_middleware_on_clean_match (n : nat) (st : Store) (id : RouterId)
    (r : Router) (req : Request) (m0 m1 : RouteMatch) (found : bool) :
  router_heap st !! id = Some r ->
  Router_Match_loop (Router_Match n st) st (routes r) req m0 = Ret (found, m1) ->
  (found = false -> MatchErr m1 = Some ErrMethodMismatch ->
     forall h, MethodNotAllowedHandler r = Some h ->
       Router_Match (S n) st id req m0 = Ret (true, set_Handler (Some h) m1))
  /\ (found = false -> MatchErr m1 <> Some ErrMethodMismatch ->
     forall h, NotFoundHandler r = Some h ->
       Router_Match (S n) st id req m0
       = Ret (true, set_MatchErr (Some ErrNotFound) (set_Handler (Some h) m1)))
  /\ (found = true -> MatchErr m1 <> None ->
       Router_Match (S n) st id req m0 = Ret (true, m1))
  /\ (found = true -> MatchErr m1 = None ->
       Router_Match (S n) st id req m0
       = Ret (true, set_Handler (applyMiddlewares (middlewares r) (Handler_of m1)) m1)).
Proof.
  intros Hr Hloop. simpl. rewrite Hr. unfold Router_Match_with. rewrite Hloop. simpl.
  repeat split.
  - intros -> He h ->. by rewrite He.
  - intros -> He h ->. by rewrite bool_decide_eq_false_2.
  - intros -> He. by rewrite bool_decide_eq_false_2.
  - intros -> He. by rewrite He.
Qed.

(** On [router_with_middleware], a request for an unknown path gets the
    not-found handler, a POST for [/y] the method-not-allowed handler, both
    without the middleware around them; a POST for [/x] matches the third
    route, which has no handler and leaves the method mismatch of the first
    in place, and no middleware is applied; a GET for [/y] gets the handler
    of the route inside the middleware. *)
Lemma C10_middleware_on_clean_match_witness :
  Router_Match 1 store_with_middleware 0 (request_for "GET" "/nowhere") emptyMatch
  = Ret (true, mkRouteMatch None (Some (HandlerFunc 404)) None (Some ErrNotFound))
  /\ Router_Match 1 store_with_middleware 0 (request_for "POST" "/y") emptyMatch
     = Ret (true, mkRouteMatch None (Some (HandlerFunc 405)) None
                    (Some ErrMethodMismatch))
  /\ Router_Match 1 store_with_middleware 0 (request_for "GET" "/y") emptyMatch
     = Ret (true, mkRouteMatch (Some 1) (Some (Wrapped 1 (Some (HandlerFunc 2))))
                    (Some ∅) None)
  /\ Router_Match 1 store_with_middleware 0 (request_for "POST" "/x") emptyMatch
     = Ret (true, mkRouteMatch (Some 2) None (Some ∅) (Some ErrMethodMismatch)).
Proof.
  assert (Hr : router_heap store_with_middleware !! 0
               = Some (mkRouter (Some (HandlerFunc 404)) (Some (HandlerFunc 405))
                         [0; 1; 2] 0 [wrapWith 1] zeroConf))
    by (vm_compute; reflexivity).
  split; [|split; [|split]].
  - refine (proj1 (proj2 (C10_middleware_on_clean_match 0 store_with_middleware 0 _
             (request_for "GET" "/nowhere") emptyMatch emptyMatch false Hr _))
             eq_refl _ (HandlerFunc 404) eq_refl);
      [vm_compute; reflexivity | simpl; congruence].
  - refine (proj1 (C10_middleware_on_clean_match 0 store_with_middleware 0 _
             (request_for "POST" "/y") emptyMatch
             (mkRouteMatch None None None (Some ErrMethodMismatch)) false Hr _)
             eq_refl eq_refl (HandlerFunc 405) eq_refl).
    vm_compute; reflexivity.
  - refine (proj2 (proj2 (proj2 (C10_middleware_on_clean_match 0 store_with_middleware 0 _
             (request_for "GET" "/y") emptyMatch
             (mkRouteMatch (Some 1) (Some (HandlerFunc 2)) (Some ∅) None) true Hr _)))
             eq_refl eq_refl).
    vm_compute; reflexivity.
  - refine (proj1 (proj2 (proj2 (C10_middleware_on_clean_match 0 store_with_middleware 0 _
             (request_for "POST" "/x") emptyMatch
             (mkRouteMatch (Some 2) None (Some ∅) (Some ErrMethodMismatch)) true Hr _)))
             eq_refl _);
      [vm_compute; reflexivity | simpl; congruence].
Defined.

(** Decisions on the kind of a template, evaluated. *)
Ltac decide_kinds :=
  repeat match goal with
         | |- context [@bool_decide ?P ?d] =>
             match P with
             | context [regexpTypePath] => idtac
             | context [regexpTypePrefix] => idtac
             end;
             let b := eval vm_compute in (@bool_decide P d) in
             change (@bool_decide P d) with b
         | H : context [@bool_decide ?P ?d] |- _ =>
             match P with
             | context [regexpTypePath] => idtac
             | context [regexpTypePrefix] => idtac
             end;
             let b := eval vm_compute in (@bool_decide P d) in
             change (@bool_decide P d) with b in H
         end.

(** ** C5: capture groups and variables *)

(** Induction on a list two elements at a time, as the loop of
    [newRouteRegexp] walks the brace indices. *)
Lemma list_pair_ind {A} (P : list A -> Prop) :
  P [] -> (forall x, P [x]) -> (forall x y l, P l -> P (x :: y :: l)) ->
  forall l, P l.
Proof.
  intros H0 H1 H2 l.
  enough (P l /\ forall x, P (x :: l)) by tauto.
  induction l as [|y l [IH1 IH2]]; split; auto.
Qed.

(** The loop adds one variable name and one validator per pair of
    indices. *)
Lemma compileVars_lengths tpl dp idxs :
  forall k b b',
    compileVars tpl dp idxs k b = Ret b' ->
    length (c_varsN b') = length (c_varsN b) + length idxs / 2
    /\ length (c_varsR b') = length (c_varsR b) + length idxs / 2.
Proof.
  induction idxs as [|x|i0 i1 rest IH] using list_pair_ind; intros k b b' H.
  - injection H as <-. simpl. lia.
  - discriminate.
  - cbn [compileVars] in H.
    apply obind_Ret in H as (raw & _ & H).
    apply obind_Ret in H as (inner & _ & H).
    destruct (_ || _).
    { apply obind_Ret in H as (? & _ & H). discriminate. }
    apply obind_Ret in H as (vr & _ & H).
    apply IH in H as [H1 H2]. cbn [c_varsN c_varsR] in H1, H2.
    rewrite length_app in H1, H2.
    change (length (i0 :: i1 :: rest)) with (2 + length rest).
    replace ((2 + length rest) / 2) with (S (length rest / 2)).
    + simpl in *. lia.
    + change (2 + length rest) with (1 * 2 + length rest).
      rewrite Nat.add_comm, Nat.div_add by lia. lia.
Qed.

(** The number of variables that [newRouteRegexp] compares the capture
    groups with is the number of variable names. *)
Lemma assemble_nvars tpl typ opts a :
  assemble tpl typ opts = Ret a -> a_nvars a = length (a_varsN a).
Proof.
  unfold assemble. destruct (braceIndices tpl) as [e|idxs]; [discriminate|].
  intros H.
  apply obind_Ret in H as (b & Hb & H).
  apply obind_Ret in H as (raw & _ & H).
  apply obind_Ret in H as (pattern & _ & H).
  injection H as <-. simpl.
  apply compileVars_lengths in Hb as [Hb _]. simpl in Hb. lia.
Qed.

(** A descriptor that [newRouteRegexp] returns has as many capture groups
    as variables. *)
Lemma newRouteRegexp_groups tpl typ opts rr :
  newRouteRegexp tpl typ opts = Ret rr ->
  Regexp.NumSubexp (regexp rr) = length (varsN rr).
Proof.
  unfold newRouteRegexp. intros H.
  apply obind_Ret in H as (a & Ha & H).
  apply obind_Ret in H as (reg & _ & H).
  destruct (bool_decide _) eqn:Hn; [discriminate|].
  injection H as <-. simpl.
  apply bool_decide_eq_false in Hn.
  rewrite <- (assemble_nvars _ _ _ _ Ha).
  destruct (decide (Regexp.NumSubexp reg = a_nvars a)); [done|]. by destruct Hn.
Qed.

(** C5. Once the full pattern of a template is compiled, a number of
    capture groups that differs from the number of variables makes
    [newRouteRegexp] panic, and a descriptor that it returns has as many
    capture groups as variables. *)
Theorem C5_capture_groups_checked (tpl : str) (typ : regexpType)
    (opts : routeRegexpOptions) (a : assembled) (reg : Regexp.Regexp) :
  assemble tpl typ opts = Ret a ->
  Regexp.Compile (a_pattern a) = Ret reg ->
  (Regexp.NumSubexp reg <> length (a_varsN a) ->
     exists msg, newRouteRegexp tpl typ opts = Panic msg)
  /\ (forall rr, newRouteRegexp tpl typ opts = Ret rr ->
        Regexp.NumSubexp (regexp rr) = length (varsN rr)).
Proof.
  intros Ha Hreg. split; [|apply newRouteRegexp_groups].
  intros Hn. unfold newRouteRegexp. rewrite Ha; simpl. rewrite Hreg; simpl.
  rewrite (assemble_nvars _ _ _ _ Ha), bool_decide_eq_true_2 by done. eauto.
Qed.

(** The template [/{id:([0-9]+)}] has one variable and two capture groups:
    [newRouteRegexp] panics. *)
Lemma C5_capture_groups_checked_witness :
  Regexp.source grouped_regexp = ("^/(?P<v0>([0-9]+))$" : str)
  /\ Regexp.NumSubexp grouped_regexp = 2
  /\ a_varsN grouped_assembled = [("id" : str)]
  /\ exists msg,
       newRouteRegexp "/{id:([0-9]+)}" regexpTypePath (mkOptions false false)
       = Panic msg.
Proof.
  repeat split.
  apply (proj1 (C5_capture_groups_checked "/{id:([0-9]+)}" regexpTypePath
                  (mkOptions false false) grouped_assembled grouped_regexp
                  ltac:(vm_compute; reflexivity) ltac:(vm_compute; reflexivity))).
  vm_compute. lia.
Defined.

(** ** C6: the error of a reverse build whose value fails its validator *)

(** When some variable from index [k] on has a value that its validator
    rejects, the second loop of [url] fails at the first such variable; the
    error carries the value of the variable and the pattern of its
    validator. *)
Lemma checkVars_first_mismatch (vR : list Regexp.Regexp) (values : gmap (list ascii) (list ascii)) :
  forall names k,
    (forall i, i < length names -> is_Some (vR !! (k + i))) ->
    (exists i v re, names !! i = Some v /\ vR !! (k + i) = Some re
       /\ Regexp.MatchString re (default [] (values !! v)) = false) ->
    exists j v re,
      names !! j = Some v /\ vR !! (k + j) = Some re
      /\ Regexp.MatchString re (default [] (values !! v)) = false
      /\ (forall j' v' re', j' < j -> names !! j' = Some v' -> vR !! (k + j') = Some re' ->
            Regexp.MatchString re' (default [] (values !! v')) = true)
      /\ checkVars vR k names values
         = Fail (Errorf "mux: variable %q doesn't match, expected %q"
                   [default [] (values !! v); Regexp.String re]).
Proof.
  induction names as [|v names IH]; intros k Hlen (i & v0 & re0 & Hi & Hre & Hm).
  { by rewrite lookup_nil in Hi. }
  destruct (Hlen 0) as [re Hk]; [simpl; lia|].
  simpl. rewrite Nat.add_0_r in Hk. rewrite Hk.
  destruct (Regexp.MatchString re (default [] (values !! v))) eqn:Hv; simpl.
  - destruct i as [|i].
    { simpl in Hi. injection Hi as <-. rewrite Nat.add_0_r in Hre. congruence. }
    destruct (IH (S k)) as (j & v1 & re1 & Hj & Hrj & Hmj & Hbefore & Hres).
    { intros i' Hi'. replace (S k + i') with (k + S i') by lia.
      apply Hlen. simpl. lia. }
    { exists i, v0, re0. simpl in Hi. replace (S k + i) with (k + S i) by lia. done. }
    exists (S j), v1, re1. replace (k + S j) with (S k + j) by lia.
    repeat split; try done.
    intros [|j'] v' re' Hlt Hn Hr.
    + simpl in Hn. injection Hn as <-. rewrite Nat.add_0_r in Hr. congruence.
    + simpl in Hn. apply (Hbefore j' v' re'); [lia|done|].
      by replace (S k + j') with (k + S j') by lia.
  - exists 0, v, re. rewrite Nat.add_0_r. repeat split; try done.
    intros j' ? ? Hlt. lia.
Qed.

(** A reverse build whose result does not match the compiled pattern, with
    a value that fails its validator, returns an error and no URL.  The
    arguments of the error are the value and the pattern of the validator
    of the first such variable. *)
Lemma url_value_mismatch (r : routeRegexp) (values : gmap (list ascii) (list ascii))
    (vs : list str) (rv : str) :
  length (varsR r) = length (varsN r) ->
  urlValues (regexpType_of r) (varsN r) values = inr vs ->
  Sprintf (reverse r) vs = Some rv ->
  Regexp.MatchString (regexp r) rv = false ->
  (exists i v re, varsN r !! i = Some v /\ varsR r !! i = Some re
     /\ Regexp.MatchString re (default [] (values !! v)) = false) ->
  exists j v re,
    varsN r !! j = Some v /\ varsR r !! j = Some re
    /\ Regexp.MatchString re (default [] (values !! v)) = false
    /\ routeRegexp_url r values
       = Fail (Errorf "mux: variable %q doesn't match, expected %q"
                 [default [] (values !! v); Regexp.String re]).
Proof.
  intros Hlen Hvs Hrv Hno Hbad. unfold routeRegexp_url. rewrite Hvs, Hrv, Hno. simpl.
  destruct (checkVars_first_mismatch (varsR r) values (varsN r) 0)
    as (j & v & re & Hj & Hre & Hm & _ & Hres); [| |].
  - intros i Hi. apply lookup_lt_is_Some. simpl. lia.
  - done.
  - exists j, v, re. rewrite Hres. done.
Qed.

(** C6, at the input where the code departs from it.  For the template
    [/articles/{category}/{id:[0-9]+}] and the values [category=go],
    [id=abc], the reverse build returns no URL and an error for the
    variable [id]; the error is made of the value [abc] and the pattern
    [^[0-9]+$], and does not have the name [id] of the variable. *)
Theorem C6_error_has_value_not_name :
  exists rr,
    newRouteRegexp "/articles/{category}/{id:[0-9]+}" regexpTypePath
      (mkOptions false false) = Ret rr
    /\ varsN rr = [("category" : str); ("id" : str)]
    /\ routeRegexp_url rr article_values
       = Fail (Errorf "mux: variable %q doesn't match, expected %q"
                 [("abc" : str); ("^[0-9]+$" : str)])
    /\ forall format args,
         routeRegexp_url rr article_values = Fail (Errorf format args) ->
         ("id" : str) ∉ args.
Proof.
  eexists. split; [vm_compute; reflexivity|].
  split; [reflexivity|].
  match goal with
  | |- ?u = ?f /\ _ => assert (Hu : u = f) by (vm_compute; reflexivity)
  end.
  split; [exact Hu|].
  intros format args Hf. rewrite Hu in Hf. injection Hf as _ <-.
  intros Hin. repeat (apply elem_of_cons in Hin as [Hin|Hin]; [discriminate|]).
  by apply elem_of_nil in Hin.
Qed.

(** ** C9: the pointer that [Queries] returns *)

(** With an odd number of parameters, [Queries] records the error on the
    route and returns a nil pointer. *)
Lemma Route_Queries_odd (st : Store) (id : RouteId) (r : Route) (pairs : list str) :
  route_heap st !! id = Some r ->
  length pairs mod 2 <> 0 ->
  Route_Queries (Some id) pairs st
  = Ret (None,
         mkStore (<[id := set_err (Some (Errorf
                     "mux: number of parameters must be multiple of 2, got %v" pairs)) r]>
                    (route_heap st))
                 (router_heap st) (registry_heap st)).
Proof.
  intros Hr Hodd. unfold Route_Queries, bind, getRoute. rewrite Hr.
  by rewrite bool_decide_eq_true_2.
Qed.

(** The other builder calls return the pointer they were called on. *)
Lemma builders_return_receiver (st st' : Store) (id : RouteId) (p' : option RouteId) :
  (Route_BuildOnly (Some id) st = Ret (p', st') -> p' = Some id)
  /\ (forall h, Route_Handler (Some id) h st = Ret (p', st') -> p' = Some id)
  /\ (forall n, Route_Name (Some id) n st = Ret (p', st') -> p' = Some id)
  /\ (forall typ tpl, Route_regexp typ (Some id) tpl st = Ret (p', st') -> p' = Some id)
  /\ (forall f, Route_MatcherFunc (Some id) f st = Ret (p', st') -> p' = Some id)
  /\ (forall ms, Route_Methods (Some id) ms st = Ret (p', st') -> p' = Some id)
  /\ (forall ss, Route_Schemes (Some id) ss st = Ret (p', st') -> p' = Some id)
  /\ (forall f, Route_BuildVarsFunc (Some id) f st = Ret (p', st') -> p' = Some id)
  /\ (forall pairs, length pairs mod 2 = 0 ->
        Route_Queries (Some id) pairs st = Ret (p', st') -> p' = Some id).
Proof.
  unfold Route_BuildOnly, Route_Handler, Route_Name, Route_regexp, Route_MatcherFunc,
    Route_Methods, Route_Schemes, Route_BuildVarsFunc, Route_Queries, bind, getRoute,
    putRoute, ret, lift.
  destruct (route_heap st !! id) as [r|]; [|repeat split; intros; discriminate].
  repeat split; intros; simpl in *.
  - congruence.
  - congruence.
  - destruct (bool_decide (err _ = None)); [|congruence].
    destruct (registry_heap st !! _); congruence.
  - destruct (addRegexpMatcher tpl typ r) as [[e r']| | | |]; simpl in *; congruence.
  - congruence.
  - congruence.
  - congruence.
  - congruence.
  - rewrite bool_decide_eq_false_2 in H0 by (intros ?; congruence).
    destruct (Queries_loop pairs r); simpl in *; congruence.
Qed.

(** C9, at the input where the code departs from it.  [Queries("a")] on a
    new route records the construction error on the route and returns nil,
    not the route: a call chained on the result panics. *)
Theorem C9_queries_odd_returns_nil :
  exists st,
    (do rt <- NewRouter; do p <- Router_NewRoute rt; Route_Queries p [("a" : str)])
      emptyStore = Ret (None, st)
    /\ Route_GetError st 0
       = Some (Errorf "mux: number of parameters must be multiple of 2, got %v"
                 [("a" : str)])
    /\ (do rt <- NewRouter; do p <- Router_NewRoute rt;
        do p <- Route_Queries p [("a" : str)]; Route_Handler p (Some (HandlerFunc 1)))
         emptyStore = Panic nil_dereference.
Proof.
  eexists. split; [vm_compute; reflexivity|]. split; vm_compute; reflexivity.
Qed.

(** ** C7: route names *)

(** C7, as the code has it.  Calling [Name] on a route that has a name
    records a construction error on the route and changes neither its name
    nor the registry.  Calling it on a route without a name and without an
    error succeeds whatever the registry holds: the route gets the name, and
    the registry entry of the name is set to the route, in place of a route
    that had it. *)
Theorem C7_name_once_per_route (st : Store) (id : RouteId) (r : Route) (name_ : str) :
  route_heap st !! id = Some r ->
  (name r <> [] ->
   exists st',
     Route_Name (Some id) name_ st = Ret (Some id, st')
     /\ Route_GetError st' id
        = Some (Errorf "mux: route already has name %q, can't set %q" [name r; name_])
     /\ Route_GetName st' id = Some (name r)
     /\ registry_heap st' = registry_heap st)
  /\ (name r = [] -> err r = None ->
      forall reg, registry_heap st !! namedRoutes r = Some reg ->
      exists st',
        Route_Name (Some id) name_ st = Ret (Some id, st')
        /\ Route_GetError st' id = None
        /\ Route_GetName st' id = Some name_
        /\ registry_heap st' !! namedRoutes r = Some (<[name_ := id]> reg)).
Proof.
  intros Hr. pose proof (lookup_lt_Some _ _ _ Hr) as Hlt.
  unfold Route_Name, Route_GetError, Route_GetName, bind, getRoute, putRoute, ret.
  rewrite Hr. split.
  - intros Hn. rewrite (bool_decide_eq_true_2 (name r <> [])) by done. simpl.
    eexists. split; [reflexivity|]. simpl.
    rewrite list_lookup_insert_eq by done. done.
  - intros Hn He reg Hreg.
    rewrite (bool_decide_eq_false_2 (name r <> [])) by (intros ?; congruence).
    rewrite He. simpl. rewrite Hreg.
    eexists. split; [reflexivity|]. simpl.
    rewrite !list_lookup_insert_eq by (done || by eapply lookup_lt_Some). done.
Qed.

(** On the route named [home] of [store_one_name], a second call of [Name]
    is recorded as an error. *)
Lemma C7_name_once_per_route_witness :
  exists st',
    Route_Name (Some 0) "index" store_one_name = Ret (Some 0, st')
    /\ Route_GetError st' 0
       = Some (Errorf "mux: route already has name %q, can't set %q"
                 [("home" : str); ("index" : str)])
    /\ Route_GetName st' 0 = Some ("home" : str)
    /\ registry_heap st' = registry_heap store_one_name.
Proof.
  refine (proj1 (C7_name_once_per_route store_one_name 0
                   (mkRoute None false "home" None 0 zeroConf) "index" _) _).
  - vm_compute. reflexivity.
  - simpl. discriminate.
Defined.

(** C7 as the specification states it does not hold for two routes: after
    a route of the router and a route of its subrouter have been given the
    name [home], neither carries an error, both have the name, and the
    registry that they share has the second one under it. *)
Lemma C7_counterexample :
  exists st,
    two_routes_one_name emptyStore = Ret ((Some 0, Some 2, 0), st)
    /\ Route_GetError st 0 = None /\ Route_GetError st 2 = None
    /\ Route_GetName st 0 = Some ("home" : str)
    /\ Route_GetName st 2 = Some ("home" : str)
    /\ Router_Get 0 "home" st = Ret (Some 2, st).
Proof.
  eexists. split; [vm_compute; reflexivity|].
  repeat split; vm_compute; reflexivity.
Qed.

(** ** C8: the method matcher *)

Lemma upper_byte_idem (c : ascii) : upper_byte (upper_byte c) = upper_byte c.
Proof. destruct c as [[] [] [] [] [] [] [] []]; vm_compute; reflexivity. Qed.

Lemma ToUpper_idem (s : str) : ToUpper (ToUpper s) = ToUpper s.
Proof.
  unfold ToUpper. rewrite map_map. apply map_ext. intros c. apply upper_byte_idem.
Qed.

(** [matchInArray] on an upper-cased list: some element of the list equals
    the value up to ASCII case. *)
Lemma matchInArray_upper (arr : list str) (value : str) :
  matchInArray (map ToUpper arr) value = true
  <-> exists v, v ∈ arr /\ ToUpper value = ToUpper v.
Proof.
  unfold matchInArray, str_eqb. rewrite existsb_exists. split.
  - intros (u & Hu & He). apply in_map_iff in Hu as (v & <- & Hv).
    apply bool_decide_eq_true in He. rewrite ToUpper_idem in He.
    exists v. split; [by apply list_elem_of_In|done].
  - intros (v & Hv & He). exists (ToUpper v). split.
    + apply in_map. by apply list_elem_of_In.
    + apply bool_decide_eq_true. by rewrite ToUpper_idem.
Qed.

(** C8. [Methods] registers a method matcher whose list is the given one
    upper-cased, and this matcher accepts a request exactly when the method
    of the request equals one of the given methods up to ASCII case. *)
Theorem C8_methods_case_insensitive (st : Store) (id : RouteId) (r : Route)
    (methods : list str) :
  route_heap st !! id = Some r ->
  err r = None ->
  exists st' r',
    Route_Methods (Some id) methods st = Ret (Some id, st')
    /\ route_heap st' !! id = Some r'
    /\ matchers (conf r') = matchers (conf r) ++ [methodMatcher (map ToUpper methods)]
    /\ forall req,
         methodMatcher_Match (map ToUpper methods) req = true
         <-> exists m, m ∈ methods /\ ToUpper (Method req) = ToUpper m.
Proof.
  intros Hr He. pose proof (lookup_lt_Some _ _ _ Hr) as Hlt.
  unfold Route_Methods, bind, getRoute, putRoute, ret. rewrite Hr. simpl.
  eexists _, _. split; [reflexivity|]. simpl.
  split; [by apply list_lookup_insert_eq|].
  split; [unfold addMatcher; by rewrite He|].
  intros req. apply matchInArray_upper.
Qed.

(** A route registered with [Methods("Get", "post")] matches a request
    whose method is [get]. *)
Lemma C8_methods_case_insensitive_witness :
  exists st' r',
    Route_Methods (Some 0) [("Get" : str); ("post" : str)] store_one_name
    = Ret (Some 0, st')
    /\ route_heap st' !! 0 = Some r'
    /\ matchers (conf r') = [methodMatcher [("GET" : str); ("POST" : str)]]
    /\ methodMatcher_Match [("GET" : str); ("POST" : str)] (request_for "get" "/") = true.
Proof.
  destruct (C8_methods_case_insensitive store_one_name 0
              (mkRoute None false "home" None 0 zeroConf)
              [("Get" : str); ("post" : str)])
    as (st' & r' & H1 & H2 & H3 & H4); [vm_compute; reflexivity | reflexivity |].
  exists st', r'. split; [exact H1|]. split; [exact H2|]. split; [exact H3|].
  apply (H4 (request_for "get" "/")). exists ("Get" : str).
  split; [apply list_elem_of_here | vm_compute; reflexivity].
Defined.

(** ** C1: from values to a path and back *)

(** C1 as the specification states it does not hold when a variable
    follows another at once.  The template [/{a}{b}] with [a=x] and [b=yz],
    which match their validators, gives the path [/xyz]; the pattern matches
    it, with [xy] and [z] as submatches. *)
Lemma C1_counterexample :
  newRouteRegexp "/{a}{b}" regexpTypePath (mkOptions false false) = Ret ab_regexp
  /\ valid_values ab_regexp xyz_values
  /\ routeRegexp_url ab_regexp xyz_values = Ret ("/xyz" : str)
  /\ extractVars "/xyz" (Regexp.FindStringSubmatchIndex (regexp ab_regexp) "/xyz")
       (varsN ab_regexp) 0 (Some ∅)
     = Ret (Some {[ ("a" : str) := ("xy" : str); ("b" : str) := ("z" : str) ]})
  /\ ~ round_trip ab_regexp xyz_values.
Proof.
  split; [vm_compute; reflexivity|].
  assert (Hu : routeRegexp_url ab_regexp xyz_values = Ret ("/xyz" : str))
    by (vm_compute; reflexivity).
  assert (He : extractVars "/xyz"
                 (Regexp.FindStringSubmatchIndex (regexp ab_regexp) "/xyz")
                 (varsN ab_regexp) 0 (Some ∅)
               = Ret (Some {[ ("a" : str) := ("xy" : str); ("b" : str) := ("z" : str) ]}))
    by (vm_compute; reflexivity).
  split; [|split; [exact Hu|split; [exact He|]]].
  - intros [|[|i]] v re Hv Hre; simpl in Hv, Hre; try discriminate.
    + injection Hv as <-. injection Hre as <-.
      exists ("x" : str). split; vm_compute; reflexivity.
    + injection Hv as <-. injection Hre as <-.
      exists ("yz" : str). split; vm_compute; reflexivity.
  - intros (P & vars & HP & _ & Hex & Hall).
    rewrite Hu in HP. injection HP as <-.
    pose proof (eq_trans (eq_sym He) Hex) as H2. injection H2 as <-.
    specialize (Hall ("a" : str) ltac:(apply list_elem_of_here)).
    vm_compute in Hall. discriminate.
Qed.

(** ** C1: the round trip on delimited templates *)

Lemma braceIndices_go_plain whole s rest i idx idxs :
  forallb no_brace s = true ->
  braceIndices_go whole (s ++ rest) i 0 idx idxs
  = braceIndices_go whole rest (i + length s) 0 idx idxs.
Proof.
  revert i. induction s as [|c s IH]; intros i Hs; simpl in *.
  - by rewrite Nat.add_0_r.
  - apply andb_prop in Hs as [Hc Hs]. unfold no_brace in Hc.
    apply andb_prop in Hc as [H1 H2].
    apply negb_true_iff in H1, H2. rewrite H1, H2.
    rewrite IH by done. f_equal. lia.
Qed.

Lemma braceIndices_go_inside whole s rest i idx idxs :
  forallb no_brace s = true ->
  braceIndices_go whole (s ++ rest) i 1 idx idxs
  = braceIndices_go whole rest (i + length s) 1 idx idxs.
Proof.
  revert i. induction s as [|c s IH]; intros i Hs; simpl in *.
  - by rewrite Nat.add_0_r.
  - apply andb_prop in Hs as [Hc Hs]. unfold no_brace in Hc.
    apply andb_prop in Hc as [H1 H2].
    apply negb_true_iff in H1, H2. rewrite H1, H2.
    rewrite IH by done. f_equal. lia.
Qed.

Lemma braceIndices_go_render whole segs tail :
  forallb seg_braces_ok segs = true ->
  forallb no_brace tail = true ->
  forall i idx idxs,
    braceIndices_go whole (render segs tail) i 0 idx idxs
    = inr (idxs ++ indices i segs).
Proof.
  intros Hsegs Htail. induction segs as [|[lit name] segs IH]; intros i idx idxs.
  - simpl. rewrite <- (app_nil_r tail), braceIndices_go_plain by done.
    simpl. by rewrite app_nil_r.
  - simpl in Hsegs. apply andb_prop in Hsegs as [Hseg Hsegs].
    apply andb_prop in Hseg as [Hl Hn]. simpl in Hl, Hn.
    cbn [render]. rewrite braceIndices_go_plain by done.
    cbn [braceIndices_go]. change (byte_eqb "{" "{") with true. cbv iota.
    change (0 + 1)%Z with 1%Z. rewrite bool_decide_eq_true_2 by done.
    rewrite braceIndices_go_inside by done.
    cbn [braceIndices_go]. change (byte_eqb "}" "{") with false.
    change (byte_eqb "}" "}") with true. cbv iota.
    change (1 - 1)%Z with 0%Z. rewrite bool_decide_eq_true_2 by done.
    rewrite IH by done. cbn [indices]. rewrite <- app_assoc. simpl.
    repeat f_equal; lia.
Qed.

Lemma braceIndices_render segs tail :
  forallb seg_braces_ok segs = true ->
  forallb no_brace tail = true ->
  braceIndices (render segs tail) = inr (indices 0 segs).
Proof. intros. unfold braceIndices. by rewrite braceIndices_go_render. Qed.

Lemma slice_middle (pre m post : list ascii) (a b : Z) :
  a = Z.of_nat (length pre) ->
  b = (a + Z.of_nat (length m))%Z ->
  slice (pre ++ m ++ post) a b = Some m.
Proof.
  intros -> ->. unfold slice. rewrite !length_app.
  replace (_ && _ && _) with true.
  2:{ symmetry. rewrite !andb_true_iff, !Z.leb_le. lia. }
  f_equal. rewrite Nat2Z.id.
  replace (Z.to_nat _ - _) with (length m) by lia.
  rewrite drop_app_length. by rewrite take_app_length.
Qed.

Lemma IndexByte_None s c :
  forallb (fun x => negb (byte_eqb x c)) s = true -> IndexByte s c = None.
Proof.
  induction s as [|x s IH]; simpl; [done|].
  intros H. apply andb_prop in H as [H1 H2]. apply negb_true_iff in H1.
  rewrite H1, IH by done. done.
Qed.

Lemma name_ok_no_colon name :
  forallb name_ok name = true ->
  forallb (fun x => negb (byte_eqb x ":")) name = true.
Proof.
  intros H. apply forallb_forall. intros x Hx.
  apply (proj1 (forallb_forall _ _) H) in Hx. unfold name_ok in Hx.
  by apply andb_prop in Hx as [_ ?].
Qed.

Lemma Compile_default_validator :
  Regexp.Compile (("^" : list ascii) ++ ("[^/]+" : list ascii) ++ ("$" : list ascii))
  = Ret default_validator.
Proof. vm_compute. reflexivity. Qed.

Lemma compileVars_render tail segs :
  forallb seg_names_ok segs = true ->
  forall pre k b,
    c_end b = length pre ->
    compileVars (pre ++ render segs tail) "[^/]+" (indices (length pre) segs) k b
    = Ret (mkCompiled (c_pattern b ++ seg_pattern k segs)
             (c_reverse b ++ seg_reverse segs)
             (c_varsN b ++ map snd segs)
             (c_varsR b ++ replicate (length segs) default_validator)
             (length pre + seg_length segs)).
Proof.
  induction segs as [|[lit name] segs IH]; intros Hok pre k b Hend.
  - simpl. rewrite !app_nil_r, Nat.add_0_r, <- Hend. by destruct b.
  - simpl in Hok. apply andb_prop in Hok as [Hseg Hok].
    unfold seg_names_ok in Hseg. simpl in Hseg.
    apply andb_prop in Hseg as [Hseg Hne]. apply andb_prop in Hseg as [Hl Hn].
    apply negb_true_iff, bool_decide_eq_false in Hne.
    cbn [indices compileVars render].
    unfold slice_or_panic at 1. rewrite Hend.
    rewrite (slice_middle pre lit) by lia. cbn [obind].
    unfold slice_or_panic at 1.
    replace (pre ++ lit ++ "{"%char :: name ++ "}"%char :: render segs tail)
      with ((pre ++ lit ++ ["{"%char]) ++ name ++ "}"%char :: render segs tail)
      by (by rewrite <- !app_assoc).
    rewrite (slice_middle (pre ++ lit ++ ["{"%char]) name)
      by (rewrite ?length_app; simpl; lia).
    cbn [obind]. unfold SplitN2.
    rewrite (IndexByte_None name ":") by (by apply name_ok_no_colon).
    cbn [lookup list_lookup default]. simpl (default _ _).
    rewrite (bool_decide_eq_false_2 (name = [])) by done.
    change (bool_decide (list_ascii_of_string "[^/]+" = [])) with false.
    cbn [orb]. rewrite Compile_default_validator. cbn [obind].
    replace ((pre ++ lit ++ ["{"%char]) ++ name ++ "}"%char :: render segs tail)
      with ((pre ++ lit ++ "{"%char :: name ++ ["}"%char]) ++ render segs tail)
      by (rewrite <- !app_assoc; simpl; by rewrite <- !app_assoc).
    replace (length pre + length lit + length name + 2)
      with (length (pre ++ lit ++ "{"%char :: name ++ ["}"%char]))
      by (rewrite ?length_app; simpl; rewrite ?length_app; simpl; lia).
    rewrite IH; [|done|done]. cbn [c_pattern c_reverse c_varsN c_varsR c_end].
    f_equal. f_equal.
    + cbn [seg_pattern]. by rewrite <- !app_assoc.
    + cbn [seg_reverse]. by rewrite <- !app_assoc.
    + simpl. by rewrite <- app_assoc.
    + simpl. by rewrite <- app_assoc.
    + rewrite ?length_app; simpl; rewrite ?length_app; simpl; lia.
Qed.

(** *** The parse of the pattern *)

Lemma steps_app st a b :
  Regexp.steps st (a ++ b)
  = match Regexp.steps st a with
    | inl st' => Regexp.steps st' b
    | inr e => inr e
    end.
Proof.
  revert st. induction a as [|c a IH]; intros st; simpl; [done|].
  destruct (Regexp.step st c); [apply IH|done].
Qed.

Lemma steps_quoted_byte c cat n :
  is_ascii c = true ->
  Regexp.steps (top cat n) (if Regexp.is_meta c then ["\"%char; c] else [c])
  = inl (top (Regexp.Chr c :: cat) n).
Proof.
  destruct c as [[] [] [] [] [] [] [] []]; intros H;
    try discriminate H; reflexivity.
Qed.

Lemma steps_QuoteMeta lit :
  forallb is_ascii lit = true ->
  forall cat n,
    Regexp.steps (top cat n) (Regexp.QuoteMeta lit)
    = inl (top (rev (map Regexp.Chr lit) ++ cat) n).
Proof.
  induction lit as [|c lit IH]; intros Hl cat n; [done|].
  simpl in Hl. apply andb_prop in Hl as [Hc Hl].
  change (Regexp.QuoteMeta (c :: lit))
    with ((if Regexp.is_meta c then ["\"%char; c] else [c]) ++ Regexp.QuoteMeta lit).
  rewrite steps_app, steps_quoted_byte, IH by done.
  simpl. by rewrite <- app_assoc.
Qed.

Lemma string_of_uint_digits d :
  forallb is_digit (list_ascii_of_string (NilEmpty.string_of_uint d)) = true.
Proof. induction d; simpl; auto. Qed.

Lemma Itoa_digits k : forallb is_digit (Itoa k) = true.
Proof.
  unfold Itoa, NilZero.string_of_uint.
  destruct (Nat.to_uint k) eqn:E; try apply string_of_uint_digits. reflexivity.
Qed.

Lemma steps_name_digit c acc cur stack n :
  is_digit c = true ->
  Regexp.step (Regexp.PState (Regexp.MName acc) cur stack n) c
  = inl (Regexp.PState (Regexp.MName (c :: acc)) cur stack n).
Proof.
  destruct c as [[] [] [] [] [] [] [] []]; intros H;
    try discriminate H; reflexivity.
Qed.

Lemma steps_name ds :
  forallb is_digit ds = true ->
  forall acc cur stack n rest,
    acc <> [] ->
    Regexp.steps (Regexp.PState (Regexp.MName acc) cur stack n) (ds ++ ">"%char :: rest)
    = Regexp.steps
        (Regexp.PState (Regexp.MNormal Regexp.RNone)
           (Regexp.Frame (Some (S n, rev acc ++ ds)) [] []) (cur :: stack) (S n))
        rest.
Proof.
  induction ds as [|c ds IH]; intros Hds acc cur stack n rest Hacc.
  - rewrite app_nil_r. destruct acc; [done|]. reflexivity.
  - simpl in Hds. apply andb_prop in Hds as [Hc Hds].
    cbn [app Regexp.steps]. rewrite steps_name_digit by done.
    rewrite IH by done. cbn [rev]. by rewrite <- app_assoc.
Qed.

Lemma steps_default_group nm cat n rest :
  Regexp.steps
    (Regexp.PState (Regexp.MNormal Regexp.RNone)
       (Regexp.Frame (Some (S n, nm)) [] []) [Regexp.Frame None [] cat] (S n))
    (("[^/]+" : list ascii) ++ (")" : list ascii) ++ rest)
  = Regexp.steps
      (top (Regexp.Cap (S n) nm (Regexp.Cat (Regexp.Plus true notslash) Regexp.Eps)
              :: cat) (S n))
      rest.
Proof. reflexivity. Qed.

Lemma steps_var_group k cat n rest :
  Regexp.steps (top cat n)
    (("(?P<" : list ascii) ++ varGroupName k ++ (">" : list ascii)
       ++ ("[^/]+" : list ascii) ++ (")" : list ascii) ++ rest)
  = Regexp.steps
      (top (Regexp.Cap (S n) (varGroupName k)
              (Regexp.Cat (Regexp.Plus true notslash) Regexp.Eps) :: cat) (S n))
      rest.
Proof.
  unfold varGroupName.
  change (Regexp.steps (top cat n)
            (("(?P<" : list ascii) ++ (("v" : list ascii) ++ Itoa k) ++ (">" : list ascii)
               ++ ("[^/]+" : list ascii) ++ (")" : list ascii) ++ rest))
    with (Regexp.steps
            (Regexp.PState (Regexp.MName ["v"%char]) (Regexp.Frame None [] cat) [] n)
            ((Itoa k ++ (">" : list ascii)
               ++ ("[^/]+" : list ascii) ++ (")" : list ascii) ++ rest))).
  change ((">" : list ascii) ++ ("[^/]+" : list ascii) ++ (")" : list ascii) ++ rest)
    with (">"%char :: (("[^/]+" : list ascii) ++ (")" : list ascii) ++ rest)).
  rewrite steps_name by (done || apply Itoa_digits).
  apply steps_default_group.
Qed.

Lemma steps_seg_pattern segs :
  forallb seg_ascii segs = true ->
  forall k cat rest,
    Regexp.steps (top cat k) (seg_pattern k segs ++ rest)
    = Regexp.steps (top (rev (seg_items k segs) ++ cat) (k + length segs)) rest.
Proof.
  induction segs as [|[lit name] segs IH]; intros Hs k cat rest.
  - simpl. by rewrite Nat.add_0_r.
  - simpl in Hs. apply andb_prop in Hs as [Hl Hs]. unfold seg_ascii in Hl; simpl in Hl.
    cbn [seg_pattern seg_items]. rewrite <- !app_assoc.
    rewrite steps_app, steps_QuoteMeta by done.
    rewrite steps_var_group. fold (var_group k). rewrite IH by done.
    rewrite rev_app_distr. cbn [rev]. rewrite <- !app_assoc. simpl.
    by replace (k + S (length segs)) with (S (k + length segs)) by lia.
Qed.

Lemma steps_path_pattern segs tail strict :
  forallb seg_ascii segs = true ->
  forallb is_ascii tail = true ->
  Regexp.steps Regexp.init (path_pattern segs tail strict)
  = inl (top (rev (path_items segs tail strict)) (length segs)).
Proof.
  intros Hs Ht. unfold path_pattern, path_items.
  change (Regexp.steps Regexp.init (("^" : list ascii) ++ ?x))
    with (Regexp.steps (top [Regexp.Bol] 0) x).
  rewrite steps_seg_pattern by done.
  rewrite steps_app, steps_QuoteMeta by done. simpl (0 + _).
  cbn [rev]. rewrite !rev_app_distr.
  destruct strict; simpl; rewrite <- ?app_assoc; reflexivity.
Qed.

Lemma parse_path_pattern segs tail strict :
  forallb seg_ascii segs = true ->
  forallb is_ascii tail = true ->
  Regexp.parse (path_pattern segs tail strict)
  = inl (Regexp.mk_cat (path_items segs tail strict), length segs).
Proof.
  intros Hs Ht. unfold Regexp.parse. rewrite steps_path_pattern by done.
  cbn [top Regexp.p_mode Regexp.p_stack Regexp.p_cur Regexp.p_ncap].
  unfold Regexp.close_frame. cbn [Regexp.f_cat Regexp.f_alts rev app Regexp.mk_alt].
  by rewrite rev_involutive.
Qed.

(** *** Matching the path *)

Lemma not_slash_range c : not_slash c = true -> in_range 47 47 c = false.
Proof.
  destruct c as [[] [] [] [] [] [] [] []]; intros H; try discriminate H; reflexivity.
Qed.

(** The bytes of a rune after its first are continuation bytes. *)
Lemma rune_width_cont c0 t :
  1 <= Regexp.rune_width (c0 :: t) <= 4
  /\ forall j, j < Regexp.rune_width (c0 :: t) - 1 ->
       exists c, t !! j = Some c /\ 128 <= code c.
Proof.
  unfold Regexp.rune_width, Regexp.cont_byte.
  change ((c0 :: t) !! 1) with (t !! 0).
  change ((c0 :: t) !! 2) with (t !! 1).
  change ((c0 :: t) !! 3) with (t !! 2).
  assert (Hin : forall lo hi c, 128 <= lo -> in_range lo hi c = true -> 128 <= code c).
  { intros lo hi c Hlo H. unfold in_range in H. apply andb_prop in H as [H _].
    apply Nat.leb_le in H. lia. }
  assert (Hlo1 : 128 <= (if code c0 =? 224 then 160 else 128))
    by (destruct (code c0 =? 224); lia).
  assert (Hlo2 : 128 <= (if code c0 =? 240 then 144 else 128))
    by (destruct (code c0 =? 240); lia).
  destruct ((194 <=? code c0) && (code c0 <=? 223)).
  { destruct (t !! 0) as [c1|] eqn:E1; [|split; [lia|intros; lia]].
    destruct (in_range 128 191 c1) eqn:R1; [|split; [lia|intros; lia]].
    split; [lia|]. intros [|j] Hj; [|lia]. eauto. }
  destruct ((224 <=? code c0) && (code c0 <=? 239)).
  { destruct (t !! 0) as [c1|] eqn:E1; [|split; [simpl; lia|simpl; intros; lia]].
    destruct (in_range _ _ c1) eqn:R1; [|split; [simpl; lia|simpl; intros; lia]].
    destruct (t !! 1) as [c2|] eqn:E2; [|split; [simpl; lia|simpl; intros; lia]].
    destruct (in_range 128 191 c2) eqn:R2; [|split; [simpl; lia|simpl; intros; lia]].
    split; [simpl; lia|]. simpl. intros [|[|j]] Hj; [| |lia]; eauto. }
  destruct ((240 <=? code c0) && (code c0 <=? 244)).
  { destruct (t !! 0) as [c1|] eqn:E1; [|split; [simpl; lia|simpl; intros; lia]].
    destruct (in_range _ _ c1) eqn:R1; [|split; [simpl; lia|simpl; intros; lia]].
    destruct (t !! 1) as [c2|] eqn:E2; [|split; [simpl; lia|simpl; intros; lia]].
    destruct (in_range 128 191 c2) eqn:R2; [|split; [simpl; lia|simpl; intros; lia]].
    destruct (t !! 2) as [c3|] eqn:E3; [|split; [simpl; lia|simpl; intros; lia]].
    destruct (in_range 128 191 c3) eqn:R3; [|split; [simpl; lia|simpl; intros; lia]].
    split; [simpl; lia|]. simpl. intros [|[|[|j]]] Hj; [| | |lia]; eauto. }
  split; [lia|intros; lia].
Qed.

Lemma boundary_head s c : boundary s = true -> s !! 0 = Some c -> code c < 128.
Proof.
  destruct s as [|x s]; [done|]. simpl. intros Hx [= <-].
  apply Ascii.eqb_eq in Hx as ->. vm_compute. lia.
Qed.

(** A rune that starts in a value ends in it, when the value is followed by
    the end or a slash. *)
Lemma rune_width_inside c0 v s :
  boundary s = true ->
  1 <= Regexp.rune_width (c0 :: v ++ s) <= S (length v).
Proof.
  intros Hs. destruct (rune_width_cont c0 (v ++ s)) as [Hw Hc].
  split; [lia|].
  destruct (decide (Regexp.rune_width (c0 :: v ++ s) <= S (length v))) as [|Hgt]; [done|].
  destruct (Hc (length v)) as (c & Hl & Hge); [lia|].
  rewrite lookup_app_r, Nat.sub_diag in Hl by lia.
  pose proof (boundary_head s c Hs Hl). lia.
Qed.

(** One step of [[^/]] on a value followed by the end or a slash. *)
Lemma next_in_value c0 v s :
  not_slash c0 = true ->
  boundary s = true ->
  exists x w,
    Regexp.next (c0 :: v ++ s) = Some (x, w)
    /\ Regexp.in_ranges x [("/"%char, "/"%char)] = false
    /\ 1 <= w <= S (length v).
Proof.
  intros Hc Hs. unfold Regexp.next.
  destruct (is_ascii c0) eqn:Ha.
  - exists (Some c0), 1. split; [done|]. split; [|lia].
    simpl. rewrite orb_false_r. by apply not_slash_range.
  - eexists None, _. split; [done|]. split; [done|].
    by apply rune_width_inside.
Qed.

Lemma forallb_drop {A} (f : A -> bool) n l :
  forallb f l = true -> forallb f (drop n l) = true.
Proof.
  revert l. induction n as [|n IH]; intros [|x l] H; simpl in *; try done.
  apply andb_prop in H as [_ H]. by apply IH.
Qed.

(** The loop of [[^/]+] on a value followed by the end or a slash takes the
    whole value, if what comes after the loop then succeeds. *)
Lemma loop_value k res :
  forall m v, length v <= m ->
  forall n s pos c,
    forallb not_slash v = true ->
    boundary s = true ->
    length v < n ->
    k s (pos + length v) c = Some res ->
    Regexp.loop (Regexp.run notslash) true k n (v ++ s) pos c = Some res.
Proof.
  induction m as [|m IH]; intros v Hm n s pos c Hv Hs Hn Hk;
    (destruct n as [|n]; [lia|]).
  - destruct v; [|simpl in Hm; lia]. simpl in Hk |- *. rewrite Nat.add_0_r in Hk.
    destruct s as [|x s]; simpl.
    + done.
    + simpl in Hs. apply Ascii.eqb_eq in Hs as ->. done.
  - destruct v as [|c0 v].
    { apply (IH []); simpl; try done; lia. }
    simpl in Hv. apply andb_prop in Hv as [Hc0 Hv].
    destruct (next_in_value c0 v s Hc0 Hs) as (x & w & Hnext & Hr & Hw).
    cbn [Regexp.loop]. change ((c0 :: v) ++ s) with (c0 :: v ++ s).
    cbn [Regexp.run notslash]. rewrite Hnext, Hr. cbn [xorb].
    replace (pos <? pos + w) with true by (symmetry; apply Nat.ltb_lt; lia).
    replace (drop w (c0 :: v ++ s)) with (drop (w - 1) v ++ s).
    2:{ destruct w as [|w]; [lia|]. simpl. rewrite Nat.sub_0_r.
        rewrite drop_app_le by lia. done. }
    rewrite (IH (drop (w - 1) v)); [done| | | | |].
    + rewrite length_drop. simpl in Hm. lia.
    + by apply forallb_drop.
    + done.
    + rewrite length_drop. simpl in Hn. lia.
    + rewrite length_drop. rewrite <- Hk. f_equal. simpl. lia.
Qed.

(** The capture group of a variable takes the value. *)
Lemma run_var_group i v s pos c k res :
  v <> [] ->
  forallb not_slash v = true ->
  boundary s = true ->
  k s (pos + length v) (<[S i := Some (pos, pos + length v)]> c) = Some res ->
  Regexp.run (var_group i) (v ++ s) pos c k = Some res.
Proof.
  intros Hne Hv Hs Hk. destruct v as [|c0 v]; [done|]. clear Hne.
  simpl in Hv. apply andb_prop in Hv as [Hc0 Hv].
  destruct (next_in_value c0 v s Hc0 Hs) as (x & w & Hnext & Hr & Hw).
  unfold var_group. cbn [Regexp.run]. change ((c0 :: v) ++ s) with (c0 :: v ++ s).
  cbn [Regexp.run notslash]. rewrite Hnext, Hr. cbn [xorb].
  replace (drop w (c0 :: v ++ s)) with (drop (w - 1) v ++ s).
  2:{ destruct w as [|w]; [lia|]. simpl. rewrite Nat.sub_0_r.
      rewrite drop_app_le by lia. done. }
  apply (loop_value _ res (length (drop (w - 1) v))); try done.
  - by apply forallb_drop.
  - rewrite length_app. lia.
  - rewrite length_drop. rewrite <- Hk. simpl.
    replace (pos + w + (length v - (w - 1))) with (pos + S (length v)) by lia. done.
Qed.

(** The literal bytes of the pattern take the same bytes of the path. *)
Lemma run_literal lit items s pos c k :
  Regexp.run (Regexp.mk_cat (map Regexp.Chr lit ++ items)) (lit ++ s) pos c k
  = Regexp.run (Regexp.mk_cat items) s (pos + length lit) c k.
Proof.
  revert pos. induction lit as [|a lit IH]; intros pos; simpl.
  - by rewrite Nat.add_0_r.
  - unfold byte_eqb. rewrite Ascii.eqb_refl.
    change (foldr Regexp.Cat Regexp.Eps (map Regexp.Chr lit ++ items))
      with (Regexp.mk_cat (map Regexp.Chr lit ++ items)).
    rewrite IH. f_equal. lia.
Qed.

Section Values.

Variable val : list ascii -> list ascii.

Lemma run_segments segs :
  forallb (value_ok val) segs = true ->
  forall after, delimited segs after = true ->
  forall k pos c items K res,
    Regexp.run (Regexp.mk_cat items) after (pos + length (seg_path val segs))
      (caps_after val k pos segs c) K = Some res ->
    Regexp.run (Regexp.mk_cat (seg_items k segs ++ items)) (seg_path val segs ++ after)
      pos c K = Some res.
Proof.
  induction segs as [|[lit name] segs IH]; intros Hv after Hd k pos c items K res H.
  - simpl in *. by rewrite Nat.add_0_r in H.
  - simpl in Hv. apply andb_prop in Hv as [Hv1 Hv].
    unfold value_ok in Hv1. simpl in Hv1. apply andb_prop in Hv1 as [Hne Hsl].
    apply negb_true_iff, bool_decide_eq_false in Hne.
    cbn [delimited] in Hd. apply andb_prop in Hd as [Hd1 Hd2].
    cbn [seg_items seg_path]. rewrite <- !app_assoc. rewrite run_literal.
    cbn [app Regexp.mk_cat foldr Regexp.run].
    apply run_var_group; try done.
    + destruct segs as [|[lit' name'] segs]; [by rewrite app_nil_l|].
      simpl. destruct lit' as [|x lit']; [done|]. done.
    + apply IH; try done. rewrite <- H. cbn [seg_path caps_after].
      rewrite !length_app. f_equal. lia.
Qed.

(** The groups after the segments, when they were unset before. *)
Lemma caps_after_spans segs :
  forall k pos pre m,
    length pre = S k ->
    length segs <= m ->
    caps_after val k pos segs (pre ++ replicate m None)
    = pre ++ map Some (spans val pos segs) ++ replicate (m - length segs) None.
Proof.
  induction segs as [|[lit name] segs IH]; intros k pos pre m Hpre Hm.
  - simpl. by rewrite Nat.sub_0_r.
  - simpl in Hm. destruct m as [|m]; [lia|].
    cbn [caps_after spans map replicate].
    rewrite insert_app_r_alt by lia. rewrite Hpre, Nat.sub_diag. cbn [insert list_insert].
    rewrite (cons_middle _ pre), app_assoc.
    rewrite IH by (rewrite ?length_app; simpl; lia).
    rewrite <- app_assoc. simpl. done.
Qed.

(** What follows the segments in the pattern, on what follows them in the
    path: the last literal, then with strict slash an optional slash, then
    the end. *)
Lemma run_tail (tail rem : list ascii) (strict : bool) pos c K res :
  (rem = [] \/ (strict = true /\ rem = ["/"%char])) ->
  K [] (pos + length tail + length rem) c = Some res ->
  Regexp.run
    (Regexp.mk_cat (map Regexp.Chr tail
                      ++ (if strict then [Regexp.Quest true slashset] else [])
                      ++ [Regexp.Eol]))
    (tail ++ rem) pos c K = Some res.
Proof.
  intros Hrem HK. rewrite run_literal.
  destruct Hrem as [->|[-> ->]]; simpl in HK; rewrite ?Nat.add_0_r in HK.
  - destruct strict; simpl; by rewrite HK.
  - simpl. by rewrite HK.
Qed.

Lemma extractVars_spans segs :
  forall before after pre post i m,
    length pre = 2 * i + 2 ->
    extractVars (before ++ seg_path val segs ++ after)
      (pre ++ flatZ (spans val (length before) segs) ++ post) (map snd segs) i (Some m)
    = Ret (Some (put_all val segs m)).
Proof.
  induction segs as [|[lit name] segs IH]; intros before after pre post i m Hpre; [done|].
  cbn [map snd extractVars spans flatZ flat_map seg_path].
  rewrite (lookup_app_r pre _ (2 * i + 2)) by lia.
  replace (2 * i + 2 - length pre) with 0 by lia.
  cbn [app lookup list_lookup].
  rewrite (lookup_app_r pre _ (2 * i + 3)) by lia.
  replace (2 * i + 3 - length pre) with 1 by lia.
  cbn [app lookup list_lookup]. unfold slice_or_panic.
  replace (before ++ (lit ++ val name ++ seg_path val segs) ++ after)
    with ((before ++ lit) ++ val name ++ (seg_path val segs ++ after))
    by (by rewrite <- !app_assoc).
  rewrite slice_middle by (rewrite ?length_app; lia). cbn [obind].
  replace (length before + length lit + length (val name))
    with (length ((before ++ lit) ++ val name)) by (rewrite !length_app; lia).
  replace ((before ++ lit) ++ val name ++ seg_path val segs ++ after)
    with (((before ++ lit) ++ val name) ++ seg_path val segs ++ after)
    by (by rewrite <- !app_assoc).
  change (pre ++ Z.of_nat (length before + length lit)
            :: Z.of_nat (length ((before ++ lit) ++ val name))
            :: flat_map (fun '(a, b) => [Z.of_nat a; Z.of_nat b])
                 (spans val (length ((before ++ lit) ++ val name)) segs) ++ post)
    with (pre ++ [Z.of_nat (length before + length lit);
                  Z.of_nat (length ((before ++ lit) ++ val name))]
            ++ flatZ (spans val (length ((before ++ lit) ++ val name)) segs) ++ post).
  rewrite (app_assoc pre). cbn [put_all]. apply IH. rewrite length_app. simpl. lia.
Qed.

Lemma put_all_lookup segs :
  forall m x,
    put_all val segs m !! x
    = if bool_decide (x ∈ map snd segs) then Some (val x) else m !! x.
Proof.
  induction segs as [|[lit name] segs IH]; intros m x; cbn [put_all map snd].
  - rewrite bool_decide_eq_false_2; [done|]. apply not_elem_of_nil.
  - rewrite IH. destruct (decide (x = name)) as [->|Hne].
    + rewrite lookup_insert_eq.
      rewrite (bool_decide_eq_true_2 (name ∈ name :: map snd segs))
        by apply list_elem_of_here.
      by destruct (bool_decide (name ∈ map snd segs)).
    + rewrite lookup_insert_ne by done.
      rewrite (bool_decide_ext (x ∈ name :: map snd segs) (x ∈ map snd segs));
        [done|].
      rewrite elem_of_cons. split; [intros [Heq|Hin]; [by destruct Hne|done]|by right].
Qed.

End Values.

(** *** The validator of a variable with the default pattern *)

Lemma code_not_slash c : 128 <= code c -> not_slash c = true.
Proof.
  intros H. unfold not_slash, byte_eqb.
  destruct (Ascii.eqb_spec c "/") as [->|]; [|done]. vm_compute in H. lia.
Qed.

Lemma range_not_slash c : in_range 47 47 c = false -> not_slash c = true.
Proof.
  intros H. unfold not_slash, byte_eqb.
  destruct (Ascii.eqb_spec c "/") as [->|]; [|done]. discriminate H.
Qed.

Lemma not_ascii_code c : is_ascii c = false -> 128 <= code c.
Proof. unfold is_ascii. intros H. apply Nat.ltb_ge in H. done. Qed.

(** The bytes of the rune that [next] takes from a string are not slashes,
    when [[^/]] accepts the rune. *)
Lemma next_not_slash s x w :
  Regexp.next s = Some (x, w) ->
  Regexp.in_ranges x [("/"%char, "/"%char)] = false ->
  1 <= w /\ forallb not_slash (take w s) = true /\ w <= length s.
Proof.
  destruct s as [|c0 t]; [done|]. unfold Regexp.next.
  destruct (rune_width_cont c0 t) as [Hw Hc].
  remember (Regexp.rune_width (c0 :: t)) as rw eqn:Erw. clear Erw.
  destruct (is_ascii c0) eqn:Ha; intros [= <- <-] Hr.
  - split; [lia|]. split; [|simpl; lia]. simpl in Hr |- *.
    rewrite orb_false_r in Hr. rewrite ?take_0. simpl.
    by rewrite range_not_slash.
  - split; [lia|].
    assert (Hlen : rw - 1 <= length t).
    { destruct (decide (rw - 1 <= length t)); [done|].
      destruct (Hc (length t)) as (c & Hl & _); [lia|].
      apply lookup_lt_Some in Hl. lia. }
    split; [|simpl; lia].
    destruct rw as [|w]; [lia|]. simpl.
    rewrite code_not_slash by (by apply not_ascii_code). simpl.
    apply forallb_forall. intros y Hy. apply list_elem_of_In in Hy.
    apply list_elem_of_lookup in Hy as [j Hj].
    pose proof (lookup_lt_Some _ _ _ Hj) as Hlt. rewrite length_take in Hlt.
    rewrite lookup_take_lt in Hj by lia.
    destruct (Hc j) as (c & Hl & Hge); [simpl; lia|].
    rewrite Hj in Hl. injection Hl as <-. by apply code_not_slash.
Qed.

Lemma next_width_pos s x w : Regexp.next s = Some (x, w) -> 1 <= w.
Proof.
  destruct s as [|c0 t]; [done|]. unfold Regexp.next.
  destruct (rune_width_cont c0 t) as [Hw _].
  remember (Regexp.rune_width (c0 :: t)) as rw eqn:Erw. clear Erw.
  destruct (is_ascii c0); intros [= <- <-]; lia.
Qed.

Lemma loop_to_end K :
  forall n s pos c res,
    Regexp.loop (Regexp.run notslash) true (at_end K) n s pos c = Some res ->
    forallb not_slash s = true.
Proof.
  induction n as [|n IH]; intros s pos c res H; [done|].
  cbn [Regexp.loop] in H.
  destruct (Regexp.run notslash s pos c _) as [r|] eqn:Hagain.
  - cbn [Regexp.run notslash] in Hagain.
    destruct (Regexp.next s) as [[x w]|] eqn:Hnext; [|done].
    destruct (Regexp.in_ranges x [("/"%char, "/"%char)]) eqn:Hr; [done|].
    cbn [xorb] in Hagain.
    destruct (pos <? pos + w); [|done].
    apply IH in Hagain.
    destruct (next_not_slash _ _ _ Hnext Hr) as (_ & Htake & _).
    rewrite <- (take_drop w s), forallb_app, Htake, Hagain. done.
  - unfold at_end in H. simpl in H. by destruct s.
Qed.

Lemma search_anchored R ncap :
  forall n s pos,
    0 < pos -> Regexp.search (Regexp.Cat Regexp.Bol R) ncap n s pos = None.
Proof.
  induction n as [|n IH]; intros s pos Hpos; simpl.
  - replace (pos =? 0) with false by (symmetry; apply Nat.eqb_neq; lia). done.
  - replace (pos =? 0) with false by (symmetry; apply Nat.eqb_neq; lia).
    destruct (Regexp.next s) as [[x w]|]; [|done]. apply IH. lia.
Qed.

(** A value that the default validator accepts is not empty and has no
    slash. *)
Lemma default_validator_sound v :
  Regexp.MatchString default_validator v = true ->
  v <> [] /\ forallb not_slash v = true.
Proof.
  unfold Regexp.MatchString, Regexp.exec. intros H.
  apply bool_decide_eq_true in H as [res H].
  change (Regexp.prog default_validator)
    with (Regexp.Cat Regexp.Bol
            (Regexp.Cat (Regexp.Plus true notslash)
               (Regexp.Cat Regexp.Eol Regexp.Eps))) in H.
  change (Regexp.numSubexp default_validator) with 0 in H.
  destruct (length v) as [|n] eqn:Hlen.
  { destruct v; [|done]. simpl in H. discriminate. }
  cbn [Regexp.search] in H.
  destruct (Regexp.run _ v 0 _ _) as [r|] eqn:Hrun.
  2:{ destruct (Regexp.next v) as [[x w]|] eqn:Hnext; [|done].
      rewrite search_anchored in H; [done|].
      apply next_width_pos in Hnext. lia. }
  clear H. cbn [Regexp.run Nat.eqb notslash] in Hrun.
  destruct (Regexp.next v) as [[x w]|] eqn:Hnext; [|done].
  destruct (Regexp.in_ranges x [("/"%char, "/"%char)]) eqn:Hr; [done|].
  cbn [xorb] in Hrun.
  split; [by destruct v|].
  destruct (next_not_slash _ _ _ Hnext Hr) as (_ & Htake & _).
  match type of Hrun with
  | Regexp.loop _ _ ?k _ _ _ _ = _ =>
      change k with (at_end (fun _ pos' c' => Some (<[0 := Some (0, pos')]> c'))) in Hrun
  end.
  apply loop_to_end in Hrun.
  rewrite <- (take_drop w v), forallb_app, Htake, Hrun. done.
Qed.

(** *** The template, its pattern and its reverse template *)

Lemma render_app segs t1 t2 : render segs (t1 ++ t2) = render segs t1 ++ t2.
Proof.
  induction segs as [|[lit name] segs IH]; simpl; [done|].
  rewrite IH. rewrite <- !app_assoc. simpl. by rewrite <- !app_assoc.
Qed.

Lemma length_render segs t : length (render segs t) = seg_length segs + length t.
Proof.
  induction segs as [|[lit name] segs IH]; simpl; [done|].
  rewrite !length_app. simpl. rewrite !length_app. simpl. rewrite IH. lia.
Qed.

Lemma render_ends_with_brace segs :
  segs <> [] -> exists X, render segs [] = X ++ ["}"%char].
Proof.
  induction segs as [|[lit name] segs IH]; [done|]. intros _.
  destruct segs as [|seg segs].
  - exists (lit ++ "{"%char :: name). simpl. rewrite <- app_assoc. done.
  - destruct IH as [X HX]; [done|].
    change (render ((lit, name) :: seg :: segs) [])
      with (lit ++ "{"%char :: name ++ "}"%char :: render (seg :: segs) []).
    rewrite HX.
    exists (lit ++ "{"%char :: name ++ "}"%char :: X).
    rewrite <- !app_assoc. simpl. rewrite <- !app_assoc. done.
Qed.

Lemma HasSuffix_slash_render segs tail :
  HasSuffix_slash (render segs tail) = HasSuffix_slash tail.
Proof.
  unfold HasSuffix_slash.
  destruct tail as [|c tail] using rev_ind.
  - destruct segs as [|seg segs]; [done|].
    destruct (render_ends_with_brace (seg :: segs)) as [X ->]; [done|].
    by rewrite last_snoc.
  - by rewrite render_app, !last_snoc.
Qed.

Lemma length_indices segs : forall off, length (indices off segs) = 2 * length segs.
Proof.
  induction segs as [|[lit name] segs IH]; intros off; [done|].
  simpl. rewrite IH. lia.
Qed.

Lemma search_first r ncap n s pos res :
  Regexp.run r s pos (replicate (S ncap) None)
    (fun _ pos' c' => Some (<[0 := Some (pos, pos')]> c')) = Some res ->
  Regexp.search r ncap n s pos = Some res.
Proof. intros H. destruct n; cbn [Regexp.search]; by rewrite H. Qed.

(** *** The reverse build *)

Lemma Sprintf_literal lit :
  forallb no_percent lit = true ->
  forall rest args,
    Sprintf (lit ++ rest) args = (fun r => lit ++ r) <$> Sprintf rest args.
Proof.
  induction lit as [|c lit IH]; intros Hl rest args.
  - simpl. by destruct (Sprintf rest args).
  - simpl in Hl. apply andb_prop in Hl as [Hc Hl]. apply negb_true_iff in Hc.
    cbn [app Sprintf]. rewrite Hc, IH by done. by destruct (Sprintf rest args).
Qed.

Lemma Sprintf_plain lit :
  forallb no_percent lit = true -> Sprintf lit [] = Some lit.
Proof.
  intros Hl. rewrite <- (app_nil_r lit) at 1. rewrite Sprintf_literal by done.
  simpl. by rewrite app_nil_r.
Qed.

Lemma Sprintf_segments (val : list ascii -> list ascii) segs :
  forallb (fun seg => forallb no_percent (fst seg)) segs = true ->
  forall rest,
    forallb no_percent rest = true ->
    Sprintf (seg_reverse segs ++ rest) (map (fun seg => val (snd seg)) segs)
    = Some (seg_path val segs ++ rest).
Proof.
  induction segs as [|[lit name] segs IH]; intros Hs rest Hr.
  - simpl. by apply Sprintf_plain.
  - simpl in Hs. apply andb_prop in Hs as [Hl Hs].
    cbn [seg_reverse seg_path map snd]. rewrite <- !app_assoc.
    rewrite Sprintf_literal by done.
    change (Sprintf (("%s" : list ascii) ++ seg_reverse segs ++ rest)
              (val name :: map (fun seg => val (snd seg)) segs))
      with ((fun r => val name ++ r)
              <$> Sprintf (seg_reverse segs ++ rest)
                    (map (fun seg => val (snd seg)) segs)).
    rewrite IH by done. simpl. done.
Qed.

Lemma urlValues_present (values : gmap (list ascii) (list ascii)) names :
  Forall (fun v => is_Some (values !! v)) names ->
  urlValues regexpTypePath names values
  = inr (map (fun v => default [] (values !! v)) names).
Proof.
  induction 1 as [|v names [value Hv] _ IH]; [done|].
  simpl. rewrite Hv, IH. done.
Qed.

(** *** The class of templates and its descriptors *)

Lemma forallb_impl {A} (f g : A -> bool) l :
  (forall x, f x = true -> g x = true) -> forallb f l = true -> forallb g l = true.
Proof.
  intros Hfg. induction l as [|x l IH]; simpl; [done|].
  intros [H1 H2]%andb_prop. by rewrite Hfg, IH.
Qed.

Lemma lit_ok_ascii c : lit_ok c = true -> is_ascii c = true.
Proof. unfold lit_ok. by intros [[? ?]%andb_prop ?]%andb_prop. Qed.

Lemma lit_ok_brace c : lit_ok c = true -> no_brace c = true.
Proof. unfold lit_ok. by intros [[? ?]%andb_prop ?]%andb_prop. Qed.

Lemma lit_ok_percent c : lit_ok c = true -> no_percent c = true.
Proof. unfold lit_ok. by intros [[? ?]%andb_prop ?]%andb_prop. Qed.

Lemma stripped_rest strict tail : stripped strict tail ++ strip_rest strict tail = tail.
Proof.
  unfold stripped, strip_rest. destruct (strict && HasSuffix_slash tail) eqn:E.
  - apply andb_prop in E as [_ E]. unfold HasSuffix_slash in E.
    destruct (last tail) as [c|] eqn:El; [|done].
    apply Ascii.eqb_eq in E as ->. apply last_Some in El as [l' ->].
    rewrite length_app. simpl. rewrite Nat.add_sub, take_app_length. done.
  - apply app_nil_r.
Qed.

Lemma forallb_stripped f strict tail :
  forallb f tail = true -> forallb f (stripped strict tail) = true.
Proof.
  intros H. rewrite <- (stripped_rest strict tail), forallb_app in H.
  by apply andb_prop in H as [? _].
Qed.

Lemma newRouteRegexp_render segs tail opts :
  template_ok segs tail = true ->
  newRouteRegexp (render segs tail) regexpTypePath opts
  = Ret (path_regexp segs tail opts).
Proof.
  unfold template_ok. intros [[Hs Ht]%andb_prop Hd]%andb_prop.
  assert (Hs1 : forallb seg_braces_ok segs = true).
  { revert Hs. apply forallb_impl. intros [lit name]. unfold seg_ok, seg_braces_ok.
    simpl. intros [[H1 H2]%andb_prop _]%andb_prop.
    rewrite (forallb_impl lit_ok no_brace lit) by (done || apply lit_ok_brace).
    rewrite (forallb_impl name_ok no_brace name); try done.
    intros c. unfold name_ok. by intros [? _]%andb_prop. }
  assert (Hs2 : forallb seg_names_ok segs = true).
  { revert Hs. apply forallb_impl. intros [lit name]. unfold seg_ok, seg_names_ok.
    simpl. intros [[H1 H2]%andb_prop H3]%andb_prop.
    rewrite (forallb_impl lit_ok no_brace lit) by (done || apply lit_ok_brace).
    by rewrite H2, H3. }
  assert (Hs3 : forallb seg_ascii segs = true).
  { revert Hs. apply forallb_impl. intros [lit name]. unfold seg_ok, seg_ascii.
    simpl. intros [[H1 H2]%andb_prop H3]%andb_prop.
    revert H1. apply forallb_impl. apply lit_ok_ascii. }
  assert (Ht1 : forallb no_brace tail = true).
  { revert Ht. apply forallb_impl. apply lit_ok_brace. }
  assert (Ht2 : forallb is_ascii (stripped (o_strictSlash opts) tail) = true).
  { apply forallb_stripped. revert Ht. apply forallb_impl. apply lit_ok_ascii. }
  unfold newRouteRegexp, assemble. rewrite braceIndices_render by done.
  decide_kinds. cbv iota. rewrite HasSuffix_slash_render.
  set (strict := o_strictSlash opts) in *.
  assert (Htpl : (if strict && HasSuffix_slash tail
                  then take (length (render segs tail) - 1) (render segs tail)
                  else render segs tail)
                 = [] ++ render segs [] ++ stripped strict tail ++ []).
  { rewrite app_nil_r. simpl. rewrite <- render_app. simpl.
    unfold stripped. destruct (strict && HasSuffix_slash tail) eqn:E; [|done].
    pose proof (stripped_rest strict tail) as Hsr. unfold stripped, strip_rest in Hsr.
    rewrite E in Hsr. rewrite <- Hsr at 1 2. rewrite render_app, length_app. simpl.
    by rewrite Nat.add_sub, take_app_length. }
  rewrite Htpl.
  replace (render segs [] ++ stripped strict tail ++ [])
    with (render segs (stripped strict tail))
    by (rewrite app_nil_r, <- render_app; done).
  change (indices 0 segs) with (indices (length (@nil ascii)) segs).
  rewrite compileVars_render by done. cbn [obind c_end c_pattern c_reverse c_varsN c_varsR].
  unfold slice_or_panic.
  replace ([] ++ render segs (stripped strict tail))
    with (render segs [] ++ stripped strict tail ++ [])
    by (rewrite app_nil_r, <- render_app; done).
  rewrite slice_middle.
  2:{ rewrite length_render. simpl. f_equal. lia. }
  2:{ rewrite !length_app, length_render. simpl. lia. }
  cbn [obind length app].
  assert (Hpat :
    (if strict
     then ((("^" : list ascii) ++ seg_pattern 0 segs)
             ++ Regexp.QuoteMeta (stripped strict tail)) ++ ("[/]?" : list ascii)
     else (("^" : list ascii) ++ seg_pattern 0 segs)
            ++ Regexp.QuoteMeta (stripped strict tail)) ++ ("$" : list ascii)
    = path_pattern segs (stripped strict tail) strict).
  { unfold path_pattern. destruct strict; simpl; rewrite <- ?app_assoc; done. }
  rewrite Hpat. cbn [a_pattern a_nvars a_reverse a_varsN a_varsR a_options
                     a_wildcardHostPort andb].
  unfold Regexp.Compile. rewrite parse_path_pattern by done. cbn [obind].
  unfold Regexp.NumSubexp. cbn [Regexp.numSubexp].
  rewrite length_indices, Nat.mul_comm, Nat.div_mul by lia.
  rewrite bool_decide_eq_false_2 by (intros H; by apply H).
  unfold path_regexp. fold strict. f_equal. f_equal.
  unfold strip_rest. destruct (strict && HasSuffix_slash tail).
  - by rewrite <- app_assoc.
  - by rewrite app_nil_r.
Qed.

Lemma flat_map_Some (l : list (nat * nat)) :
  flat_map (fun o : option (nat * nat) =>
              match o with
              | Some (a, b) => [Z.of_nat a; Z.of_nat b]
              | None => [(-1)%Z; (-1)%Z]
              end) (map Some l)
  = flatZ l.
Proof. induction l as [|[a b] l IH]; simpl; [done|]. by rewrite IH. Qed.

(** The submatches of the path of a template of the class. *)
Lemma exec_path_regexp (val : list ascii -> list ascii) segs tail opts :
  forallb (value_ok val) segs = true ->
  delimited segs tail = true ->
  Regexp.exec (regexp (path_regexp segs tail opts)) (seg_path val segs ++ tail)
  = Some (Some (0, length (seg_path val segs ++ tail))
            :: map Some (spans val 0 segs)).
Proof.
  intros Hv Hd. unfold Regexp.exec, path_regexp.
  cbn [regexp Regexp.prog Regexp.numSubexp].
  set (strict := o_strictSlash opts).
  replace (seg_path val segs ++ tail)
    with (seg_path val segs ++ stripped strict tail ++ strip_rest strict tail)
    by (by rewrite stripped_rest).
  apply search_first. unfold path_items.
  cbn [Regexp.mk_cat foldr Regexp.run Nat.eqb].
  change (foldr Regexp.Cat Regexp.Eps ?x) with (Regexp.mk_cat x).
  apply (run_segments val); [done|by rewrite stripped_rest|].
  apply run_tail.
  { unfold strip_rest. destruct strict; simpl; [|by left].
    destruct (HasSuffix_slash tail); [right|left]; done. }
  f_equal.
  change (replicate (S (length segs)) None)
    with ([@None (nat * nat)] ++ replicate (length segs) None).
  rewrite (caps_after_spans val) by done. rewrite Nat.sub_diag. simpl.
  rewrite app_nil_r. do 3 f_equal. rewrite !length_app. lia.
Qed.

(** The round trip on the descriptor of a template of the class. *)
Lemma round_trip_path_regexp (segs : list (list ascii * list ascii)) (tail : list ascii)
    (opts : routeRegexpOptions) (values : gmap (list ascii) (list ascii)) :
  template_ok segs tail = true ->
  valid_values (path_regexp segs tail opts) values ->
  round_trip (path_regexp segs tail opts) values.
Proof.
  intros Hok Hvalid. pose proof Hok as Hok'. unfold template_ok in Hok'.
  apply andb_prop in Hok' as [[Hs Ht]%andb_prop Hd].
  set (val := fun v : list ascii => default [] (values !! v)).
  assert (Hseg : forall seg, seg ∈ segs ->
            exists value, values !! (snd seg) = Some value
              /\ value <> [] /\ forallb not_slash value = true).
  { intros seg [i Hi]%list_elem_of_lookup.
    destruct (Hvalid i (snd seg) default_validator) as (value & Hval & Hm).
    - cbn [varsN path_regexp]. by rewrite list_lookup_fmap, Hi.
    - cbn [varsR path_regexp]. apply lookup_replicate_2. by eapply lookup_lt_Some.
    - exists value. split; [done|]. by apply default_validator_sound. }
  assert (Hpresent : Forall (fun v => is_Some (values !! v)) (map snd segs)).
  { apply Forall_forall. intros v [seg [-> Hin]]%list_elem_of_fmap.
    destruct (Hseg seg Hin) as (value & -> & _). eauto. }
  assert (Hvals : forallb (value_ok val) segs = true).
  { apply forallb_forall. intros seg Hin%list_elem_of_In.
    destruct (Hseg seg Hin) as (value & Hval & Hne & Hsl).
    unfold value_ok, val. rewrite Hval. simpl.
    by rewrite bool_decide_eq_false_2, Hsl. }
  pose proof (exec_path_regexp val segs tail opts Hvals Hd) as Hexec.
  assert (Hmatch : Regexp.MatchString (regexp (path_regexp segs tail opts))
                     (seg_path val segs ++ tail) = true).
  { unfold Regexp.MatchString. rewrite Hexec. apply bool_decide_eq_true_2. eauto. }
  exists (seg_path val segs ++ tail), (put_all val segs ∅).
  split; [|split; [done|split]].
  - unfold routeRegexp_url.
    change (regexpType_of (path_regexp segs tail opts)) with regexpTypePath.
    change (varsN (path_regexp segs tail opts)) with (map snd segs).
    change (reverse (path_regexp segs tail opts))
      with (seg_reverse segs ++ stripped (o_strictSlash opts) tail
              ++ strip_rest (o_strictSlash opts) tail).
    rewrite stripped_rest.
    rewrite urlValues_present by done. rewrite map_map.
    rewrite (Sprintf_segments val).
    + by rewrite Hmatch.
    + revert Hs. apply forallb_impl. intros [lit name]. unfold seg_ok. simpl.
      intros [[H1 _]%andb_prop _]%andb_prop. revert H1.
      apply forallb_impl, lit_ok_percent.
    + revert Ht. apply forallb_impl, lit_ok_percent.
  - unfold Regexp.FindStringSubmatchIndex. rewrite Hexec.
    cbn [flat_map]. rewrite flat_map_Some. cbn [varsN path_regexp].
    pose proof (extractVars_spans val segs [] tail
                  [0%Z; Z.of_nat (length (seg_path val segs ++ tail))] [] 0 ∅
                  eq_refl) as Hex.
    rewrite app_nil_r in Hex. exact Hex.
  - intros v Hv. cbn [varsN path_regexp] in Hv.
    rewrite put_all_lookup, bool_decide_eq_true_2 by done.
    apply list_elem_of_fmap in Hv as [seg [-> Hin]].
    destruct (Hseg seg Hin) as (value & Hval & _). unfold val. by rewrite Hval.
Qed.

(** C1, as the code has it.  Take a template of kind Path made of ASCII
    literals without [%] and of variables with the default pattern, each
    variable followed by a slash or by the end of the template
    ([render segs tail], [template_ok]).  It compiles, and for every
    assignment in which each value matches the validator of its variable,
    the path obtained from the reverse template matches the compiled
    pattern and the variables extracted from its submatches are the values
    put in. *)
Theorem C1_round_trip_delimited (segs : list (list ascii * list ascii))
    (tail : list ascii) (opts : routeRegexpOptions)
    (values : gmap (list ascii) (list ascii)) :
  template_ok segs tail = true ->
  exists rr,
    newRouteRegexp (render segs tail) regexpTypePath opts = Ret rr
    /\ varsN rr = map snd segs
    /\ (valid_values rr values -> round_trip rr values).
Proof.
  intros Hok. exists (path_regexp segs tail opts).
  split; [by apply newRouteRegexp_render|]. split; [done|].
  by apply round_trip_path_regexp.
Qed.

(** The template [/articles/{category}/{id}/] under strict slash, with
    [category=technology] and [id=42]. *)
Lemma C1_round_trip_delimited_witness :
  exists rr,
    newRouteRegexp "/articles/{category}/{id}/" regexpTypePath (mkOptions true false)
    = Ret rr
    /\ valid_values rr article_42
    /\ routeRegexp_url rr article_42 = Ret ("/articles/technology/42/" : list ascii)
    /\ round_trip rr article_42.
Proof.
  destruct (C1_round_trip_delimited article_segments "/" (mkOptions true false)
              article_42 ltac:(vm_compute; reflexivity)) as (rr & Hrr & Hn & Hrt).
  exists rr. split; [exact Hrr|].
  assert (Hv : valid_values rr article_42).
  { rewrite newRouteRegexp_render in Hrr by (vm_compute; reflexivity).
    injection Hrr as <-.
    intros [|[|i]] v re Hv Hre; simpl in Hv, Hre; try discriminate.
    - injection Hv as <-. injection Hre as <-.
      exists ("technology" : list ascii). split; vm_compute; reflexivity.
    - injection Hv as <-. injection Hre as <-.
      exists ("42" : list ascii). split; vm_compute; reflexivity. }
  split; [exact Hv|]. split; [|by apply Hrt].
  rewrite newRouteRegexp_render in Hrr by (vm_compute; reflexivity).
  injection Hrr as <-. vm_compute. reflexivity.
Defined.

(** With patterns of their own, variables separated by a slash do not make
    the round trip either: for [/{a:.*}/{b:.*}] with [a=x] and [b=y/z], the
    path [/x/y/z] gives back [a=x/y] and [b=z]. *)
Lemma custom_pattern_example :
  exists rr,
    newRouteRegexp "/{a:.*}/{b:.*}" regexpTypePath (mkOptions false false) = Ret rr
    /\ routeRegexp_url rr {[ ("a" : list ascii) := ("x" : list ascii);
                             ("b" : list ascii) := ("y/z" : list ascii) ]}
       = Ret ("/x/y/z" : list ascii)
    /\ extractVars "/x/y/z" (Regexp.FindStringSubmatchIndex (regexp rr) "/x/y/z")
         (varsN rr) 0 (Some ∅)
       = Ret (Some {[ ("a" : list ascii) := ("x/y" : list ascii);
                      ("b" : list ascii) := ("z" : list ascii) ]}).
Proof.
  eexists. split; [vm_compute; reflexivity|]. split; vm_compute; reflexivity.
Qed.

(** A value can match the validator of its variable and the path still not
    match the pattern: the validator of [{a:x|y}] is [^x|y$], which accepts
    [xx], while the pattern [^/(?P<v0>x|y)$] rejects [/xx]; [url] returns the
    path without an error. *)
Lemma alternation_example :
  exists rr re,
    newRouteRegexp "/{a:x|y}" regexpTypePath (mkOptions false false) = Ret rr
    /\ varsR rr = [re]
    /\ Regexp.MatchString re "xx" = true
    /\ routeRegexp_url rr {[ ("a" : list ascii) := ("xx" : list ascii) ]}
       = Ret ("/xx" : list ascii)
    /\ Regexp.MatchString (regexp rr) "/xx" = false.
Proof.
  eexists _, _. split; [vm_compute; reflexivity|]. split; [reflexivity|].
  split; [vm_compute; reflexivity|]. split; vm_compute; reflexivity.
Qed.

(** A literal [%] of the template is a verb of the reverse template: for
    [/%%/{a}] with [a=x], [url] returns [/%/x], which the pattern
    [^/%%/(?P<v0>[^/]+)$] does not match. *)
Lemma percent_example :
  exists rr,
    newRouteRegexp "/%%/{a}" regexpTypePath (mkOptions false false) = Ret rr
    /\ routeRegexp_url rr {[ ("a" : list ascii) := ("x" : list ascii) ]}
       = Ret ("/%/x" : list ascii)
    /\ Regexp.MatchString (regexp rr) "/%/x" = false.
Proof.
  eexists. split; [vm_compute; reflexivity|]. split; vm_compute; reflexivity.
Qed.

(** * Further properties of the package *)

(** ** The brace indices of a template *)

Lemma is_inr_go_iff whole s : forall i level idx idxs,
  (exists r, braceIndices_go whole s i (Z.of_nat level) idx idxs = inr r)
  <-> balanced_from level s = true.
Proof.
  induction s as [|c s IH]; intros i level idx idxs; cbn [braceIndices_go balanced_from].
  - case_bool_decide as E.
    + split; [intros [r Hr]; discriminate|]. intros H%Nat.eqb_eq. lia.
    + split; [|intros _; eexists; reflexivity]. intros _. apply Nat.eqb_eq. lia.
  - destruct (byte_eqb c "{").
    + replace (Z.of_nat level + 1)%Z with (Z.of_nat (S level)) by lia. apply IH.
    + destruct (byte_eqb c "}"); [|apply IH].
      destruct level as [|l].
      * rewrite bool_decide_eq_false_2 by lia.
        rewrite bool_decide_eq_true_2 by lia.
        split; [intros [r Hr]; discriminate | discriminate].
      * replace (Z.of_nat (S l) - 1)%Z with (Z.of_nat l) by lia.
        case_bool_decide as E0; [apply IH|].
        rewrite bool_decide_eq_false_2 by lia. apply IH.
Qed.

(** The loop of [braceIndices] has one error. *)
Lemma braceIndices_go_error whole s : forall i level idx idxs e,
  braceIndices_go whole s i level idx idxs = inl e ->
  e = Errorf "mux: unbalanced braces in %q" [whole].
Proof.
  induction s as [|c s IH]; intros i level idx idxs e; cbn [braceIndices_go].
  - case_bool_decide; congruence.
  - destruct (byte_eqb c "{"); [apply IH|].
    destruct (byte_eqb c "}"); [|apply IH].
    case_bool_decide; [apply IH|]. case_bool_decide; [congruence | apply IH].
Qed.

(** [braceIndices] returns indices exactly for the strings whose braces are
    balanced: no closing brace before its opening one, and every opening
    brace closed.  It returns the error of unbalanced braces, with the
    string, for the others. *)
Theorem braceIndices_balanced s :
  ((exists idxs, braceIndices s = inr idxs) <-> balanced s = true)
  /\ (balanced s = false <->
      braceIndices s = inl (Errorf "mux: unbalanced braces in %q" [s])).
Proof.
  pose proof (is_inr_go_iff s s 0 0 0 []) as Hiff.
  change (braceIndices_go s s 0 (Z.of_nat 0) 0 []) with (braceIndices s) in Hiff.
  fold (balanced s) in Hiff. split; [exact Hiff|]. split.
  - intros Hb. destruct (braceIndices s) as [e|idxs] eqn:E.
    + by rewrite (braceIndices_go_error s s 0 0%Z 0 [] e E).
    + assert (balanced s = true) by (apply Hiff; eauto). congruence.
  - intros E. destruct (balanced s) eqn:Hb; [|reflexivity].
    destruct (proj2 Hiff eq_refl) as [idxs Hi]. congruence.
Qed.

(** The braces of [/{a}/{b:[0-9]{2}}] are balanced and it has brace
    indices; those of [/{a}}] are not, and it has the error. *)
Lemma braceIndices_balanced_witness :
  (exists idxs, braceIndices "/{a}/{b:[0-9]{2}}" = inr idxs)
  /\ braceIndices "/{a}}"
     = inl (Errorf "mux: unbalanced braces in %q" [("/{a}}" : str)]).
Proof.
  split.
  - apply (proj2 (proj1 (braceIndices_balanced "/{a}/{b:[0-9]{2}}"))). reflexivity.
  - apply (proj1 (proj2 (braceIndices_balanced "/{a}}"))). reflexivity.
Defined.

Lemma pairs_ok_app s : forall acc lo rest,
  pairs_ok s lo acc -> pairs_ok s (pairs_end lo acc) rest ->
  pairs_ok s lo (acc ++ rest).
Proof.
  intros acc. induction acc as [| a | a b acc IH] using list_pair_ind; intros lo rest Ha Hr.
  - exact Hr.
  - destruct Ha.
  - simpl in *. destruct Ha as (H1 & H2 & H3 & H4 & H5 & H6 & H7 & H8).
    repeat split; try assumption. apply IH; assumption.
Qed.

Lemma pairs_end_app s : forall acc lo a b,
  pairs_ok s lo acc -> pairs_end lo (acc ++ [a; b]) = b.
Proof.
  intros acc. induction acc as [| x | x y acc IH] using list_pair_ind; intros lo a b H.
  - reflexivity.
  - destruct H.
  - simpl in *. apply IH with (lo := y). tauto.
Qed.

Lemma byte_eqb_eq a b : byte_eqb a b = true -> a = b.
Proof. apply Ascii.eqb_eq. Qed.

Lemma between_nil (s : str) a : between s a a = [].
Proof. unfold between. by rewrite Nat.sub_diag. Qed.

Lemma between_snoc (s : str) a n c :
  a <= n -> s !! n = Some c -> between s a (S n) = between s a n ++ [c].
Proof.
  intros Ha Hc. unfold between. replace (S n - a) with (S (n - a)) by lia.
  apply take_S_r. rewrite lookup_drop. by replace (a + (n - a)) with n by lia.
Qed.

Lemma between_end (s : str) a : between s a (length s) = drop a s.
Proof. unfold between. apply take_ge. rewrite length_drop. lia. Qed.

Lemma no_brace_snoc (t : str) c :
  forallb no_brace t = true -> byte_eqb c "{" = false -> byte_eqb c "}" = false ->
  forallb no_brace (t ++ [c]) = true.
Proof.
  intros Ht H1 H2. rewrite forallb_app, Ht. unfold no_brace. cbn. by rewrite H1, H2.
Qed.

(** The loop of [braceIndices] keeps what it has read in pairs. *)
Lemma braceIndices_go_shape whole : forall s pre level idx idxs r,
  whole = pre ++ s ->
  pairs_ok whole 0 idxs ->
  scanned whole (length pre) level idx idxs ->
  braceIndices_go whole s (length pre) (Z.of_nat level) idx idxs = inr r ->
  pairs_ok whole 0 r
  /\ forallb no_brace (drop (pairs_end 0 r) whole) = true.
Proof.
  induction s as [|c s IH]; intros pre level idx idxs r Hw Hok Hsc H.
  - cbn [braceIndices_go] in H. case_bool_decide as E; [discriminate|].
    injection H as <-. split; [exact Hok|].
    destruct level as [|l]; [|lia]. destruct Hsc as [_ Hsc].
    rewrite app_nil_r in Hw. subst pre. by rewrite between_end in Hsc.
  - assert (Hpre : whole = (pre ++ [c]) ++ s) by (rewrite <- app_assoc; exact Hw).
    assert (Hlen : length (pre ++ [c]) = S (length pre))
      by (rewrite length_app; simpl; lia).
    assert (Hc : whole !! length pre = Some c).
    { rewrite Hw. rewrite lookup_app_r by lia. rewrite Nat.sub_diag. reflexivity. }
    cbn [braceIndices_go] in H. rewrite <- Hlen in H.
    destruct (byte_eqb c "{") eqn:Eo.
    { apply byte_eqb_eq in Eo as ->.
      replace (Z.of_nat level + 1)%Z with (Z.of_nat (S level)) in H by lia.
      apply IH in H; try assumption.
      rewrite Hlen. destruct level as [|l].
      - rewrite bool_decide_eq_true_2 by lia. destruct Hsc as [H1 H2].
        cbn [scanned]. repeat split; try assumption; try lia.
        intros u. by rewrite between_nil.
      - rewrite bool_decide_eq_false_2 by lia.
        destruct Hsc as (H1 & H2 & H3 & H4 & H5).
        cbn [scanned]. repeat split; try assumption; try lia.
        intros u. rewrite (between_snoc whole _ _ "{"%char) by (done || lia).
        rewrite <- app_assoc. rewrite H5. reflexivity. }
    destruct (byte_eqb c "}") eqn:Ec.
    { apply byte_eqb_eq in Ec as ->.
      destruct level as [|[|l]].
      - rewrite bool_decide_eq_false_2 in H by lia.
        rewrite bool_decide_eq_true_2 in H by lia. discriminate.
      - rewrite bool_decide_eq_true_2 in H by lia.
        destruct Hsc as (H1 & H2 & H3 & H4 & H5).
        change (Z.of_nat 1 - 1)%Z with (Z.of_nat 0) in H.
        apply IH in H; try assumption.
        + apply pairs_ok_app; [exact Hok|]. simpl.
          replace (length pre + 1 - 1) with (length pre) by lia.
          repeat split; try assumption; try lia.
          * apply lookup_lt_Some in Hc. lia.
          * specialize (H5 []). rewrite app_nil_r in H5. exact H5.
        + cbn [scanned]. rewrite (pairs_end_app whole) by exact Hok.
          rewrite Hlen. split; [lia|].
          replace (length pre + 1) with (S (length pre)) by lia.
          by rewrite between_nil.
      - rewrite bool_decide_eq_false_2 in H by lia.
        rewrite bool_decide_eq_false_2 in H by lia.
        replace (Z.of_nat (S (S l)) - 1)%Z with (Z.of_nat (S l)) in H by lia.
        destruct Hsc as (H1 & H2 & H3 & H4 & H5).
        apply IH in H; try assumption.
        rewrite Hlen. cbn [scanned]. repeat split; try assumption; try lia.
        intros u. rewrite (between_snoc whole _ _ "}"%char) by (done || lia).
        rewrite <- app_assoc. rewrite H5. reflexivity. }
    apply IH in H; try assumption.
    rewrite Hlen. destruct level as [|l].
    + destruct Hsc as [H1 H2]. cbn [scanned]. split; [lia|].
      rewrite (between_snoc whole _ _ c) by done. by apply no_brace_snoc.
    + destruct Hsc as (H1 & H2 & H3 & H4 & H5).
      cbn [scanned]. repeat split; try assumption; try lia.
      intros u. rewrite (between_snoc whole _ _ c) by (done || lia).
      rewrite <- app_assoc. rewrite H5. cbn [app balanced_from].
      by rewrite Eo, Ec.
Qed.

Lemma pairs_ok_in_bounds s : forall idxs lo,
  pairs_ok s lo idxs -> in_bounds (length s) lo idxs.
Proof.
  intros idxs. induction idxs as [| x | a b idxs IH] using list_pair_ind;
    intros lo H; simpl in *; try tauto.
  destruct H as (H1 & H2 & H3 & _ & _ & _ & _ & H6). auto.
Qed.

Lemma braceIndices_pairs_ok s idxs :
  braceIndices s = inr idxs ->
  pairs_ok s 0 idxs /\ forallb no_brace (drop (pairs_end 0 idxs) s) = true.
Proof.
  intros H. apply (braceIndices_go_shape s s [] 0 0 [] idxs); try done.
Qed.

(** After a string whose braces are balanced, the level is what it was. *)
Lemma balanced_from_app (t u : str) : forall k j,
  balanced_from k t = true -> balanced_from (k + j) (t ++ u) = balanced_from j u.
Proof.
  induction t as [|c t IH]; intros k j H; cbn [balanced_from app] in *.
  - apply Nat.eqb_eq in H. by subst k.
  - destruct (byte_eqb c "{"); [by apply (IH (S k))|].
    destruct (byte_eqb c "}"); [|by apply IH].
    destruct k as [|k']; [discriminate|]. by apply IH.
Qed.

Lemma between_split (s : str) a b c :
  a <= b -> b <= c -> between s a c = between s a b ++ between s b c.
Proof.
  intros H1 H2. unfold between.
  replace (c - a) with ((b - a) + (c - b)) by lia.
  rewrite <- take_take_drop. f_equal. rewrite drop_drop.
  by replace (a + (b - a)) with b by lia.
Qed.

Lemma between_cons (s : str) b c x :
  b < c -> s !! b = Some x -> between s b c = x :: between s (S b) c.
Proof.
  intros H1 H2. unfold between. replace (c - b) with (S (c - S b)) by lia.
  rewrite (drop_S _ _ _ H2). reflexivity.
Qed.

Lemma no_brace_between (s : str) lo a x c :
  forallb no_brace (between s lo a) = true -> lo <= x -> x < a ->
  s !! x = Some c -> no_brace c = true.
Proof.
  intros H H1 H2 Hc. rewrite (between_split s lo x a) in H by lia.
  rewrite (between_cons s x a c) in H by done.
  rewrite forallb_app in H. apply andb_true_iff in H as [_ H].
  cbn in H. by apply andb_true_iff in H as [H _].
Qed.

Lemma no_brace_drop (s : str) lo x c :
  forallb no_brace (drop lo s) = true -> lo <= x ->
  s !! x = Some c -> no_brace c = true.
Proof.
  intros H H1 Hc. rewrite <- between_end in H.
  apply (no_brace_between s lo (length s) x c); try done.
  by apply lookup_lt_Some in Hc.
Qed.

(** A string has one list of pairs of the first level that leaves no
    brace after it. *)
Lemma pairs_ok_unique (s : str) : forall l1 l2 lo,
  pairs_ok s lo l1 -> forallb no_brace (drop (pairs_end lo l1) s) = true ->
  pairs_ok s lo l2 -> forallb no_brace (drop (pairs_end lo l2) s) = true ->
  l1 = l2.
Proof.
  intros l1. induction l1 as [| x | a1 b1 l1 IH] using list_pair_ind;
    intros l2 lo H1 T1 H2 T2.
  - destruct l2 as [|a2 [|b2 l2]]; [reflexivity | destruct H2 |].
    cbn in H2, T1. destruct H2 as (Ha & _ & _ & Ho & _).
    by pose proof (no_brace_drop s lo a2 _ T1 Ha Ho).
  - destruct H1.
  - destruct l2 as [|a2 [|b2 l2]]; [| destruct H2 |].
    { cbn in H1, T2. destruct H1 as (Ha & _ & _ & Ho & _).
      by pose proof (no_brace_drop s lo a1 _ T2 Ha Ho). }
    cbn [pairs_ok pairs_end] in *.
    destruct H1 as (Ha1 & Hb1 & Hl1 & Ho1 & Hc1 & Hg1 & Hi1 & H1).
    destruct H2 as (Ha2 & Hb2 & Hl2 & Ho2 & Hc2 & Hg2 & Hi2 & H2).
    assert (a1 = a2) as <-.
    { destruct (lt_eq_lt_dec a1 a2) as [[Hlt|]|Hlt]; [|done|].
      - by pose proof (no_brace_between s lo a2 a1 _ Hg2 Ha1 Hlt Ho1).
      - by pose proof (no_brace_between s lo a1 a2 _ Hg1 Ha2 Hlt Ho2). }
    assert (Hcross : forall b b', s !! (b - 1) = Some "}"%char -> a1 + 2 <= b -> b < b' ->
              balanced (between s (S a1) (b - 1)) = true ->
              balanced (between s (S a1) (b' - 1)) = true -> False).
    { intros b b' Hc Hb Hlt Hi Hi'.
      rewrite (between_split s (S a1) (b - 1) (b' - 1)) in Hi' by lia.
      rewrite (between_cons s (b - 1) (b' - 1) _) in Hi' by (done || lia).
      unfold balanced in Hi, Hi'.
      rewrite (balanced_from_app _ _ 0 0 Hi) in Hi'. discriminate. }
    assert (b1 = b2) as <-.
    { destruct (lt_eq_lt_dec b1 b2) as [[Hlt|]|Hlt]; [|done|]; exfalso; eauto. }
    f_equal. f_equal. by apply (IH l2 b1).
Qed.

(** The indices that [braceIndices] returns come in pairs that follow each
    other, within the string: the position of an opening brace of the
    first level, and the position after the brace that closes it.  The
    string has no brace before the first pair, between two pairs and after
    the last pair, and between the braces of a pair its braces are
    balanced.  No other list of indices is so. *)
Theorem braceIndices_shape (s : str) (idxs : list nat) :
  braceIndices s = inr idxs ->
  pairs_ok s 0 idxs /\ in_bounds (length s) 0 idxs
  /\ forallb no_brace (drop (pairs_end 0 idxs) s) = true
  /\ forall idxs',
       pairs_ok s 0 idxs' ->
       forallb no_brace (drop (pairs_end 0 idxs') s) = true ->
       idxs' = idxs.
Proof.
  intros [H Ht]%braceIndices_pairs_ok.
  split; [exact H|]. split; [by apply pairs_ok_in_bounds|]. split; [exact Ht|].
  intros idxs' H' Ht'. by apply (pairs_ok_unique s idxs' idxs 0).
Qed.

(** The pairs of [/{a}/{b:[0-9]{2}}]: the braces of [{2}] are inside the
    second pair. *)
Lemma braceIndices_shape_witness :
  braceIndices "/{a}/{b:[0-9]{2}}" = inr [1; 4; 5; 17]
  /\ pairs_ok "/{a}/{b:[0-9]{2}}" 0 [1; 4; 5; 17]
  /\ in_bounds 17 0 [1; 4; 5; 17]
  /\ forallb no_brace (drop 17 ("/{a}/{b:[0-9]{2}}" : str)) = true
  /\ forall idxs',
       pairs_ok "/{a}/{b:[0-9]{2}}" 0 idxs' ->
       forallb no_brace (drop (pairs_end 0 idxs') ("/{a}/{b:[0-9]{2}}" : str)) = true ->
       idxs' = [1; 4; 5; 17].
Proof.
  split; [reflexivity|].
  apply (braceIndices_shape "/{a}/{b:[0-9]{2}}" [1; 4; 5; 17]). reflexivity.
Defined.

(** ** The panics of [newRouteRegexp] *)

Lemma pairs_ok_in_bounds_strip s : forall idxs lo,
  HasSuffix_slash s = true ->
  pairs_ok s lo idxs -> in_bounds (length s - 1) lo idxs.
Proof.
  intros idxs. induction idxs as [| x | a b idxs IH] using list_pair_ind;
    intros lo Hs H; simpl in *; try tauto.
  destruct H as (H1 & H2 & H3 & _ & H5 & _ & _ & H6).
  repeat split; auto.
  unfold HasSuffix_slash in Hs. rewrite last_lookup in Hs.
  destruct (s !! pred (length s)) as [c|] eqn:E; [|discriminate].
  apply byte_eqb_eq in Hs. subst c.
  destruct (decide (b - 1 = pred (length s))) as [Heq|]; [|lia].
  rewrite Heq in H5. congruence.
Qed.

Lemma slice_or_panic_ok s (a b : nat) :
  a <= b -> b <= length s ->
  exists r, slice_or_panic s (Z.of_nat a) (Z.of_nat b) = Ret r.
Proof.
  intros H1 H2. unfold slice_or_panic, slice.
  destruct (_ && _)%bool eqn:E; [eauto|].
  exfalso. apply not_true_iff_false in E. apply E.
  rewrite !andb_true_iff. repeat split; apply Z.leb_le; lia.
Qed.

Lemma Compile_no_panic p msg : Regexp.Compile p <> Panic msg.
Proof.
  unfold Regexp.Compile. destruct (Regexp.parse p) as [[r n]|[]]; discriminate.
Qed.

Lemma compileVars_outcome tpl dp : forall idxs k b,
  in_bounds (length tpl) (c_end b) idxs -> c_end b <= length tpl ->
  match compileVars tpl dp idxs k b with
  | Panic _ => False
  | Ret b' => c_end b' <= length tpl
  | _ => True
  end.
Proof.
  intros idxs. induction idxs as [| x | i0 i1 idxs IH] using list_pair_ind;
    intros k b Hb Hend.
  - exact Hend.
  - destruct Hb.
  - simpl in Hb. destruct Hb as (H1 & H2 & H3 & H4).
    cbn [compileVars].
    destruct (slice_or_panic_ok tpl (c_end b) i0) as [raw ->]; [lia..|].
    cbn [obind].
    replace (Z.of_nat i0 + 1)%Z with (Z.of_nat (i0 + 1)) by lia.
    replace (Z.of_nat i1 - 1)%Z with (Z.of_nat (i1 - 1)) by lia.
    destruct (slice_or_panic_ok tpl (i0 + 1) (i1 - 1)) as [inner ->]; [lia..|].
    cbn [obind].
    destruct (_ || _).
    { destruct (slice_or_panic_ok tpl i0 i1) as [bad ->]; [lia..|]. exact I. }
    destruct (Regexp.Compile _) as [vr| | | |] eqn:E; cbn [obind]; try exact I.
    + apply IH; cbn [c_end]; [exact H4 | lia].
    + exact (Compile_no_panic _ _ E).
Qed.

Lemma assemble_panics tpl typ opts msg :
  assemble tpl typ opts = Panic msg ->
  typ = regexpTypeQuery /\ IndexByte tpl "=" = None.
Proof.
  unfold assemble. intros H.
  destruct (braceIndices tpl) as [e|idxs] eqn:Eb; [discriminate|].
  apply braceIndices_pairs_ok in Eb as [Eb _].
  set (o := if bool_decide (typ <> regexpTypePath) then _ else opts) in *.
  set (strip := o_strictSlash o && HasSuffix_slash tpl) in *.
  set (t := if strip then take (length tpl - 1) tpl else tpl) in *.
  assert (Hb : in_bounds (length t) 0 idxs).
  { subst t. destruct strip eqn:Es.
    - rewrite length_take. replace (_ `min` _) with (length tpl - 1) by lia.
      apply pairs_ok_in_bounds_strip; [|exact Eb].
      unfold strip in Es. apply andb_true_iff in Es. tauto.
    - apply pairs_ok_in_bounds. exact Eb. }
  pose proof (compileVars_outcome t
    (if bool_decide (typ = regexpTypeQuery) then ".*" : str
     else if bool_decide (typ = regexpTypeHost) then "[^.]+" : str else "[^/]+" : str)
    idxs 0 (mkCompiled "^" [] [] [] 0) Hb (Nat.le_0_l _)) as Hc.
  destruct (compileVars _ _ _ _ _) as [b| | | |]; cbn [obind] in H; try discriminate;
    [|destruct Hc].
  destruct (slice_or_panic_ok t (c_end b) (length t)) as [raw Hr]; [lia..|].
  rewrite Hr in H. cbn [obind] in H.
  case_bool_decide as Eq.
  - split; [exact Eq|]. unfold SplitN2 in H.
    destruct (IndexByte tpl "=") as [i|]; [|reflexivity].
    simpl in H. discriminate.
  - simpl in H. discriminate.
Qed.

(** The panics of [newRouteRegexp].  The slices that it takes of the
    template at the brace indices are within bounds.  It panics in two
    cases only: for kind Query on a template without [=], and when the
    compiled pattern has a number of capture groups that differs from the
    number of variables. *)
Theorem newRouteRegexp_panics tpl typ opts msg :
  newRouteRegexp tpl typ opts = Panic msg ->
  (typ = regexpTypeQuery /\ ContainsByte tpl "=" = false) \/
  (exists a reg, assemble tpl typ opts = Ret a /\
     Regexp.Compile (a_pattern a) = Ret reg /\
     Regexp.NumSubexp reg <> length (a_varsN a)).
Proof.
  unfold newRouteRegexp. intros H.
  destruct (assemble tpl typ opts) as [a| | | |] eqn:Ea; cbn [obind] in H;
    try discriminate.
  - right. destruct (Regexp.Compile (a_pattern a)) as [reg| | | |] eqn:Ec;
      cbn [obind] in H; try discriminate.
    + case_bool_decide as En; [|discriminate].
      exists a, reg. repeat split; try assumption.
      pose proof (assemble_nvars _ _ _ _ Ea). congruence.
    + exfalso. injection H as <-. exact (Compile_no_panic _ _ Ec).
  - left. injection H as <-. apply assemble_panics in Ea as [-> Hi].
    split; [reflexivity|]. unfold ContainsByte. rewrite Hi.
    apply bool_decide_eq_false_2. intros [x Hx]. discriminate.
Qed.

(** The query template [page], without [=], makes [newRouteRegexp] panic. *)
Lemma newRouteRegexp_panics_witness :
  (regexpTypeQuery = regexpTypeQuery /\ ContainsByte ("page" : str) "=" = false)
  \/ (exists a reg,
        assemble "page" regexpTypeQuery (mkOptions false false) = Ret a
        /\ Regexp.Compile (a_pattern a) = Ret reg
        /\ Regexp.NumSubexp reg <> length (a_varsN a)).
Proof.
  apply (newRouteRegexp_panics "page" regexpTypeQuery (mkOptions false false)
           "index out of range").
  vm_compute. reflexivity.
Defined.

(** ** C3: strict slash and the trailing slash of a template *)

Lemma Compile_source pattern reg :
  Regexp.Compile pattern = Ret reg -> Regexp.source reg = pattern.
Proof.
  unfold Regexp.Compile. destruct (Regexp.parse pattern) as [[r n]|[]]; try discriminate.
  by intros [= <-].
Qed.

(** The brace indices of a string do not change when a byte that is not a
    brace is added at its end. *)
Lemma braceIndices_go_snoc whole whole' s c :
  byte_eqb c "{" = false -> byte_eqb c "}" = false ->
  forall i level idx idxs r,
    braceIndices_go whole (s ++ [c]) i level idx idxs = inr r ->
    braceIndices_go whole' s i level idx idxs = inr r.
Proof.
  intros Hc1 Hc2. induction s as [|x s IH]; intros i level idx idxs r H; simpl in *.
  - rewrite Hc1, Hc2 in H. simpl in H. by destruct (bool_decide (level <> 0%Z)).
  - destruct (byte_eqb x "{"); [by apply IH|].
    destruct (byte_eqb x "}"); [|by apply IH].
    destruct (bool_decide (level - 1 = 0)%Z); [by apply IH|].
    destruct (bool_decide (level - 1 < 0)%Z); [done|by apply IH].
Qed.

(** The slices that the loop of [newRouteRegexp] takes of a template are
    those of the template with bytes added after it, when the brace indices
    are within the template. *)
Lemma slice_app_l (t x : str) (a b : Z) :
  (b <= Z.of_nat (length t))%Z -> slice (t ++ x) a b = slice t a b.
Proof.
  intros Hb. unfold slice. rewrite length_app.
  destruct (0 <=? a)%Z eqn:E0; [|reflexivity].
  destruct (a <=? b)%Z eqn:E1; [|reflexivity].
  apply Z.leb_le in E0, E1. cbn [andb].
  rewrite (proj2 (Z.leb_le b (Z.of_nat (length t))) Hb).
  rewrite (proj2 (Z.leb_le b (Z.of_nat (length t + length x)))) by lia.
  f_equal. rewrite drop_app_le by lia. apply take_app_le.
  rewrite length_drop. lia.
Qed.

Lemma compileVars_app (t x dp : str) : forall idxs k b,
  in_bounds (length t) (c_end b) idxs ->
  compileVars (t ++ x) dp idxs k b = compileVars t dp idxs k b.
Proof.
  intros idxs. induction idxs as [| i | i0 i1 idxs IH] using list_pair_ind;
    intros k b Hb; [reflexivity | destruct Hb |].
  simpl in Hb. destruct Hb as (H1 & H2 & H3 & H4).
  cbn [compileVars]. unfold slice_or_panic.
  rewrite !slice_app_l by lia.
  destruct (slice t _ _) as [raw|]; [|reflexivity]. cbn [obind].
  destruct (slice t _ _) as [inner|]; [|reflexivity]. cbn [obind].
  destruct (_ || _); [reflexivity|].
  destruct (Regexp.Compile _); cbn [obind]; try reflexivity.
  apply IH. exact H4.
Qed.

Lemma slice_to_end_snoc (t : str) (c : ascii) (e : nat) (raw : str) :
  slice t (Z.of_nat e) (Z.of_nat (length t)) = Some raw ->
  slice (t ++ [c]) (Z.of_nat e) (Z.of_nat (length (t ++ [c]))) = Some (raw ++ [c]).
Proof.
  unfold slice. rewrite length_app. cbn [length].
  destruct (_ && _)%bool eqn:E; [|discriminate]. intros [= <-].
  apply andb_true_iff in E as [E E2]. apply andb_true_iff in E as [E0 E1].
  apply Z.leb_le in E0, E1, E2.
  rewrite (proj2 (Z.leb_le 0 _) E0). cbn [andb].
  rewrite (proj2 (Z.leb_le (Z.of_nat e) (Z.of_nat (length t + 1)))) by lia.
  rewrite (proj2 (Z.leb_le (Z.of_nat (length t + 1)) (Z.of_nat (length t + 1)))) by lia.
  cbn [andb]. f_equal. rewrite !Nat2Z.id.
  rewrite drop_app_le by lia.
  rewrite !take_ge by (rewrite ?length_app, !length_drop; simpl; lia). done.
Qed.

Lemma QuoteMeta_snoc_slash (raw : str) :
  Regexp.QuoteMeta (raw ++ ["/"%char]) = Regexp.QuoteMeta raw ++ ["/"%char].
Proof. unfold Regexp.QuoteMeta. rewrite flat_map_app. reflexivity. Qed.

Lemma IndexByte_snoc (t : str) (c x : ascii) :
  byte_eqb x c = false ->
  IndexByte (t ++ [x]) c = IndexByte t c.
Proof.
  intros Hx. induction t as [|y t IH]; simpl; [by rewrite Hx|].
  destruct (byte_eqb y c); [reflexivity|]. by rewrite IH.
Qed.

Lemma IndexByte_lt (t : str) (c : ascii) i : IndexByte t c = Some i -> i < length t.
Proof.
  revert i. induction t as [|y t IH]; intros i; simpl; [discriminate|].
  destruct (byte_eqb y c); [intros [= <-]; lia|].
  destruct (IndexByte t c) as [j|]; [|discriminate]. intros [= <-].
  specialize (IH j eq_refl). lia.
Qed.

(** C3, as the code has it.  A template that ends in a slash is compiled
    with strict slash.  For kind Path, the slash is stripped before the
    pattern is built, which gets the optional slash [[/]?] at its end, and
    the slash is added again at the end of the reverse template.  For the
    kinds Prefix, Host and Query the strict slash option is cleared first:
    the descriptor is the one of the template compiled without the option
    and has it off, and the slash stays in the pattern, as a slash at its
    end, and in the reverse template. *)
Theorem C3_strict_slash_path_only (typ : regexpType) (t : str)
    (opts : routeRegexpOptions) (rr : routeRegexp) :
  o_strictSlash opts = true ->
  newRouteRegexp (t ++ ("/" : str)) typ opts = Ret rr ->
  if bool_decide (typ = regexpTypePath) then slash_stripped typ t opts rr
  else slash_kept typ t opts rr
       /\ newRouteRegexp (t ++ ("/" : str)) typ (mkOptions false (o_useEncodedPath opts))
          = Ret rr.
Proof.
  intros Hs H.
  case_bool_decide as Ety.
  { subst typ. unfold newRouteRegexp in H.
    apply obind_Ret in H as (a & Ha & H).
    apply obind_Ret in H as (reg & Hreg & H).
    destruct (bool_decide _); [discriminate|]. injection H as <-.
    apply Compile_source in Hreg. unfold slash_stripped. simpl. rewrite Hreg.
    clear Hreg reg.
    change (list_ascii_of_string "/") with ["/"%char] in *.
    unfold assemble in *. unfold braceIndices in *.
    destruct (braceIndices_go _ (t ++ ["/"%char]) 0 0%Z 0 []) as [e|idxs] eqn:Hb;
      [discriminate|].
    rewrite (braceIndices_go_snoc _ t t "/"%char eq_refl eq_refl _ _ _ _ _ Hb).
    decide_kinds. cbv iota in Ha |- *. cbn [o_strictSlash o_useEncodedPath andb] in *.
    rewrite Hs in Ha. cbn [andb] in Ha.
    assert (Hsuf : HasSuffix_slash (t ++ ["/"%char]) = true).
    { unfold HasSuffix_slash. by rewrite last_snoc. }
    rewrite Hsuf in Ha.
    replace (take (length (t ++ ["/"%char]) - 1) (t ++ ["/"%char])) with t in Ha.
    2:{ rewrite length_app. simpl. rewrite Nat.add_sub, take_app_length. done. }
    apply obind_Ret in Ha as (b & Hcv & Ha). rewrite Hcv. simpl.
    apply obind_Ret in Ha as (raw & Hraw & Ha). rewrite Hraw. simpl.
    injection Ha as <-. simpl.
    eexists _, (c_pattern b ++ Regexp.QuoteMeta raw). split; [reflexivity|].
    simpl. rewrite <- !(assoc_L (++)). done. }
  split; [|destruct typ; try done].
  unfold newRouteRegexp in H.
  apply obind_Ret in H as (a & Ha & H).
  apply obind_Ret in H as (reg & Hreg & H).
  destruct (bool_decide _); [discriminate|]. injection H as <-.
  apply Compile_source in Hreg. unfold slash_kept.
  cbn [options regexp reverse]. rewrite Hreg. clear Hreg reg.
  change (list_ascii_of_string "/") with ["/"%char] in *.
  unfold assemble in Ha.
  destruct (braceIndices (t ++ ["/"%char])) as [e|idxs] eqn:Hb; [discriminate|].
  assert (Hbt : braceIndices t = inr idxs).
  { exact (braceIndices_go_snoc _ t t "/"%char eq_refl eq_refl _ _ _ _ _ Hb). }
  apply braceIndices_pairs_ok in Hb as [Hb _].
  apply pairs_ok_in_bounds_strip in Hb;
    [|unfold HasSuffix_slash; by rewrite last_snoc].
  rewrite length_app in Hb. cbn [length] in Hb. rewrite Nat.add_sub in Hb.
  rewrite (bool_decide_eq_true_2 (typ <> regexpTypePath)) in Ha by done.
  cbn [o_strictSlash o_useEncodedPath andb] in Ha.
  rewrite compileVars_app in Ha by exact Hb.
  apply obind_Ret in Ha as (b & Hcv & Ha).
  apply obind_Ret in Ha as (raw' & Hraw & Ha).
  match type of Hcv with
  | compileVars ?t0 ?dp ?i ?k ?b0 = _ =>
      pose proof (compileVars_outcome t0 dp i k b0 Hb (Nat.le_0_l _)) as Hend
  end.
  rewrite Hcv in Hend.
  destruct (slice_or_panic_ok t (c_end b) (length t)) as [raw Hr]; [lia..|].
  assert (raw' = raw ++ ["/"%char]) as ->.
  { unfold slice_or_panic in Hraw, Hr.
    destruct (slice t _ _) as [x|] eqn:E; [|discriminate]. injection Hr as ->.
    rewrite (slice_to_end_snoc _ _ _ _ E) in Hraw. by injection Hraw. }
  rewrite QuoteMeta_snoc_slash in Ha.
  unfold assemble. rewrite Hbt.
  rewrite (bool_decide_eq_true_2 (typ <> regexpTypePath)) by done.
  cbn [o_strictSlash o_useEncodedPath andb].
  rewrite Hcv. cbn [obind]. rewrite Hr. cbn [obind].
  destruct typ; [done| | |]; decide_kinds;
    repeat match goal with
         | H : context [@bool_decide ?P ?d] |- _ =>
             match P with
             | context [regexpTypeQuery] => idtac
             | context [regexpTypeHost] => idtac
             end;
             let b := eval vm_compute in (@bool_decide P d) in
             change (@bool_decide P d) with b in H
         | |- context [@bool_decide ?P ?d] =>
             match P with
             | context [regexpTypeQuery] => idtac
             | context [regexpTypeHost] => idtac
             end;
             let b := eval vm_compute in (@bool_decide P d) in
             change (@bool_decide P d) with b
         end; cbv iota in Ha |- *; cbn [obind andb] in Ha |- *.
  - injection Ha as <-. cbn [a_options o_strictSlash a_pattern a_reverse].
    split; [reflexivity|]. eexists _, (c_pattern b ++ Regexp.QuoteMeta raw).
    split; [reflexivity|]. cbn [a_pattern a_reverse].
    rewrite <- !(assoc_L (++)). done.
  - injection Ha as <-. cbn [a_options o_strictSlash a_pattern a_reverse].
    split; [reflexivity|]. eexists _, (c_pattern b ++ Regexp.QuoteMeta raw).
    split; [reflexivity|]. cbn [a_pattern a_reverse].
    rewrite <- !(assoc_L (++)). rewrite app_nil_r. done.
  - unfold SplitN2 in Ha |- *.
    rewrite (IndexByte_snoc t "=" "/" eq_refl) in Ha.
    destruct (IndexByte t "=") as [i|] eqn:Ei; [|discriminate].
    pose proof (IndexByte_lt _ _ _ Ei) as Hi.
    cbn [lookup list_lookup] in Ha |- *.
    rewrite drop_app_le in Ha by lia.
    rewrite (bool_decide_eq_false_2 (drop (S i) t ++ ["/"%char] = [])) in Ha
      by (by destruct (drop (S i) t)).
    cbn [obind] in Ha. injection Ha as <-.
    cbn [a_options o_strictSlash a_pattern a_reverse].
    split; [reflexivity|]. eexists _, (c_pattern b ++ Regexp.QuoteMeta raw).
    split; [reflexivity|]. cbn [obind a_pattern a_reverse].
    split; [|split; by rewrite <- !(assoc_L (++))].
    destruct (drop (S i) t) as [|x d].
    + rewrite !bool_decide_eq_true_2 by done. by rewrite <- !(assoc_L (++)).
    + rewrite !bool_decide_eq_false_2 by done. by rewrite <- !(assoc_L (++)).
Qed.

(** The template [/products/] with strict slash: for kind Path the pattern
    is [^/products[/]?$], and for kind Prefix it is [^/products/]; the
    reverse template is [/products/] for both. *)
Lemma C3_strict_slash_path_only_witness :
  (newRouteRegexp "/products/" regexpTypePath (mkOptions true false)
   = Ret (path_regexp [] "/products/" (mkOptions true false))
   /\ Regexp.source (regexp (path_regexp [] "/products/" (mkOptions true false)))
      = ("^/products[/]?$" : str)
   /\ slash_stripped regexpTypePath "/products" (mkOptions true false)
        (path_regexp [] "/products/" (mkOptions true false)))
  /\ (newRouteRegexp "/products/" regexpTypePrefix (mkOptions true false)
      = Ret (prefix_regexp "/products/" (mkOptions true false))
      /\ Regexp.source (regexp (prefix_regexp "/products/" (mkOptions true false)))
         = ("^/products/" : str)
      /\ slash_kept regexpTypePrefix "/products" (mkOptions true false)
           (prefix_regexp "/products/" (mkOptions true false))
      /\ newRouteRegexp "/products/" regexpTypePrefix (mkOptions false false)
         = Ret (prefix_regexp "/products/" (mkOptions true false))).
Proof.
  split.
  - split; [vm_compute; reflexivity|]. split; [vm_compute; reflexivity|].
    apply (C3_strict_slash_path_only regexpTypePath "/products" (mkOptions true false));
      [reflexivity | vm_compute; reflexivity].
  - split; [vm_compute; reflexivity|]. split; [vm_compute; reflexivity|].
    apply (C3_strict_slash_path_only regexpTypePrefix "/products"
             (mkOptions true false));
      [reflexivity | vm_compute; reflexivity].
Defined.

(** C3 as the specification states it does not hold for kind Prefix: with
    strict slash, the template [/a/] compiles to the pattern [^/a/], slash
    included, which does not match [/a]; the descriptor is not that of [/a]
    with the slash stripped. *)
Lemma C3_counterexample :
  exists rr,
    newRouteRegexp "/a/" regexpTypePrefix (mkOptions true false) = Ret rr
    /\ Regexp.source (regexp rr) = ("^/a/" : str)
    /\ Regexp.MatchString (regexp rr) "/a" = false
    /\ ~ slash_stripped regexpTypePrefix "/a" (mkOptions true false) rr.
Proof.
  eexists. split; [vm_compute; reflexivity|].
  split; [reflexivity|]. split; [vm_compute; reflexivity|].
  intros (a0 & body & Ha & Hp & Hs & _).
  vm_compute in Ha. injection Ha as <-. simpl in Hp, Hs.
  rewrite app_nil_r in Hp. subst body. vm_compute in Hs. discriminate.
Qed.

(** ** A variable without a name or without a pattern *)

Lemma braceIndices_go_extends whole : forall s i level idx acc r,
  braceIndices_go whole s i level idx acc = inr r -> exists r', r = acc ++ r'.
Proof.
  induction s as [|c s IH]; intros i level idx acc r H; cbn [braceIndices_go] in H.
  - case_bool_decide; [discriminate|]. injection H as <-. exists []. by rewrite app_nil_r.
  - destruct (byte_eqb c "{"); [by eapply IH|].
    destruct (byte_eqb c "}"); [|by eapply IH].
    case_bool_decide.
    + apply IH in H as [r' ->]. exists ([idx; i + 1] ++ r'). by rewrite app_assoc.
    + case_bool_decide; [discriminate|]. by eapply IH.
Qed.

Lemma braceIndices_first_variable (pre inner post : str) :
  forallb no_brace pre = true -> forallb no_brace inner = true ->
  balanced post = true ->
  exists rest,
    braceIndices (pre ++ "{"%char :: inner ++ "}"%char :: post)
    = inr (length pre :: length pre + length inner + 2 :: rest).
Proof.
  intros Hpre Hin Hpost. unfold braceIndices.
  set (whole := pre ++ "{"%char :: inner ++ "}"%char :: post).
  unfold whole at 2.
  rewrite braceIndices_go_plain by exact Hpre.
  cbn [braceIndices_go byte_eqb Ascii.eqb Bool.eqb]. cbn [Z.add].
  rewrite bool_decide_eq_true_2 by done.
  rewrite braceIndices_go_inside by exact Hin.
  cbn [braceIndices_go byte_eqb Ascii.eqb Bool.eqb]. cbn [Z.sub Z.add Z.opp Z.pos_sub].
  rewrite bool_decide_eq_true_2 by done. cbn [app].
  match goal with
  | |- exists rest, braceIndices_go ?w post ?i ?l ?x ?a = _ =>
      destruct (proj2 (is_inr_go_iff w post i 0 x a) Hpost) as [r Hr];
      change (Z.of_nat 0) with l in Hr
  end.
  rewrite Hr.
  apply braceIndices_go_extends in Hr as [r' ->].
  exists r'. cbn [app]. do 2 f_equal. f_equal. lia.
Qed.

Lemma slice_prefix (pre post : str) :
  slice (pre ++ post) (Z.of_nat 0) (Z.of_nat (length pre)) = Some pre.
Proof. apply (slice_middle [] pre post); simpl; lia. Qed.

Lemma compileVars_first_missing (pre inner post dp : str) (rest : list nat) (k : nat)
    (b : compiled) :
  c_end b = 0 -> dp <> [] -> no_name_or_pattern inner = true ->
  compileVars (pre ++ "{"%char :: inner ++ "}"%char :: post) dp
    (length pre :: length pre + length inner + 2 :: rest) k b
  = Fail (Errorf "mux: missing name or pattern in %q" ["{"%char :: inner ++ ["}"%char]]).
Proof.
  intros Hend Hdp Hno. cbn [compileVars]. rewrite Hend. unfold slice_or_panic.
  rewrite slice_prefix. cbn [obind].
  replace (pre ++ "{"%char :: inner ++ "}"%char :: post)
    with ((pre ++ ["{"%char]) ++ inner ++ "}"%char :: post)
    by (by rewrite <- app_assoc).
  rewrite slice_middle by (rewrite ?length_app; simpl; lia).
  cbn [obind].
  assert (Hcond : bool_decide (default [] (SplitN2 inner ":" !! 0) = [])
                  || bool_decide (match SplitN2 inner ":" !! 1 with
                                  | Some p => p
                                  | None => dp
                                  end = []) = true).
  { unfold no_name_or_pattern, SplitN2 in *.
    destruct (IndexByte inner ":") as [i|]; cbn [lookup list_lookup default].
    - apply orb_prop in Hno as [Hi|Hi]; apply bool_decide_eq_true in Hi.
      + subst i. by rewrite take_0.
      + rewrite drop_ge by lia. rewrite (bool_decide_eq_true_2 ([] = [])) by done.
        apply orb_true_r.
    - apply bool_decide_eq_true in Hno. subst inner. reflexivity. }
  rewrite Hcond.
  replace ((pre ++ ["{"%char]) ++ inner ++ "}"%char :: post)
    with (pre ++ ("{"%char :: inner ++ ["}"%char]) ++ post)
    by (rewrite <- !app_assoc; simpl; by rewrite <- app_assoc).
  rewrite slice_middle; [reflexivity | reflexivity |].
  cbn [length]. rewrite length_app. simpl. lia.
Qed.

(** A template whose first variable has no name or no pattern, [{}],
    [{:p}] or [{n:}], is rejected with the error that quotes the braces. *)
Theorem missing_name_or_pattern (pre inner post : str) (typ : regexpType)
    (opts : routeRegexpOptions) :
  forallb no_brace pre = true -> forallb no_brace inner = true ->
  balanced post = true ->
  no_name_or_pattern inner = true ->
  newRouteRegexp (pre ++ "{"%char :: inner ++ "}"%char :: post) typ opts
  = Fail (Errorf "mux: missing name or pattern in %q" ["{"%char :: inner ++ ["}"%char]]).
Proof.
  intros Hpre Hin Hpost Hno. unfold newRouteRegexp, assemble.
  destruct (braceIndices_first_variable pre inner post Hpre Hin Hpost) as [rest ->].
  set (whole := pre ++ "{"%char :: inner ++ "}"%char :: post).
  set (o := if bool_decide (typ <> regexpTypePath) then _ else opts).
  set (dp := if bool_decide (typ = regexpTypeQuery) then _ else _).
  assert (Hdp : dp <> []).
  { unfold dp. repeat case_bool_decide; discriminate. }
  assert (Ht : exists post',
            (if o_strictSlash o && HasSuffix_slash whole
             then take (length whole - 1) whole else whole)
            = pre ++ "{"%char :: inner ++ "}"%char :: post').
  { destruct (o_strictSlash o && HasSuffix_slash whole) eqn:Es; [|by exists post].
    apply andb_prop in Es as [_ Es].
    destruct post as [|c post0 _] using rev_ind.
    - exfalso. unfold whole in Es.
      replace (pre ++ "{"%char :: inner ++ ["}"%char])
        with ((pre ++ "{"%char :: inner) ++ ["}"%char]) in Es
        by (by rewrite <- app_assoc).
      unfold HasSuffix_slash in Es. rewrite last_snoc in Es. discriminate.
    - exists post0. unfold whole.
      replace (pre ++ "{"%char :: inner ++ "}"%char :: post0 ++ [c])
        with ((pre ++ "{"%char :: inner ++ "}"%char :: post0) ++ [c])
        by (rewrite <- !app_assoc; simpl; by rewrite <- app_assoc).
      rewrite length_app. cbn [length]. rewrite Nat.add_sub.
      by rewrite take_app_length. }
  destruct Ht as [post' ->].
  rewrite compileVars_first_missing by done. reflexivity.
Qed.

Lemma missing_name_or_pattern_witness :
  newRouteRegexp "/a/{id:}/{b}" regexpTypePath (mkOptions true false)
  = Fail (Errorf "mux: missing name or pattern in %q" [("{id:}" : str)]).
Proof.
  apply (missing_name_or_pattern "/a/" "id:" "/{b}" regexpTypePath
           (mkOptions true false)); reflexivity.
Defined.

(** ** The reverse build *)

Lemma newRouteRegexp_lengths tpl typ opts rr :
  newRouteRegexp tpl typ opts = Ret rr ->
  length (varsR rr) = length (varsN rr).
Proof.
  unfold newRouteRegexp. intros H.
  apply obind_Ret in H as (a & Ha & H).
  apply obind_Ret in H as (reg & _ & H).
  destruct (bool_decide _); [discriminate|].
  injection H as <-. cbn [varsR varsN].
  unfold assemble in Ha. destruct (braceIndices tpl) as [e|idxs]; [discriminate|].
  apply obind_Ret in Ha as (b & Hb & Ha).
  apply obind_Ret in Ha as (raw & _ & Ha).
  apply obind_Ret in Ha as (pat & _ & Ha).
  injection Ha as <-. cbn [a_varsR a_varsN].
  apply compileVars_lengths in Hb as [H1 H2]. simpl in H1, H2. lia.
Qed.

Lemma checkVars_outcome (vR : list Regexp.Regexp)
    (values : gmap (list ascii) (list ascii)) : forall names k,
  match checkVars vR k names values with
  | Ret _ =>
      forall i v, names !! i = Some v ->
        exists re, vR !! (k + i) = Some re
          /\ Regexp.MatchString re (default [] (values !! v)) = true
  | Panic _ => exists i, i < length names /\ vR !! (k + i) = None
  | _ => True
  end.
Proof.
  induction names as [|v names IH]; intros k; cbn [checkVars].
  - intros i v Hi. by rewrite lookup_nil in Hi.
  - destruct (vR !! k) as [re|] eqn:Ek.
    + destruct (Regexp.MatchString re _) eqn:Em; cbn [negb]; [|exact I].
      specialize (IH (S k)).
      destruct (checkVars vR (S k) names values); try exact I.
      * intros [|i] w Hi.
        -- injection Hi as <-. exists re. by rewrite Nat.add_0_r.
        -- replace (k + S i) with (S k + i) by lia. by apply IH.
      * destruct IH as (i & Hi & Hn). exists (S i). simpl.
        replace (k + S i) with (S k + i) by lia. split; [lia | done].
    + exists 0. rewrite Nat.add_0_r. simpl. split; [lia | done].
Qed.

Lemma urlValues_inr (typ : regexpType) (values : gmap (list ascii) (list ascii)) : forall names vs,
  urlValues typ names values = inr vs ->
  length vs = length names /\ forall v, v ∈ names -> is_Some (values !! v).
Proof.
  induction names as [|v names IH]; intros vs H; cbn [urlValues] in H.
  - injection H as <-. split; [done|]. intros v Hv. by apply elem_of_nil in Hv.
  - destruct (values !! v) as [x|] eqn:Ev; [|discriminate].
    destruct (urlValues typ names values) as [e|vs'] eqn:E; [discriminate|].
    injection H as <-. destruct (IH vs' eq_refl) as [H1 H2].
    split; [simpl; lia|]. intros w Hw. apply elem_of_cons in Hw as [->|Hw]; eauto.
Qed.

Lemma urlValues_missing (typ : regexpType) (values : gmap (list ascii) (list ascii)) : forall pre v post,
  (forall w, w ∈ pre -> is_Some (values !! w)) ->
  values !! v = None ->
  urlValues typ (pre ++ v :: post) values
  = inl (Errorf "mux: missing route variable %q" [v]).
Proof.
  induction pre as [|w pre IH]; intros v post Hpre Hv; cbn [urlValues app].
  - by rewrite Hv.
  - destruct (Hpre w) as [x ->]; [by left|].
    rewrite IH; [done| |done]. intros u Hu. apply Hpre. by right.
Qed.

(** [routeRegexp.url]: a variable of the descriptor that the map of values
    does not have makes the build fail with the error of a missing route
    variable, for the first such variable in the order of the template. *)
Theorem url_missing_variable (r : routeRegexp)
    (values : gmap (list ascii) (list ascii)) (pre post : list str) (v : str) :
  varsN r = pre ++ v :: post ->
  (forall w, w ∈ pre -> is_Some (values !! w)) ->
  values !! v = None ->
  routeRegexp_url r values = Fail (Errorf "mux: missing route variable %q" [v]).
Proof.
  intros Hn Hpre Hv. unfold routeRegexp_url.
  rewrite Hn, urlValues_missing by done. reflexivity.
Qed.

(** The template [/{a}{b}] with a value for [a] only. *)
Lemma url_missing_variable_witness :
  routeRegexp_url ab_regexp only_a
  = Fail (Errorf "mux: missing route variable %q" [("b" : str)]).
Proof.
  apply (url_missing_variable ab_regexp only_a [("a" : str)] [] "b").
  - reflexivity.
  - intros w Hw. apply list_elem_of_singleton in Hw as ->. vm_compute. eauto.
  - vm_compute. reflexivity.
Defined.

(** [routeRegexp.url] on a descriptor that [newRouteRegexp] returned never
    panics: the validators are as many as the variables. *)
Theorem url_never_panics (tpl : str) (typ : regexpType) (opts : routeRegexpOptions)
    (rr : routeRegexp) (values : gmap (list ascii) (list ascii)) (msg : string) :
  newRouteRegexp tpl typ opts = Ret rr ->
  routeRegexp_url rr values <> Panic msg.
Proof.
  intros Hrr%newRouteRegexp_lengths. unfold routeRegexp_url.
  destruct (urlValues _ _ _) as [e|vs]; [discriminate|].
  destruct (Sprintf _ _) as [rv|]; [|discriminate].
  destruct (negb _); [|discriminate].
  pose proof (checkVars_outcome (varsR rr) values (varsN rr) 0) as Hc.
  destruct (checkVars _ _ _ _); cbn [obind]; try discriminate.
  destruct Hc as (i & Hi & Hnone). apply lookup_ge_None in Hnone. simpl in Hnone. lia.
Qed.

Lemma url_never_panics_witness :
  newRouteRegexp "/{a}{b}" regexpTypePath (mkOptions false false) = Ret ab_regexp
  /\ routeRegexp_url ab_regexp only_a <> Panic "index out of range".
Proof.
  split; [vm_compute; reflexivity|].
  apply (url_never_panics "/{a}{b}" regexpTypePath (mkOptions false false)).
  vm_compute. reflexivity.
Defined.

(** What a URL part that [routeRegexp.url] returns has been checked for:
    every variable of the descriptor has a value, and the part matches the
    compiled pattern or else every value matches the validator of its
    variable. *)
Theorem url_result_checked (r : routeRegexp)
    (values : gmap (list ascii) (list ascii)) (rv : str) :
  routeRegexp_url r values = Ret rv ->
  (forall v, v ∈ varsN r -> is_Some (values !! v))
  /\ (Regexp.MatchString (regexp r) rv = true
      \/ forall i v, varsN r !! i = Some v ->
           exists re, varsR r !! i = Some re
             /\ Regexp.MatchString re (default [] (values !! v)) = true).
Proof.
  unfold routeRegexp_url. intros H.
  destruct (urlValues _ _ _) as [e|vs] eqn:Ev; [discriminate|].
  apply urlValues_inr in Ev as [_ Hall]. split; [exact Hall|].
  destruct (Sprintf _ _) as [rv'|]; [|discriminate].
  destruct (Regexp.MatchString (regexp r) rv') eqn:Em; cbn [negb] in H.
  - injection H as <-. by left.
  - right. pose proof (checkVars_outcome (varsR r) values (varsN r) 0) as Hc.
    destruct (checkVars _ _ _ _); cbn [obind] in H; try discriminate.
    exact Hc.
Qed.

Lemma url_result_checked_witness :
  (forall v, v ∈ varsN ab_regexp -> is_Some (xyz_values !! v))
  /\ (Regexp.MatchString (regexp ab_regexp) "/xyz" = true
      \/ forall i v, varsN ab_regexp !! i = Some v ->
           exists re, varsR ab_regexp !! i = Some re
             /\ Regexp.MatchString re (default [] (xyz_values !! v)) = true).
Proof.
  apply (url_result_checked ab_regexp xyz_values "/xyz"). vm_compute. reflexivity.
Defined.

(** ** The verdict of [Route.Match] *)

Lemma Route_Match_loop_verdict sub req : forall ms e m,
  forallb reads_request_only ms = true ->
  Route_Match_loop sub ms req e m
  = Ret (if other_rejects ms req then inl (clear_NotFound m)
         else inr (if method_rejects ms req then Some ErrMethodMismatch else e, m)).
Proof.
  induction ms as [|x ms IH]; intros e m Hp; [reflexivity|].
  cbn [forallb] in Hp. apply andb_true_iff in Hp as [Hx Hp].
  cbn [Route_Match_loop other_rejects method_rejects existsb].
  destruct x as [a|a|f|rr|id]; try discriminate; cbn [matcher_Match obind accepts is_methodMatcher negb andb orb].
  - destruct (methodMatcher_Match a req); cbn [negb orb].
    + apply IH, Hp.
    + rewrite IH by exact Hp. unfold other_rejects, method_rejects.
      destruct (existsb _ ms); [reflexivity|]. by destruct (existsb _ ms).
  - destruct (schemeMatcher_Match a req); cbn [negb orb]; [apply IH, Hp | reflexivity].
  - destruct (routeRegexp_Match rr req); cbn [negb orb]; [apply IH, Hp | reflexivity].
Qed.

(** [Route.Match] on a route whose matchers read the request only.  The
    order of the matchers does not count: a matcher other than a method
    matcher that rejects the request makes the route fail without a method
    mismatch, whether or not a method matcher has rejected it before; the
    mismatch is recorded when the method matchers alone reject; and the
    route matches in the remaining case. *)
Theorem Route_Match_verdict sub (id : RouteId) (r : Route) (req : Request)
    (m : RouteMatch) :
  buildOnly r = false -> err r = None ->
  forallb reads_request_only (matchers (conf r)) = true ->
  (other_rejects (matchers (conf r)) req = true ->
     Route_Match sub id r req m = Ret (false, clear_NotFound m))
  /\ (other_rejects (matchers (conf r)) req = false ->
      method_rejects (matchers (conf r)) req = true ->
      Route_Match sub id r req m
      = Ret (false, set_MatchErr (Some ErrMethodMismatch) m))
  /\ (other_rejects (matchers (conf r)) req = false ->
      method_rejects (matchers (conf r)) req = false ->
      forall b m', Route_Match sub id r req m = Ret (b, m') -> b = true).
Proof.
  intros Hb He Hp. unfold Route_Match. rewrite Hb, He.
  rewrite bool_decide_eq_false_2 by (intros H; by apply H).
  cbn [orb]. rewrite Route_Match_loop_verdict by exact Hp. cbn [obind].
  repeat split.
  - intros ->. reflexivity.
  - intros -> ->. reflexivity.
  - intros -> -> b m' H. apply obind_Ret in H as (m2 & _ & H). congruence.
Qed.

(** A request with the method [POST] over [http], on a route for [GET] and
    [https]: the scheme matcher rejects it, and no method mismatch is
    recorded. *)
Lemma Route_Match_verdict_witness :
  Route_Match (fun _ _ _ => OutOfFuel) 0 get_https_route (request_for "POST" "/")
    emptyMatch
  = Ret (false, emptyMatch).
Proof.
  apply (proj1 (Route_Match_verdict (fun _ _ _ => OutOfFuel) 0 get_https_route
                  (request_for "POST" "/") emptyMatch eq_refl eq_refl eq_refl)).
  vm_compute. reflexivity.
Defined.

(** ** The result of [Router.Match] *)

Lemma extractVars_is_Some input matches : forall names i o o',
  extractVars input matches names i o = Ret o' -> is_Some o -> is_Some o'.
Proof.
  induction names as [|n names IH]; intros i o o' H Ho; cbn [extractVars] in H.
  - congruence.
  - destruct (matches !! (2 * i + 2)); [|discriminate].
    destruct (matches !! (2 * i + 3)); [|discriminate].
    apply obind_Ret in H as (v & _ & H).
    destruct o as [mp|]; [|discriminate].
    eapply IH; [exact H | done].
Qed.

Lemma extractFrom_keeps rr input m b m' :
  extractFrom rr input m = Ret (b, m') ->
  Route_of m' = Route_of m /\ MatchErr m' = MatchErr m
  /\ (is_Some (Vars m) -> is_Some (Vars m')).
Proof.
  unfold extractFrom. destruct (0 <? _).
  - intros H. apply obind_Ret in H as (vars & Hv & H). injection H as _ <-.
    repeat split; try reflexivity. cbn [Vars set_Vars].
    eapply extractVars_is_Some. exact Hv.
  - intros [= _ <-]. done.
Qed.

Lemma setMatch_queries_keeps req : forall qs m m',
  setMatch_queries qs req m = Ret m' ->
  Route_of m' = Route_of m /\ MatchErr m' = MatchErr m
  /\ (is_Some (Vars m) -> is_Some (Vars m')).
Proof.
  induction qs as [|q qs IH]; intros m m' H; cbn [setMatch_queries] in H.
  - injection H as <-. done.
  - apply obind_Ret in H as ([b m1] & H1 & H).
    apply extractFrom_keeps in H1 as (Ha & Hb & Hc).
    apply IH in H as (Ha' & Hb' & Hc').
    repeat split; [congruence | congruence | auto].
Qed.

Lemma setMatch_keeps v req m r m' :
  setMatch v req m r = Ret m' ->
  Route_of m' = Route_of m /\ MatchErr m' = MatchErr m
  /\ (is_Some (Vars m) -> is_Some (Vars m')).
Proof.
  unfold setMatch. intros H.
  apply obind_Ret in H as (m1 & H1 & H).
  apply obind_Ret in H as (m2 & H2 & H).
  assert (K1 : Route_of m1 = Route_of m /\ MatchErr m1 = MatchErr m
               /\ (is_Some (Vars m) -> is_Some (Vars m1))).
  { destruct (host v) as [h|]; [|injection H1 as <-; done].
    apply obind_Ret in H1 as ([b x] & Hx & H1). injection H1 as <-.
    eapply extractFrom_keeps, Hx. }
  assert (K2 : Route_of m2 = Route_of m1 /\ MatchErr m2 = MatchErr m1
               /\ (is_Some (Vars m1) -> is_Some (Vars m2))).
  { destruct (path v) as [p|]; [|injection H2 as <-; done].
    apply obind_Ret in H2 as ([b x] & Hx & H2).
    apply extractFrom_keeps in Hx.
    destruct (b && _); [|injection H2 as <-; exact Hx].
    case_bool_decide; [|injection H2 as <-; exact Hx].
    apply obind_Ret in H2 as (u & _ & H2). injection H2 as <-. exact Hx. }
  apply setMatch_queries_keeps in H.
  destruct K1 as (?&?&?), K2 as (?&?&?), H as (?&?&?).
  repeat split; [congruence | congruence | auto].
Qed.

(** A successful [Route.Match] leaves the route and the variables of the
    match set. *)
Lemma Route_Match_true sub id r req m m' :
  Route_Match sub id r req m = Ret (true, m') ->
  is_Some (Route_of m') /\ is_Some (Vars m').
Proof.
  unfold Route_Match. destruct (_ || _); [discriminate|].
  intros H. apply obind_Ret in H as (res & _ & H).
  destruct res as [?|[[e|] m1]]; try discriminate.
  apply obind_Ret in H as (m2 & H2 & H). injection H as <-.
  apply setMatch_keeps in H2 as (Ha & _ & Hc).
  match type of Ha with _ = Route_of ?x => set (m3 := x) in * end.
  split.
  - rewrite Ha. subst m3.
    repeat (case_bool_decide || destruct (_ && _));
      cbn [Route_of set_Vars set_Handler set_Route set_MatchErr] in *;
      try done; by apply not_eq_None_Some.
  - apply Hc. subst m3.
    case_bool_decide as Ev; [done|]. by apply not_eq_None_Some.
Qed.

Lemma Router_Match_loop_true sub st req : forall rs m m',
  Router_Match_loop sub st rs req m = Ret (true, m') ->
  is_Some (Route_of m') /\ is_Some (Vars m').
Proof.
  induction rs as [|id rs IH]; intros m m' H; cbn [Router_Match_loop] in H.
  - discriminate.
  - destruct (route_heap st !! id) as [route|]; [|discriminate].
    apply obind_Ret in H as ([b m1] & H1 & H).
    destruct b.
    + injection H as <-. eapply Route_Match_true, H1.
    + eapply IH, H.
Qed.

(** [Router.Match], when it returns.  False comes with [MatchErr] set to
    [ErrMethodMismatch] or [ErrNotFound], and with the fallback handler for
    that error missing on the router; true without an error comes from a
    route, and then the route and the variables of the match are set. *)
Theorem Router_Match_result (fuel : nat) (st : Store) (id : RouterId)
    (req : Request) (m m' : RouteMatch) (b : bool) :
  Router_Match fuel st id req m = Ret (b, m') ->
  exists r, router_heap st !! id = Some r
    /\ (b = false ->
          (MatchErr m' = Some ErrMethodMismatch /\ MethodNotAllowedHandler r = None)
          \/ (MatchErr m' = Some ErrNotFound /\ NotFoundHandler r = None))
    /\ (b = true -> MatchErr m' = None ->
          is_Some (Route_of m') /\ is_Some (Vars m')).
Proof.
  destruct fuel as [|n]; [discriminate|]. cbn [Router_Match].
  destruct (router_heap st !! id) as [r|]; [|discriminate].
  intros H. exists r. split; [reflexivity|].
  unfold Router_Match_with in H.
  apply obind_Ret in H as ([b1 m1] & H1 & H).
  destruct b1.
  - apply Router_Match_loop_true in H1 as [Hr Hv].
    case_bool_decide; injection H as <- <-; (split; [discriminate|]);
      intros _ _; cbn [Route_of Vars set_Handler]; done.
  - case_bool_decide as Em.
    + destruct (MethodNotAllowedHandler r); injection H as <- <-.
      * split; [discriminate|]. cbn [MatchErr set_Handler]. congruence.
      * split; [|discriminate]. intros _. left. done.
    + destruct (NotFoundHandler r); injection H as <- <-.
      * split; [discriminate|]. cbn [MatchErr set_MatchErr]. discriminate.
      * split; [|discriminate]. intros _. right. done.
Qed.

(** A router without routes and without fallback handlers. *)
Lemma Router_Match_result_witness :
  exists r, router_heap lone_router_store !! 0 = Some r
    /\ (false = false ->
          (MatchErr (set_MatchErr (Some ErrNotFound) emptyMatch) = Some ErrMethodMismatch
           /\ MethodNotAllowedHandler r = None)
          \/ (MatchErr (set_MatchErr (Some ErrNotFound) emptyMatch) = Some ErrNotFound
              /\ NotFoundHandler r = None))
    /\ (false = true -> MatchErr (set_MatchErr (Some ErrNotFound) emptyMatch) = None ->
          is_Some (Route_of (set_MatchErr (Some ErrNotFound) emptyMatch))
          /\ is_Some (Vars (set_MatchErr (Some ErrNotFound) emptyMatch))).
Proof.
  apply (Router_Match_result 1 lone_router_store 0 (request_for "GET" "/") emptyMatch).
  vm_compute. reflexivity.
Defined.

(** ** Routes with a construction error *)

Lemma putRoute_same (st : Store) (id : RouteId) (r : Route) :
  route_heap st !! id = Some r -> putRoute id r st = Ret (tt, st).
Proof.
  intros H. unfold putRoute. rewrite list_insert_id by exact H. by destruct st.
Qed.

Lemma getRoute_Some (st : Store) (id : RouteId) (r : Route) :
  route_heap st !! id = Some r -> getRoute (Some id) st = Ret ((id, r), st).
Proof. intros H. unfold getRoute. by rewrite H. Qed.

Lemma set_err_same (r : Route) : set_err (err r) r = r.
Proof. by destruct r. Qed.

Lemma addMatcher_errored (m : matcher) (r : Route) (e : error) :
  err r = Some e -> addMatcher m r = r.
Proof. intros H. unfold addMatcher. by rewrite H. Qed.

Lemma addRegexpMatcher_errored tpl typ (r : Route) (e : error) :
  err r = Some e -> addRegexpMatcher tpl typ r = Ret (err r, r).
Proof.
  intros H. unfold addRegexpMatcher. rewrite H.
  by rewrite bool_decide_eq_true_2 by done.
Qed.

Lemma Queries_loop_errored (r : Route) (e : error) : forall pairs,
  err r = Some e -> Queries_loop pairs r = Ret r.
Proof.
  intros pairs He. destruct pairs as [|k [|v rest]]; try reflexivity.
  cbn [Queries_loop]. rewrite (addRegexpMatcher_errored _ _ _ _ He). cbn [obind].
  rewrite set_err_same, He. by rewrite bool_decide_eq_true_2 by done.
Qed.

(** Once a route carries a construction error, the builder calls that add a
    handler or a matcher leave the store as it is, and the route matches no
    request. *)
Theorem errored_route_is_inert (st : Store) (id : RouteId) (r : Route) (e : error) :
  route_heap st !! id = Some r -> err r = Some e ->
  (forall h, Route_Handler (Some id) h st = Ret (Some id, st))
  /\ (forall ms, Route_Methods (Some id) ms st = Ret (Some id, st))
  /\ (forall f, Route_MatcherFunc (Some id) f st = Ret (Some id, st))
  /\ (forall typ tpl, Route_regexp typ (Some id) tpl st = Ret (Some id, st))
  /\ (forall pairs, length pairs mod 2 = 0 ->
        Route_Queries (Some id) pairs st = Ret (Some id, st))
  /\ (forall sub req m, Route_Match sub id r req m = Ret (false, m)).
Proof.
  intros Hr He. repeat split.
  - intros h. unfold Route_Handler, bind. rewrite (getRoute_Some _ _ _ Hr).
    rewrite He. rewrite bool_decide_eq_false_2 by done.
    by rewrite (putRoute_same _ _ _ Hr).
  - intros ms. unfold Route_Methods, bind. rewrite (getRoute_Some _ _ _ Hr).
    rewrite (addMatcher_errored _ _ _ He). by rewrite (putRoute_same _ _ _ Hr).
  - intros f. unfold Route_MatcherFunc, bind. rewrite (getRoute_Some _ _ _ Hr).
    rewrite (addMatcher_errored _ _ _ He). by rewrite (putRoute_same _ _ _ Hr).
  - intros typ tpl. unfold Route_regexp, bind, lift. rewrite (getRoute_Some _ _ _ Hr).
    rewrite (addRegexpMatcher_errored _ _ _ _ He). cbn [obind].
    rewrite set_err_same. by rewrite (putRoute_same _ _ _ Hr).
  - intros pairs Hp. unfold Route_Queries, bind, lift. rewrite (getRoute_Some _ _ _ Hr).
    rewrite bool_decide_eq_false_2 by (intros H; by apply H).
    rewrite (Queries_loop_errored _ _ _ He). cbn [obind].
    by rewrite (putRoute_same _ _ _ Hr).
  - intros sub req m. unfold Route_Match. rewrite He.
    rewrite bool_decide_eq_true_2 by done. by rewrite orb_true_r.
Qed.

Lemma errored_route_is_inert_witness :
  Route_Handler (Some 0) (Some (HandlerFunc 1)) errored_store
  = Ret (Some 0, errored_store)
  /\ Route_regexp regexpTypePath (Some 0) "/x" errored_store
     = Ret (Some 0, errored_store).
Proof.
  destruct (errored_route_is_inert errored_store 0
              (mkRoute None false [] (Some ErrNotFound) 0 zeroConf) ErrNotFound
              eq_refl eq_refl) as (H1 & _ & _ & H4 & _).
  split; [apply H1 | apply H4].
Defined.

(** [Route.Path] and [Route.PathPrefix] with a template that is not empty
    and does not start with a slash: the route gets the error and is
    otherwise as before, and from then on it matches no request. *)
Theorem path_must_start_with_slash (st : Store) (id : RouteId) (r : Route)
    (typ : regexpType) (c : ascii) (tpl : str) :
  route_heap st !! id = Some r -> err r = None ->
  typ = regexpTypePath \/ typ = regexpTypePrefix ->
  c <> "/"%char ->
  let e := Errorf "mux: path must start with a slash, got %q" [c :: tpl] in
  let st' := mkStore (<[id := set_err (Some e) r]> (route_heap st)) (router_heap st)
               (registry_heap st) in
  Route_regexp typ (Some id) (c :: tpl) st = Ret (Some id, st')
  /\ Route_GetError st' id = Some e
  /\ forall sub req m,
       Route_Match sub id (set_err (Some e) r) req m = Ret (false, m).
Proof.
  intros Hr He Ht Hc e st'. repeat split.
  - unfold Route_regexp, bind, lift. rewrite (getRoute_Some _ _ _ Hr).
    unfold addRegexpMatcher. rewrite He.
    rewrite bool_decide_eq_false_2 by (intros H; by apply H).
    assert (Hs : byte_eqb c "/" = false).
    { apply not_true_iff_false. intros H. by apply Ascii.eqb_eq in H. }
    rewrite Hs. cbn [negb].
    destruct Ht as [-> | ->]; reflexivity.
  - unfold Route_GetError, st'. cbn [route_heap].
    rewrite list_lookup_insert_eq by (by eapply lookup_lt_Some). reflexivity.
  - intros sub req m. unfold Route_Match. cbn [err set_err].
    rewrite bool_decide_eq_true_2 by done. by rewrite orb_true_r.
Qed.

Lemma path_must_start_with_slash_witness :
  exists st',
    Route_Path (Some 0) "abc" fresh_route_store = Ret (Some 0, st')
    /\ Route_GetError st' 0
       = Some (Errorf "mux: path must start with a slash, got %q" [("abc" : str)]).
Proof.
  destruct (path_must_start_with_slash fresh_route_store 0
              (mkRoute None false [] None 0 zeroConf) regexpTypePath "a" "bc"
              eq_refl eq_refl (or_introl eq_refl) ltac:(discriminate))
    as (H1 & H2 & _).
  eexists. split; [exact H1 | exact H2].
Defined.

(** ** The registry of names and the configuration of a route *)

(** A route created on a subrouter and given a name is the route that
    [Router.Get] on the parent router returns for that name: the routers
    and routes of a tree write to one registry of names. *)
Theorem name_on_subrouter_found_by_parent (st : Store) (rt : RouterId) (r : Router)
    (reg : gmap (list ascii) nat) (name_ : str) :
  router_heap st !! rt = Some r ->
  registry_heap st !! r_namedRoutes r = Some reg ->
  exists q st',
    (do p <- Router_NewRoute rt;
     do s <- Route_Subrouter p;
     do q <- Router_NewRoute s;
     Route_Name q name_) st = Ret (Some q, st')
    /\ Router_Get rt name_ st' = Ret (Some q, st')
    /\ Route_GetName st' q = Some name_
    /\ Route_GetError st' q = None.
Proof.
  intros Hr Hreg.
  assert (Hlt : rt < length (router_heap st)) by (by eapply lookup_lt_Some).
  exists (S (length (route_heap st))).
  unfold bind at 1. unfold Router_NewRoute at 1. unfold bind at 1.
  unfold getRouter at 1. rewrite Hr.
  unfold bind at 1. unfold Route_Subrouter, bind, getRoute. cbn [route_heap].
  rewrite lookup_app_r by lia. rewrite Nat.sub_diag. cbn [lookup list_lookup].
  cbn [router_heap registry_heap route_heap].
  unfold Router_NewRoute, bind, getRouter. cbn [router_heap].
  rewrite lookup_app_r by (rewrite length_insert; lia).
  rewrite length_insert, Nat.sub_diag. cbn [lookup list_lookup].
  cbn [router_heap registry_heap route_heap r_namedRoutes].
  unfold Route_Name, bind, getRoute. cbn [route_heap].
  rewrite length_insert, length_app. cbn [length].
  replace (length (route_heap st) + 1) with (S (length (route_heap st))) by lia.
  rewrite lookup_app_r by (rewrite length_insert, length_app; simpl; lia).
  rewrite length_insert, length_app. cbn [length].
  replace (S (length (route_heap st)) - (length (route_heap st) + 1)) with 0 by lia.
  cbn [lookup list_lookup name err namedRoutes].
  rewrite (bool_decide_eq_false_2 (@nil ascii <> [])) by (intros H; by apply H).
  cbn [err]. rewrite bool_decide_eq_true_2 by done.
  cbn [registry_heap namedRoutes]. rewrite Hreg.
  eexists. split; [reflexivity|].
  assert (Hreg' : r_namedRoutes r < length (registry_heap st))
    by (by eapply lookup_lt_Some).
  repeat split.
  - unfold Router_Get, bind, getRouter. cbn [router_heap].
    rewrite list_lookup_insert_ne by lia.
    rewrite lookup_app_l by (rewrite length_insert; lia).
    rewrite list_lookup_insert_eq by lia.
    cbn [registry_heap r_namedRoutes].
    rewrite list_lookup_insert_eq by lia. cbn [mbind option_bind].
    by rewrite lookup_insert_eq.
  - unfold Route_GetName. cbn [route_heap].
    rewrite list_lookup_insert_eq; [reflexivity|].
    rewrite length_app, length_insert, length_app. simpl. lia.
  - unfold Route_GetError. cbn [route_heap].
    rewrite list_lookup_insert_eq; [reflexivity|].
    rewrite length_app, length_insert, length_app. simpl. lia.
Qed.

Lemma name_on_subrouter_found_by_parent_witness :
  exists q st',
    (do p <- Router_NewRoute 0;
     do s <- Route_Subrouter p;
     do q <- Router_NewRoute s;
     Route_Name q "article") lone_router_store = Ret (Some q, st')
    /\ Router_Get 0 "article" st' = Ret (Some q, st')
    /\ Route_GetName st' q = Some ("article" : str)
    /\ Route_GetError st' q = None.
Proof.
  apply (name_on_subrouter_found_by_parent lone_router_store 0
           (mkRouter None None [] 0 [] zeroConf) ∅ "article"); reflexivity.
Defined.

(** The configuration of a route is the one that its router had when the
    route was created: [StrictSlash] on the router afterwards changes the
    routes created later and not this one. *)
Theorem route_keeps_creation_config (st : Store) (rt : RouterId) (r : Router)
    (value : bool) :
  router_heap st !! rt = Some r ->
  exists id id2 st' route route2,
    (do p <- Router_NewRoute rt;
     do _ <- Router_StrictSlash rt value;
     do p2 <- Router_NewRoute rt;
     ret (p, p2)) st = Ret ((Some id, Some id2), st')
    /\ route_heap st' !! id = Some route
    /\ route_heap st' !! id2 = Some route2
    /\ strictSlash (conf route) = strictSlash (r_conf r)
    /\ strictSlash (conf route2) = value.
Proof.
  intros Hr.
  assert (Hlt : rt < length (router_heap st)) by (by eapply lookup_lt_Some).
  unfold bind, Router_NewRoute, Router_StrictSlash, bind, getRouter, putRouter, ret.
  rewrite Hr. cbn [router_heap route_heap registry_heap].
  rewrite list_lookup_insert_eq by lia. cbn [router_heap route_heap registry_heap].
  rewrite list_lookup_insert_eq by (rewrite length_insert; lia).
  eexists _, _, _, _, _. split; [reflexivity|].
  cbn [route_heap]. rewrite length_app. cbn [length].
  split; [|split].
  - rewrite lookup_app_l by (rewrite length_app; simpl; lia).
    rewrite lookup_app_r by lia. rewrite Nat.sub_diag. reflexivity.
  - rewrite lookup_app_r by (rewrite length_app; simpl; lia).
    rewrite length_app. cbn [length]. rewrite Nat.sub_diag. reflexivity.
  - done.
Qed.

Lemma route_keeps_creation_config_witness :
  exists id id2 st' route route2,
    (do p <- Router_NewRoute 0;
     do _ <- Router_StrictSlash 0 true;
     do p2 <- Router_NewRoute 0;
     ret (p, p2)) lone_router_store = Ret ((Some id, Some id2), st')
    /\ route_heap st' !! id = Some route
    /\ route_heap st' !! id2 = Some route2
    /\ strictSlash (conf route) = false
    /\ strictSlash (conf route2) = true.
Proof.
  apply (route_keeps_creation_config lone_router_store 0
           (mkRouter None None [] 0 [] zeroConf) true). reflexivity.
Defined.

(** A function given to [BuildVarsFunc] is applied to what the functions
    given before make of the variables, whether or not the route has an
    error; the other fields of the route are kept. *)
Theorem BuildVarsFunc_composes (st : Store) (id : RouteId) (r : Route)
    (f : gmap (list ascii) (list ascii) -> gmap (list ascii) (list ascii)) :
  route_heap st !! id = Some r ->
  exists st' r',
    Route_BuildVarsFunc (Some id) f st = Ret (Some id, st')
    /\ route_heap st' !! id = Some r'
    /\ (forall m, Route_buildVars r' m = f (Route_buildVars r m))
    /\ err r' = err r /\ matchers (conf r') = matchers (conf r)
    /\ handler r' = handler r.
Proof.
  intros Hr. unfold Route_BuildVarsFunc, bind, getRoute. rewrite Hr.
  unfold putRoute, ret. eexists _, _. split; [reflexivity|].
  cbn [route_heap]. split.
  { apply list_lookup_insert_eq. by eapply lookup_lt_Some. }
  repeat split. intros m. unfold Route_buildVars. cbn [set_conf conf buildVarsFunc].
  by destruct (buildVarsFunc (conf r)).
Qed.

Lemma BuildVarsFunc_composes_witness :
  exists st' r',
    Route_BuildVarsFunc (Some 0) add_lang fresh_route_store = Ret (Some 0, st')
    /\ route_heap st' !! 0 = Some r'
    /\ (forall m, Route_buildVars r' m
                  = add_lang (Route_buildVars (mkRoute None false [] None 0 zeroConf) m))
    /\ err r' = None /\ matchers (conf r') = [] /\ handler r' = None.
Proof.
  apply (BuildVarsFunc_composes fresh_route_store 0
           (mkRoute None false [] None 0 zeroConf) add_lang). reflexivity.
Defined.

(** ** The port of a host *)

Lemma newRouteRegexp_fields (tpl : str) (typ : regexpType) (opts : routeRegexpOptions)
    (rr : routeRegexp) :
  newRouteRegexp tpl typ opts = Ret rr ->
  template rr = tpl /\ regexpType_of rr = typ
  /\ wildcardHostPort rr
     = bool_decide (typ = regexpTypeHost)
       && negb (ContainsByte (Regexp.String (regexp rr)) ":").
Proof.
  unfold newRouteRegexp. intros H.
  apply obind_Ret in H as (a & Ha & H).
  apply obind_Ret in H as (reg & Hreg & H).
  destruct (bool_decide _); [discriminate|].
  injection H as <-. cbn [template regexpType_of wildcardHostPort regexp].
  repeat split. unfold Regexp.String. rewrite (Compile_source _ _ Hreg).
  unfold assemble in Ha. destruct (braceIndices tpl) as [e|idxs]; [discriminate|].
  apply obind_Ret in Ha as (b & Hb & Ha).
  apply obind_Ret in Ha as (raw & _ & Ha).
  apply obind_Ret in Ha as (pat & _ & Ha).
  injection Ha as <-. reflexivity.
Qed.

Lemma IndexByte_app_first (h p : str) (c : ascii) :
  IndexByte h c = None -> IndexByte (h ++ c :: p) c = Some (length h).
Proof.
  induction h as [|x h IH]; cbn [IndexByte app length].
  - intros _. unfold byte_eqb. by rewrite Ascii.eqb_refl.
  - destruct (byte_eqb x c); [discriminate|].
    destruct (IndexByte h c); [discriminate|]. intros _. by rewrite IH.
Qed.

(** A host template whose compiled pattern has no colon matches a request
    host whatever its port: the host is cut at its first colon before it is
    matched.  A pattern with a colon, be it that of a non-capturing group,
    is matched against the host with its port. *)
Theorem host_port_wildcard (tpl : str) (opts : routeRegexpOptions) (rr : routeRegexp)
    (req : Request) :
  newRouteRegexp tpl regexpTypeHost opts = Ret rr ->
  (ContainsByte (Regexp.String (regexp rr)) ":" = false ->
   forall h p, IndexByte h ":" = None ->
     getHost req = h ++ ":"%char :: p ->
     routeRegexp_Match rr req = Regexp.MatchString (regexp rr) h)
  /\ (ContainsByte (Regexp.String (regexp rr)) ":" = true ->
      routeRegexp_Match rr req = Regexp.MatchString (regexp rr) (getHost req)).
Proof.
  intros H. apply newRouteRegexp_fields in H as (_ & Ht & Hw).
  rewrite bool_decide_eq_true_2 in Hw by done. cbn [andb] in Hw.
  unfold routeRegexp_Match. rewrite Ht, bool_decide_eq_true_2 by done.
  rewrite Hw. split.
  - intros -> h p Hh Hreq. cbn [negb]. unfold stripPort.
    rewrite Hreq, IndexByte_app_first by exact Hh.
    by rewrite take_app_length.
  - intros ->. reflexivity.
Qed.

(** The template [{sub}.example.com] and the host [api.example.com:8080]. *)
Lemma host_port_wildcard_witness :
  routeRegexp_Match host_regexp (request_to "api.example.com:8080")
  = Regexp.MatchString (regexp host_regexp) "api.example.com".
Proof.
  apply (proj1 (host_port_wildcard "{sub}.example.com" (mkOptions false false)
                  host_regexp (request_to "api.example.com:8080")
                  ltac:(vm_compute; reflexivity))
           ltac:(vm_compute; reflexivity) "api.example.com" "8080");
    vm_compute; reflexivity.
Defined.

(** ** Templates without variables *)

Lemma braceIndices_plain (t : str) :
  forallb no_brace t = true -> braceIndices t = inr [].
Proof.
  intros H. unfold braceIndices.
  rewrite <- (app_nil_r t) at 2. rewrite braceIndices_go_plain by exact H.
  reflexivity.
Qed.

Lemma slice_whole (s : str) : slice s 0 (Z.of_nat (length s)) = Some s.
Proof.
  pose proof (slice_middle [] s [] 0 (Z.of_nat (length s)) eq_refl) as H.
  rewrite app_nil_r in H. apply H. lia.
Qed.

Lemma parse_prefix_pattern (t : str) :
  forallb is_ascii t = true ->
  Regexp.parse (("^" : list ascii) ++ Regexp.QuoteMeta t)
  = inl (Regexp.mk_cat (Regexp.Bol :: map Regexp.Chr t), 0).
Proof.
  intros Ht. unfold Regexp.parse.
  change (Regexp.steps Regexp.init (("^" : list ascii) ++ ?x))
    with (Regexp.steps (top [Regexp.Bol] 0) x).
  rewrite steps_QuoteMeta by done.
  cbn [top Regexp.p_mode Regexp.p_stack Regexp.p_cur Regexp.p_ncap].
  unfold Regexp.close_frame. cbn [Regexp.f_cat Regexp.f_alts rev app Regexp.mk_alt].
  rewrite rev_app_distr, rev_involutive. cbn [rev app]. done.
Qed.

Lemma newRouteRegexp_prefix_literal (t : str) (opts : routeRegexpOptions) :
  forallb is_ascii t = true -> forallb no_brace t = true ->
  newRouteRegexp t regexpTypePrefix opts = Ret (prefix_regexp t opts).
Proof.
  intros Ha Hb. unfold newRouteRegexp, assemble.
  rewrite braceIndices_plain by exact Hb.
  decide_kinds. cbn [o_strictSlash andb compileVars obind c_end].
  unfold slice_or_panic. rewrite slice_whole. cbn [obind c_pattern c_reverse c_varsN c_varsR].
  unfold Regexp.Compile. cbn [a_pattern]. rewrite parse_prefix_pattern by exact Ha.
  cbn [obind Regexp.NumSubexp Regexp.numSubexp a_nvars length Nat.div].
  reflexivity.
Qed.

Lemma search_bol R ncap n s :
  Regexp.search (Regexp.Cat Regexp.Bol R) ncap n s 0
  = Regexp.run (Regexp.Cat Regexp.Bol R) s 0 (replicate (S ncap) None)
      (fun _ pos' c' => Some (<[0 := Some (0, pos')]> c')).
Proof.
  destruct n as [|n]; cbn [Regexp.search];
    destruct (Regexp.run _ s 0 _ _) as [res|] eqn:E; try reflexivity.
  destruct (Regexp.next s) as [[x w]|] eqn:En; [|reflexivity].
  apply search_anchored. apply next_width_pos in En. lia.
Qed.

Lemma run_literal_inv lit items : forall s pos c k res,
  Regexp.run (Regexp.mk_cat (map Regexp.Chr lit ++ items)) s pos c k = Some res ->
  exists s', s = lit ++ s'
    /\ Regexp.run (Regexp.mk_cat items) s' (pos + length lit) c k = Some res.
Proof.
  induction lit as [|a lit IH]; intros s pos c k res H.
  - exists s. rewrite Nat.add_0_r. done.
  - cbn [map app Regexp.mk_cat foldr Regexp.run] in H.
    destruct s as [|x s]; [discriminate|].
    destruct (byte_eqb x a) eqn:Ex; [|discriminate].
    apply Ascii.eqb_eq in Ex as ->.
    change (foldr Regexp.Cat Regexp.Eps ?l) with (Regexp.mk_cat l) in H.
    apply IH in H as (s' & -> & H). exists s'. split; [done|].
    cbn [length]. by replace (pos + S (length lit)) with (S pos + length lit) by lia.
Qed.

(** A path prefix template without variables compiles, and its pattern
    matches the paths that start with the template, and no other: the
    bytes after the template are free, be they the rest of a path segment. *)
Theorem literal_prefix_matches (t : str) (opts : routeRegexpOptions) :
  forallb is_ascii t = true -> forallb no_brace t = true ->
  exists rr,
    newRouteRegexp t regexpTypePrefix opts = Ret rr
    /\ forall p, Regexp.MatchString (regexp rr) p = true <-> exists rest, p = t ++ rest.
Proof.
  intros Ha Hb. exists (prefix_regexp t opts).
  split; [by apply newRouteRegexp_prefix_literal|].
  intros p. unfold Regexp.MatchString, Regexp.exec.
  cbn [regexp prefix_regexp Regexp.prog Regexp.numSubexp].
  rewrite bool_decide_eq_true.
  cbn [Regexp.mk_cat foldr]. rewrite search_bol.
  cbn [Regexp.run Nat.eqb].
  change (foldr Regexp.Cat Regexp.Eps ?l) with (Regexp.mk_cat l).
  rewrite <- (app_nil_r (map Regexp.Chr t)).
  split.
  - intros [res H]. apply run_literal_inv in H as (s' & -> & _). eauto.
  - intros [rest ->]. rewrite run_literal. cbn [Regexp.mk_cat foldr Regexp.run]. eauto.
Qed.

Lemma literal_prefix_matches_witness :
  exists rr,
    newRouteRegexp "/static" regexpTypePrefix (mkOptions true false) = Ret rr
    /\ forall p, Regexp.MatchString (regexp rr) p = true
                 <-> exists rest, p = ("/static" : str) ++ rest.
Proof.
  apply (literal_prefix_matches "/static" (mkOptions true false)); reflexivity.
Defined.

Lemma run_optional_slash_end s pos c K :
  Regexp.run (Regexp.mk_cat [Regexp.Quest true slashset; Regexp.Eol]) s pos c K
  = match s with
    | [] => K [] pos c
    | [x] => if byte_eqb x "/" then K [] (pos + 1) c else None
    | _ => None
    end.
Proof.
  cbn [Regexp.mk_cat foldr Regexp.run slashset].
  destruct s as [|x s]; [reflexivity|].
  unfold Regexp.next. destruct (is_ascii x) eqn:Ea.
  - cbn [Regexp.in_ranges existsb xorb orb].
    change (in_range (code "/") (code "/") x) with (in_range 47 47 x).
    destruct (byte_eqb x "/") eqn:Ex.
    + apply Ascii.eqb_eq in Ex as ->.
      change (in_range 47 47 "/") with true. cbn [orb drop].
      destruct s; [|reflexivity]. simpl. by destruct (K [] (pos + 1) c).
    + replace (in_range 47 47 x) with false.
      { cbn [orb]. by destruct s. }
      symmetry. apply not_true_iff_false. intros H.
      unfold in_range in H. apply andb_prop in H as [H1 H2].
      apply Nat.leb_le in H1, H2. assert (Hc : code x = 47) by lia.
      apply (f_equal ascii_of_nat) in Hc. unfold code in Hc.
      rewrite ascii_nat_embedding in Hc. subst x. discriminate.
  - cbn [Regexp.in_ranges xorb].
    replace (byte_eqb x "/") with false; [by destruct s|].
    symmetry. apply not_true_iff_false. intros H.
    apply Ascii.eqb_eq in H as ->. discriminate.
Qed.

Lemma newRouteRegexp_path_literal (t : str) (opts : routeRegexpOptions) :
  forallb is_ascii t = true -> forallb no_brace t = true ->
  newRouteRegexp t regexpTypePath opts = Ret (path_regexp [] t opts).
Proof.
  intros Ha Hb. unfold newRouteRegexp, assemble.
  rewrite braceIndices_plain by exact Hb.
  decide_kinds.
  change (if o_strictSlash opts && HasSuffix_slash t
          then take (length t - 1) t else t)
    with (stripped (o_strictSlash opts) t).
  cbn [compileVars obind c_end].
  unfold slice_or_panic. rewrite slice_whole.
  cbn [obind c_pattern c_reverse c_varsN c_varsR].
  unfold Regexp.Compile. cbn [a_pattern].
  pose proof (parse_path_pattern [] (stripped (o_strictSlash opts) t)
                (o_strictSlash opts) eq_refl
                (forallb_stripped _ _ _ Ha)) as Hp.
  unfold path_pattern in Hp. cbn [seg_pattern app] in Hp.
  replace (("^" : list ascii) ++ Regexp.QuoteMeta (stripped (o_strictSlash opts) t)
             ++ (if o_strictSlash opts then ("[/]?" : list ascii) else [])
             ++ ("$" : list ascii))
    with ((if o_strictSlash opts
           then (("^" : list ascii) ++ Regexp.QuoteMeta (stripped (o_strictSlash opts) t))
                  ++ ("[/]?" : list ascii)
           else ("^" : list ascii) ++ Regexp.QuoteMeta (stripped (o_strictSlash opts) t))
            ++ ("$" : list ascii)) in Hp
    by (destruct (o_strictSlash opts); rewrite <- ?app_assoc; reflexivity).
  cbn [list_ascii_of_string app] in Hp |- *.
  unfold stripped in Hp. rewrite Hp.
  cbn [obind Regexp.NumSubexp Regexp.numSubexp a_nvars length Nat.div].
  unfold path_regexp, path_pattern. cbn [render seg_reverse seg_pattern map length replicate app].
  unfold stripped, strip_rest.
  destruct (o_strictSlash opts); cbn [andb];
    [destruct (HasSuffix_slash t)|]; cbn [list_ascii_of_string app];
    rewrite ?app_nil_r, <- ?app_assoc; reflexivity.
Qed.

(** A path template without variables matches the path that it spells and
    no other; with strict slash, the path of the template with or without
    one slash at its end, and no other. *)
Theorem literal_path_matches (t : str) (opts : routeRegexpOptions) :
  forallb is_ascii t = true -> forallb no_brace t = true ->
  exists rr,
    newRouteRegexp t regexpTypePath opts = Ret rr
    /\ forall p,
         Regexp.MatchString (regexp rr) p = true
         <-> p = stripped (o_strictSlash opts) t
             \/ (o_strictSlash opts = true
                 /\ p = stripped (o_strictSlash opts) t ++ ["/"%char]).
Proof.
  intros Ha Hb. exists (path_regexp [] t opts).
  split; [by apply newRouteRegexp_path_literal|].
  intros p. unfold Regexp.MatchString, Regexp.exec.
  cbn [regexp path_regexp Regexp.prog Regexp.numSubexp length].
  rewrite bool_decide_eq_true.
  set (T := stripped (o_strictSlash opts) t).
  unfold path_items. cbn [seg_items app Regexp.mk_cat foldr]. rewrite search_bol.
  cbn [Regexp.run Nat.eqb].
  change (foldr Regexp.Cat Regexp.Eps ?l) with (Regexp.mk_cat l).
  split.
  - intros [res H]. apply run_literal_inv in H as (s' & -> & H).
    destruct (o_strictSlash opts).
    + cbn [app] in H. rewrite run_optional_slash_end in H.
      destruct s' as [|x [|y s']]; try discriminate.
      * left. by rewrite app_nil_r.
      * destruct (byte_eqb x "/") eqn:Ex; [|discriminate].
        apply Ascii.eqb_eq in Ex as ->. right. done.
    + cbn [app Regexp.mk_cat foldr Regexp.run] in H.
      destruct s'; [|discriminate]. left. by rewrite app_nil_r.
  - intros [-> | [Hs ->]].
    + rewrite <- (app_nil_r T) at 2. rewrite run_literal.
      destruct (o_strictSlash opts); cbn [app]; [rewrite run_optional_slash_end|];
        cbn [Regexp.mk_cat foldr Regexp.run]; eauto.
    + rewrite run_literal. rewrite Hs. cbn [app]. rewrite run_optional_slash_end.
      unfold byte_eqb. rewrite Ascii.eqb_refl. eauto.
Qed.

Lemma literal_path_matches_witness :
  exists rr,
    newRouteRegexp "/products/" regexpTypePath (mkOptions true false) = Ret rr
    /\ forall p,
         Regexp.MatchString (regexp rr) p = true
         <-> p = stripped true "/products/"
             \/ (true = true /\ p = stripped true "/products/" ++ ["/"%char]).
Proof.
  apply (literal_path_matches "/products/" (mkOptions true false)); reflexivity.
Defined.

(** ** The redirect of strict slash *)

Lemma delimited_boundary segs : forall a b,
  delimited segs a = true -> (boundary a = true -> boundary b = true) ->
  delimited segs b = true.
Proof.
  induction segs as [|seg segs IH]; intros a b Hd Hb; [done|].
  cbn [delimited] in *. apply andb_prop in Hd as [H1 H2].
  apply andb_true_intro. split; [|by eapply IH].
  destruct segs as [|[lit' ?] ?]; [by apply Hb | done].
Qed.

Lemma boundary_stripped tail rem :
  rem = [] \/ rem = ["/"%char] ->
  boundary tail = true -> boundary (stripped true tail ++ rem) = true.
Proof.
  intros Hrem Hb.
  pose proof (stripped_rest true tail) as Hs.
  destruct (stripped true tail) as [|c s] eqn:E.
  - destruct Hrem as [-> | ->]; done.
  - rewrite <- Hs in Hb. exact Hb.
Qed.

(** The submatches of a path of the template, with or without the slash at
    its end, under strict slash. *)
Lemma exec_strict_slash (val : list ascii -> list ascii) segs tail enc rem :
  forallb (value_ok val) segs = true ->
  delimited segs tail = true ->
  rem = [] \/ rem = ["/"%char] ->
  Regexp.exec (regexp (path_regexp segs tail (mkOptions true enc)))
    (seg_path val segs ++ stripped true tail ++ rem)
  = Some (Some (0, length (seg_path val segs ++ stripped true tail ++ rem))
            :: map Some (spans val 0 segs)).
Proof.
  intros Hv Hd Hrem. unfold Regexp.exec, path_regexp.
  cbn [regexp Regexp.prog Regexp.numSubexp o_strictSlash].
  apply search_first. unfold path_items.
  cbn [Regexp.mk_cat foldr Regexp.run Nat.eqb].
  change (foldr Regexp.Cat Regexp.Eps ?x) with (Regexp.mk_cat x).
  apply (run_segments val); [done| |].
  { eapply delimited_boundary; [exact Hd|]. by apply boundary_stripped. }
  apply (run_tail (stripped true tail) rem true).
  { destruct Hrem as [-> | ->]; [by left | by right]. }
  f_equal.
  change (replicate (S (length segs)) None)
    with ([@None (nat * nat)] ++ replicate (length segs) None).
  rewrite (caps_after_spans val) by done. rewrite Nat.sub_diag. simpl.
  rewrite app_nil_r. do 3 f_equal. rewrite !length_app. lia.
Qed.

Lemma HasSuffix_slash_snoc (s : str) (c : ascii) :
  HasSuffix_slash (s ++ [c]) = byte_eqb c "/".
Proof. unfold HasSuffix_slash. by rewrite last_snoc. Qed.

Lemma HasSuffix_slash_app (a b : str) :
  b <> [] -> HasSuffix_slash (a ++ b) = HasSuffix_slash b.
Proof.
  intros Hb. destruct b as [|c b] using rev_ind; [done|].
  by rewrite app_assoc, !HasSuffix_slash_snoc.
Qed.

Lemma HasSuffix_slash_value (v : str) :
  forallb not_slash v = true -> HasSuffix_slash v = false.
Proof.
  intros H. destruct v as [|c v] using rev_ind; [done|].
  rewrite HasSuffix_slash_snoc. rewrite forallb_app in H.
  apply andb_prop in H as [_ H]. simpl in H. rewrite andb_true_r in H.
  unfold not_slash in H. by apply negb_true_iff in H.
Qed.

Lemma HasSuffix_slash_seg_path (val : list ascii -> list ascii) segs :
  forallb (value_ok val) segs = true ->
  HasSuffix_slash (seg_path val segs) = false.
Proof.
  induction segs as [|[lit name] segs IH]; intros Hv; [done|].
  cbn [forallb] in Hv. apply andb_prop in Hv as [H1 Hv].
  unfold value_ok in H1. cbn [snd] in H1. apply andb_prop in H1 as [Hne Hsl].
  apply negb_true_iff, bool_decide_eq_false in Hne.
  cbn [seg_path]. destruct segs as [|seg segs].
  - cbn [seg_path]. rewrite app_nil_r, HasSuffix_slash_app by done.
    by apply HasSuffix_slash_value.
  - rewrite app_assoc, HasSuffix_slash_app; [by apply IH|].
    destruct seg as [lit' name']. cbn [seg_path].
    cbn [forallb] in Hv. apply andb_prop in Hv as [H2 _].
    unfold value_ok in H2. cbn [snd] in H2. apply andb_prop in H2 as [Hne2 _].
    apply negb_true_iff, bool_decide_eq_false in Hne2.
    intros Heq. apply app_eq_nil in Heq as [_ Heq].
    apply app_eq_nil in Heq as [Heq _]. done.
Qed.

Lemma extractFrom_strict_slash (val : list ascii -> list ascii)
    (segs : list (list ascii * list ascii)) (tail : list ascii) (enc : bool)
    (rem : list ascii) (m : RouteMatch) (vm : gmap (list ascii) (list ascii)) :
  forallb (value_ok val) segs = true ->
  delimited segs tail = true ->
  rem = [] \/ rem = ["/"%char] ->
  Vars m = Some vm ->
  extractFrom (path_regexp segs tail (mkOptions true enc))
    (seg_path val segs ++ stripped true tail ++ rem) m
  = Ret (true, set_Vars (Some (put_all val segs vm)) m).
Proof.
  intros Hv Hd Hrem Hm. unfold extractFrom, Regexp.FindStringSubmatchIndex.
  rewrite (exec_strict_slash val) by done.
  cbn [flat_map]. rewrite flat_map_Some. cbn [app length Nat.ltb Nat.leb].
  cbn [varsN path_regexp]. rewrite Hm.
  pose proof (extractVars_spans val segs [] (stripped true tail ++ rem)
                [0%Z; Z.of_nat (length (seg_path val segs ++ stripped true tail ++ rem))]
                [] 0 vm eq_refl) as Hex.
  rewrite app_nil_r in Hex. cbn [app length] in Hex.
  cbn [app]. change (Z.of_nat 0) with 0%Z. rewrite Hex. reflexivity.
Qed.

(** The slash of strict slash.  A route made of the path template
    [render segs tail] under strict slash matches a path of the template
    with or without the slash at its end.  When the request path and the
    template differ in having a slash at the end, the handler of the match
    is a permanent redirect to the request URL with the path that the
    template spells, and the escaped path of that path; else it is the
    handler of the route. *)
Theorem strict_slash_redirects (val : list ascii -> list ascii)
    (segs : list (list ascii * list ascii)) (tail rem : list ascii)
    (req : Request) (h : option Handler) (id : RouteId)
    (sub : RouterId -> Request -> RouteMatch -> outcome (bool * RouteMatch)) :
  template_ok segs tail = true ->
  forallb (value_ok val) segs = true ->
  rem = [] \/ rem = ["/"%char] ->
  Path (Req_URL req) = seg_path val segs ++ stripped true tail ++ rem ->
  let rr := path_regexp segs tail (mkOptions true false) in
  newRouteRegexp (render segs tail) regexpTypePath (mkOptions true false) = Ret rr
  /\ Route_Match sub id (path_route rr h) req emptyMatch
     = Ret (true,
            mkRouteMatch (Some id)
              (if bool_decide (HasSuffix_slash (Path (Req_URL req))
                               <> HasSuffix_slash tail)
               then Some (RedirectHandler
                            (with_Path (Req_URL req) (seg_path val segs ++ tail))
                            StatusMovedPermanently)
               else h)
              (Some (put_all val segs ∅)) None).
Proof.
  intros Hok Hv Hrem Hp rr.
  split; [by apply newRouteRegexp_render|].
  pose proof Hok as Hok'. unfold template_ok in Hok'.
  apply andb_prop in Hok' as [_ Hd].
  assert (Hmatch : routeRegexp_Match rr req = true).
  { unfold routeRegexp_Match. cbn [rr path_regexp regexpType_of options o_useEncodedPath].
    decide_kinds. rewrite Hp. unfold Regexp.MatchString.
    change (regexp _) with (regexp (path_regexp segs tail (mkOptions true false))).
    rewrite (exec_strict_slash val) by done. apply bool_decide_eq_true_2. eauto. }
  unfold Route_Match, path_route.
  cbn [buildOnly err conf matchers orb Route_Match_loop matcher_Match obind].
  rewrite bool_decide_eq_false_2 by (intros H; by apply H).
  rewrite Hmatch. cbn [negb obind handler regexp_group].
  cbn [emptyMatch MatchErr Route_of Handler_of Vars set_Route set_Handler set_Vars
       set_MatchErr].
  rewrite (bool_decide_eq_false_2 (None = Some ErrMethodMismatch)) by done.
  cbn [andb]. rewrite !bool_decide_eq_true_2 by done.
  cbn [Route_of Handler_of Vars MatchErr set_Route set_Handler set_Vars].
  unfold setMatch. cbn [host path queries obind conf useEncodedPath].
  rewrite Hp.
  rewrite (extractFrom_strict_slash val segs tail false rem _ ∅) by done.
  cbn [obind andb options path_regexp rr o_strictSlash template].
  rewrite HasSuffix_slash_render.
  case_bool_decide as Hne; [|reflexivity].
  unfold redirectTarget. rewrite Hp.
  destruct (HasSuffix_slash (seg_path val segs ++ stripped true tail ++ rem)) eqn:E1.
  - (* the request has the slash and the template does not *)
    assert (Ht : HasSuffix_slash tail = false) by (by destruct (HasSuffix_slash tail)).
    assert (Hs : stripped true tail = tail).
    { unfold stripped. by rewrite Ht. }
    rewrite Hs in *.
    destruct Hrem as [-> | ->].
    + exfalso. rewrite app_nil_r in E1.
      destruct tail as [|c tail'].
      * rewrite app_nil_r in E1. by rewrite (HasSuffix_slash_seg_path val) in E1.
      * rewrite HasSuffix_slash_app in E1 by done. congruence.
    + unfold slice_or_panic.
      replace (seg_path val segs ++ tail ++ ["/"%char])
        with ([] ++ (seg_path val segs ++ tail) ++ ["/"%char])
        by (by rewrite <- app_assoc).
      rewrite slice_middle; [reflexivity | reflexivity |].
      rewrite !length_app. cbn [length]. lia.
  - (* the template has the slash and the request does not *)
    assert (Ht : HasSuffix_slash tail = true) by (by destruct (HasSuffix_slash tail)).
    destruct Hrem as [-> | ->].
    + cbn [obind set_Handler Route_of Vars MatchErr setMatch_queries].
      pose proof (stripped_rest true tail) as Hsr. unfold strip_rest in Hsr.
      rewrite Ht in Hsr. cbn [andb] in Hsr.
      change (list_ascii_of_string "/") with ["/"%char].
      replace ((seg_path val segs ++ stripped true tail ++ []) ++ ["/"%char])
        with (seg_path val segs ++ tail); [reflexivity|].
      by rewrite app_nil_r, <- app_assoc, Hsr.
    + exfalso. rewrite !app_assoc, HasSuffix_slash_snoc in E1. discriminate.
Qed.

(** The template [/products/{id}/] under strict slash and the request path
    [/products/a b]: the redirect is to the path [/products/a b/], whose
    escaped path is [/products/a%20b/]. *)
Lemma strict_slash_redirects_witness :
  let rr := path_regexp product_segments "/" (mkOptions true false) in
  newRouteRegexp (render product_segments "/") regexpTypePath (mkOptions true false)
  = Ret rr
  /\ Route_Match (fun _ _ _ => OutOfFuel) 0 (path_route rr (Some (HandlerFunc 1)))
       (mkRequest "GET" (mkURL "http" "example.com" "/products/a b" "/products/a%20b" "x=1")
          "example.com" false)
       emptyMatch
     = Ret (true,
            mkRouteMatch (Some 0)
              (Some (RedirectHandler
                       (mkURL "http" "example.com" "/products/a b/" "/products/a%20b/"
                          "x=1")
                       StatusMovedPermanently))
              (Some (put_all value_a_b product_segments ∅)) None).
Proof.
  apply (strict_slash_redirects value_a_b product_segments "/" []
           (mkRequest "GET"
              (mkURL "http" "example.com" "/products/a b" "/products/a%20b" "x=1")
              "example.com" false)
           (Some (HandlerFunc 1)) 0 (fun _ _ _ => OutOfFuel)).
  - vm_compute. reflexivity.
  - vm_compute. reflexivity.
  - left. reflexivity.
  - vm_compute. reflexivity.
Defined.

(** ** The escaped path *)

(** Under [UseEncodedPath], a route for a path template of literals and
    variables with the default pattern is matched against the escaped path
    of the request, whatever its decoded path: the variables of the match
    are the segments of the escaped path as they are, not decoded. *)
Theorem encoded_path_is_matched (val : list ascii -> list ascii)
    (segs : list (list ascii * list ascii)) (tail : list ascii)
    (req : Request) (h : option Handler) (id : RouteId)
    (sub : RouterId -> Request -> RouteMatch -> outcome (bool * RouteMatch)) :
  template_ok segs tail = true ->
  forallb (value_ok val) segs = true ->
  EscapedPath (Req_URL req) = seg_path val segs ++ tail ->
  let rr := path_regexp segs tail (mkOptions false true) in
  newRouteRegexp (render segs tail) regexpTypePath (mkOptions false true) = Ret rr
  /\ Route_Match sub id (encoded_path_route rr h) req emptyMatch
     = Ret (true, mkRouteMatch (Some id) h (Some (put_all val segs ∅)) None).
Proof.
  intros Hok Hv Hp rr.
  split; [by apply newRouteRegexp_render|].
  pose proof Hok as Hok'. unfold template_ok in Hok'.
  apply andb_prop in Hok' as [_ Hd].
  pose proof (exec_path_regexp val segs tail (mkOptions false true) Hv Hd) as Hexec.
  fold rr in Hexec.
  assert (Hmatch : routeRegexp_Match rr req = true).
  { unfold routeRegexp_Match. cbn [rr path_regexp regexpType_of options o_useEncodedPath].
    decide_kinds. rewrite Hp. unfold Regexp.MatchString.
    change (regexp _) with (regexp rr).
    rewrite Hexec. apply bool_decide_eq_true_2. eauto. }
  unfold Route_Match, encoded_path_route.
  cbn [buildOnly err conf matchers orb Route_Match_loop matcher_Match obind].
  rewrite bool_decide_eq_false_2 by (intros H; by apply H).
  rewrite Hmatch. cbn [negb obind handler regexp_group].
  cbn [emptyMatch MatchErr Route_of Handler_of Vars set_Route set_Handler set_Vars
       set_MatchErr].
  rewrite (bool_decide_eq_false_2 (None = Some ErrMethodMismatch)) by done.
  cbn [andb]. rewrite !bool_decide_eq_true_2 by done.
  cbn [Route_of Handler_of Vars MatchErr set_Route set_Handler set_Vars].
  unfold setMatch. cbn [host path queries obind conf useEncodedPath].
  rewrite Hp. unfold extractFrom, Regexp.FindStringSubmatchIndex.
  rewrite Hexec. cbn [flat_map]. rewrite flat_map_Some.
  cbn [app length Nat.ltb Nat.leb Vars].
  change (varsN rr) with (map snd segs).
  pose proof (extractVars_spans val segs [] tail
                [0%Z; Z.of_nat (length (seg_path val segs ++ tail))] [] 0 ∅
                eq_refl) as Hex.
  rewrite app_nil_r in Hex. cbn [app length] in Hex.
  change (Z.of_nat 0) with 0%Z. cbn [Vars set_Vars]. rewrite Hex.
  reflexivity.
Qed.

(** The template [/products/{id}] and the request path [/products/a%2Fb]:
    the variable is [a%2Fb]. *)
Lemma encoded_path_is_matched_witness :
  let rr := path_regexp product_segments [] (mkOptions false true) in
  newRouteRegexp (render product_segments []) regexpTypePath (mkOptions false true)
  = Ret rr
  /\ Route_Match (fun _ _ _ => OutOfFuel) 0
       (encoded_path_route rr (Some (HandlerFunc 1))) encoded_request emptyMatch
     = Ret (true, mkRouteMatch (Some 0) (Some (HandlerFunc 1))
                    (Some (put_all value_encoded product_segments ∅)) None).
Proof.
  apply (encoded_path_is_matched value_encoded product_segments []
           encoded_request (Some (HandlerFunc 1)) 0 (fun _ _ _ => OutOfFuel));
    vm_compute; reflexivity.
Defined.

(** ** The raw query *)

Lemma findFirstQueryKey_go_fuel key : forall n m q,
  length q <= n -> length q <= m ->
  findFirstQueryKey_go n q key = findFirstQueryKey_go m q key.
Proof.
  induction n as [|n IH]; intros m q Hn Hm.
  - destruct q; [|simpl in Hn; lia]. by destruct m.
  - destruct q as [|c q]; [by destruct m|].
    destruct m as [|m]; [simpl in Hm; lia|].
    cbn [findFirstQueryKey_go length] in *.
    assert (Hq : forall q', length q' <= length q ->
              findFirstQueryKey_go n q' key = findFirstQueryKey_go m q' key).
    { intros q' Hq'. apply IH; lia. }
    destruct (IndexAny_sep (c :: q)) as [i|] eqn:Ei.
    + assert (Hd : length (drop (S i) (c :: q)) <= length q).
      { rewrite length_drop. simpl. lia. }
      rewrite (Hq _ Hd).
      repeat (destruct (IndexByte _ _) || case_bool_decide || destruct (_ <? _)
              || destruct (QueryUnescape _)); reflexivity.
    + rewrite (Hq [] (Nat.le_0_l _)).
      repeat (destruct (IndexByte _ _) || case_bool_decide || destruct (_ <? _)
              || destruct (QueryUnescape _)); reflexivity.
Qed.

Lemma IndexAny_sep_None (s : str) :
  forallb no_separator s = true -> IndexAny_sep s = None.
Proof.
  induction s as [|c s IH]; [done|]. cbn [forallb IndexAny_sep].
  intros [Hc Hs]%andb_prop. rewrite (IH Hs).
  replace (byte_eqb c "&" || byte_eqb c ";") with false; [done|].
  symmetry. apply not_true_iff_false. intros [H|H]%orb_prop;
    apply Ascii.eqb_eq in H; subst c; discriminate.
Qed.

Lemma IndexAny_sep_app (s rest : str) :
  forallb no_separator s = true ->
  IndexAny_sep (s ++ "&"%char :: rest) = Some (length s).
Proof.
  induction s as [|c s IH]; [done|]. cbn [forallb IndexAny_sep app length].
  intros [Hc Hs]%andb_prop. rewrite (IH Hs).
  replace (byte_eqb c "&" || byte_eqb c ";") with false; [done|].
  symmetry. apply not_true_iff_false. intros [H|H]%orb_prop;
    apply Ascii.eqb_eq in H; subst c; discriminate.
Qed.

Lemma QueryEscape_byte (c : ascii) (rest : str) :
  forallb no_separator (QueryEscape [c]) = true
  /\ QueryUnescape (QueryEscape [c] ++ rest)
     = match QueryUnescape rest with
       | inl e => inl e
       | inr t => inr (c :: t)
       end.
Proof.
  destruct c as [[] [] [] [] [] [] [] []]; split; reflexivity.
Qed.

Lemma QueryEscape_cons (c : ascii) (v : str) :
  QueryEscape (c :: v) = QueryEscape [c] ++ QueryEscape v.
Proof. unfold QueryEscape. cbn [flat_map]. by rewrite app_nil_r. Qed.

Lemma QueryEscape_escaped (v : str) : forallb no_separator (QueryEscape v) = true.
Proof.
  induction v as [|c v IH]; [done|].
  rewrite QueryEscape_cons, forallb_app, IH.
  by rewrite (proj1 (QueryEscape_byte c [])).
Qed.

(** What [url.QueryEscape] writes, [url.QueryUnescape] reads back. *)
Lemma QueryUnescape_QueryEscape (v : str) : QueryUnescape (QueryEscape v) = inr v.
Proof.
  induction v as [|c v IH]; [done|].
  rewrite QueryEscape_cons, (proj2 (QueryEscape_byte c _)). by rewrite IH.
Qed.

Lemma key_byte_escaped (k : str) :
  forallb key_byte k = true -> forallb no_separator k = true.
Proof.
  apply forallb_impl. intros c. unfold key_byte, no_separator.
  rewrite !negb_true_iff, !bool_decide_eq_false. intros H Hin. apply H.
  repeat (apply elem_of_cons in Hin as [->|Hin]; [set_solver|]).
  by apply elem_of_nil in Hin.
Qed.

Lemma QueryUnescape_key (k : str) :
  forallb key_byte k = true -> QueryUnescape k = inr k.
Proof.
  induction k as [|c k IH]; [done|]. cbn [forallb].
  intros [Hc Hk]%andb_prop. cbn [QueryUnescape]. rewrite (IH Hk).
  unfold key_byte in Hc. apply negb_true_iff, bool_decide_eq_false in Hc.
  replace (byte_eqb c "%") with false.
  2:{ symmetry. apply not_true_iff_false. intros H. apply Ascii.eqb_eq in H.
      subst c. apply Hc. set_solver. }
  replace (byte_eqb c "+") with false; [done|].
  symmetry. apply not_true_iff_false. intros H. apply Ascii.eqb_eq in H.
  subst c. apply Hc. set_solver.
Qed.

Lemma IndexByte_key (k rest : str) :
  forallb key_byte k = true -> IndexByte (k ++ "="%char :: rest) "=" = Some (length k).
Proof.
  intros Hk. apply IndexByte_app_first.
  induction k as [|c k IH]; [done|]. cbn [forallb] in Hk.
  apply andb_prop in Hk as [Hc Hk]. cbn [IndexByte]. rewrite (IH Hk).
  replace (byte_eqb c "=") with false; [done|].
  symmetry. apply not_true_iff_false. intros H. apply Ascii.eqb_eq in H.
  subst c. discriminate.
Qed.

Lemma findFirstQueryKey_go_segment (n : nat) (k v tl key : str) :
  forallb key_byte k = true ->
  findFirstQueryKey_go (S n)
    (k ++ "="%char :: QueryEscape v
       ++ match tl with [] => [] | _ :: _ => "&"%char :: tl end) key
  = if bool_decide (k = key) then (v, true) else findFirstQueryKey_go n tl key.
Proof.
  intros Hk.
  set (seg := k ++ "="%char :: QueryEscape v).
  assert (Hseg : forallb no_separator seg = true).
  { unfold seg. rewrite forallb_app. cbn [forallb].
    by rewrite (key_byte_escaped k Hk), QueryEscape_escaped. }
  assert (Hne : exists c s, seg = c :: s).
  { unfold seg. destruct k as [|c k']; [by exists "="%char, (QueryEscape v)|].
    by exists c, (k' ++ "="%char :: QueryEscape v). }
  assert (Hrest : forall q,
            (let '(foundKey, query) := (seg, q) in
             if bool_decide (length foundKey = 0) then findFirstQueryKey_go n query key
             else
               let '(foundKey, value) :=
                 match IndexByte foundKey "=" with
                 | Some i => (take i foundKey, drop (S i) foundKey)
                 | None => (foundKey, [])
                 end in
               if length foundKey <? length key then findFirstQueryKey_go n query key
               else
                 match QueryUnescape foundKey with
                 | inl _ => findFirstQueryKey_go n query key
                 | inr keyString =>
                     if bool_decide (keyString ≠ key)
                     then findFirstQueryKey_go n query key
                     else
                       match QueryUnescape value with
                       | inl _ => findFirstQueryKey_go n query key
                       | inr valueString => (valueString, true)
                       end
                 end)
            = if bool_decide (k = key) then (v, true)
              else findFirstQueryKey_go n q key).
  { intros q. cbv zeta iota beta.
    rewrite bool_decide_eq_false_2
      by (destruct Hne as (c & s & ->); simpl; lia).
    unfold seg. rewrite IndexByte_key by exact Hk.
    rewrite take_app_length.
    replace (drop (S (length k)) (k ++ "="%char :: QueryEscape v))
      with (QueryEscape v)
      by (by rewrite (cons_middle _ k), app_assoc, drop_app_length'
            by (rewrite length_app; simpl; lia)).
    destruct (length k <? length key) eqn:El.
    { apply Nat.ltb_lt in El. rewrite bool_decide_eq_false_2; [done|].
      intros ->. lia. }
    rewrite QueryUnescape_key by exact Hk.
    case_bool_decide as E1.
    - by rewrite bool_decide_eq_false_2.
    - rewrite bool_decide_eq_true_2 by done.
      by rewrite QueryUnescape_QueryEscape. }
  destruct tl as [|t tl].
  - rewrite app_nil_r. fold seg.
    destruct Hne as (c & s & Hcs). rewrite Hcs.
    cbn [findFirstQueryKey_go]. rewrite <- Hcs.
    rewrite IndexAny_sep_None by exact Hseg. apply Hrest.
  - change (k ++ "="%char :: QueryEscape v ++ "&"%char :: t :: tl)
      with (k ++ ("="%char :: QueryEscape v) ++ "&"%char :: t :: tl).
    rewrite app_assoc. fold seg.
    destruct Hne as (c & s & Hcs).
    assert (Hq : seg ++ "&"%char :: t :: tl = c :: (s ++ "&"%char :: t :: tl))
      by (by rewrite Hcs).
    rewrite Hq. cbn [findFirstQueryKey_go]. rewrite <- Hq.
    rewrite IndexAny_sep_app by exact Hseg.
    rewrite take_app_length.
    replace (drop (S (length seg)) (seg ++ "&"%char :: t :: tl)) with (t :: tl)
      by (by rewrite (cons_middle _ seg), app_assoc, drop_app_length'
            by (rewrite length_app; simpl; lia)).
    apply Hrest.
Qed.

Lemma findFirstQueryKey_encode_query (pairs : list (list ascii * list ascii))
    (key : list ascii) :
  Forall (fun p => forallb key_byte (fst p) = true) pairs ->
  findFirstQueryKey (encode_query pairs) key = first_value pairs key.
Proof.
  unfold findFirstQueryKey.
  induction pairs as [|[k v] rest IH]; intros Hp; [reflexivity|].
  apply Forall_cons in Hp as [Hk Hrest]. cbn [fst] in Hk.
  cbn [encode_query first_value].
  assert (Htl : match rest with [] => [] | _ :: _ => "&"%char :: encode_query rest end
                = match encode_query rest with
                  | [] => []
                  | _ :: _ => "&"%char :: encode_query rest
                  end).
  { destruct rest as [|[k' v'] rest']; [reflexivity|].
    cbn [encode_query]. by destruct k'. }
  rewrite Htl. set (tl := encode_query rest) in *.
  set (q := k ++ "="%char :: QueryEscape v ++ _).
  assert (Hlen : exists n, length q = S n /\ length tl <= n).
  { unfold q. rewrite length_app. cbn [length]. rewrite length_app.
    exists (length k + (length (QueryEscape v)
              + length match tl with [] => [] | _ :: _ => "&"%char :: tl end)).
    split; [lia|]. destruct tl; simpl; lia. }
  destruct Hlen as (n & -> & Hn). unfold q.
  rewrite findFirstQueryKey_go_segment by exact Hk.
  case_bool_decide; [reflexivity|].
  rewrite (findFirstQueryKey_go_fuel key n (length tl) tl) by lia.
  by apply IH.
Qed.

Lemma first_value_found (pairs : list (list ascii * list ascii)) (key : list ascii) :
  snd (first_value pairs key) = bool_decide (key ∈ map fst pairs).
Proof.
  induction pairs as [|[k v] rest IH]; cbn [first_value map fst].
  - symmetry. apply bool_decide_eq_false_2. apply not_elem_of_nil.
  - destruct (decide (k = key)) as [->|E].
    + rewrite (bool_decide_eq_true_2 (key = key)) by done. cbn [snd].
      symmetry. apply bool_decide_eq_true_2. apply list_elem_of_here.
    + rewrite (bool_decide_eq_false_2 (k = key)) by done.
      rewrite IH. apply bool_decide_ext. rewrite elem_of_cons.
      split; [by right | intros [->|H]; [by destruct E | done]].
Qed.

(** [findFirstQueryKey] on the raw query of a list of keys and values, the
    keys without separator or escape and the values escaped: it returns the
    value of the first pair with the key, unescaped, and true exactly when
    a pair has the key; else no value and false. *)
Theorem findFirstQueryKey_first_value (pairs : list (list ascii * list ascii))
    (key : list ascii) :
  Forall (fun p => forallb key_byte (fst p) = true) pairs ->
  findFirstQueryKey (encode_query pairs) key = first_value pairs key
  /\ snd (findFirstQueryKey (encode_query pairs) key)
     = bool_decide (key ∈ map fst pairs).
Proof.
  intros H. rewrite (findFirstQueryKey_encode_query pairs key H).
  split; [reflexivity | apply first_value_found].
Qed.

Lemma findFirstQueryKey_first_value_witness :
  findFirstQueryKey
    (encode_query [(("a" : str), ("1" : str)); (("q" : str), ("x y&z" : str));
                   (("q" : str), ("2" : str))]) "q"
  = (("x y&z" : str), true).
Proof.
  apply (proj1 (findFirstQueryKey_first_value
                  [(("a" : str), ("1" : str)); (("q" : str), ("x y&z" : str));
                   (("q" : str), ("2" : str))] "q" ltac:(repeat constructor))).
Defined.

Ltac decide_query :=
  repeat match goal with
         | |- context [@bool_decide ?P ?d] =>
             match P with
             | context [regexpTypeQuery] => idtac
             end;
             let b := eval vm_compute in (@bool_decide P d) in
             change (@bool_decide P d) with b
         end.

Lemma parse_any_value_pattern (t : str) :
  forallb is_ascii t = true ->
  Regexp.parse (("^" : list ascii) ++ Regexp.QuoteMeta t ++ (".*" : list ascii)
                  ++ ("$" : list ascii))
  = inl (Regexp.mk_cat (Regexp.Bol :: map Regexp.Chr t
                          ++ [Regexp.Star true Regexp.Dot; Regexp.Eol]), 0).
Proof.
  intros Ht. unfold Regexp.parse.
  change (Regexp.steps Regexp.init (("^" : list ascii) ++ ?x))
    with (Regexp.steps (top [Regexp.Bol] 0) x).
  rewrite steps_app, steps_QuoteMeta by done.
  cbn [app list_ascii_of_string Regexp.steps].
  set (cat := rev (map Regexp.Chr t) ++ [Regexp.Bol]).
  cbn. unfold Regexp.close_frame.
  cbn [Regexp.f_cat Regexp.f_alts rev app Regexp.mk_alt].
  unfold cat. rewrite !rev_app_distr, rev_involutive. cbn [rev app].
  do 2 f_equal. rewrite <- app_assoc. reflexivity.
Qed.

Lemma newRouteRegexp_any_value (key : str) (opts : routeRegexpOptions) :
  forallb is_ascii key = true -> forallb no_brace key = true ->
  IndexByte key "=" = None ->
  newRouteRegexp (key ++ ["="%char]) regexpTypeQuery opts
  = Ret (any_value_regexp key opts).
Proof.
  intros Ha Hb He. unfold newRouteRegexp, assemble.
  rewrite braceIndices_plain by (rewrite forallb_app, Hb; reflexivity).
  decide_query. cbn [o_strictSlash andb compileVars obind c_end].
  unfold slice_or_panic. rewrite slice_whole.
  cbn [obind c_pattern c_reverse c_varsN c_varsR].
  unfold SplitN2. rewrite IndexByte_app_first by exact He.
  cbn [lookup list_lookup]. rewrite drop_ge by (rewrite length_app; simpl; lia).
  rewrite (bool_decide_eq_true_2 (@nil ascii = [])) by done.
  cbn [obind andb]. decide_kinds.
  unfold Regexp.Compile. cbn [a_pattern].
  pose proof (parse_any_value_pattern (key ++ ["="%char])) as Hp.
  rewrite forallb_app, Ha in Hp. specialize (Hp eq_refl).
  rewrite <- !app_assoc. rewrite Hp.
  cbn [obind Regexp.NumSubexp Regexp.numSubexp a_nvars length Nat.div].
  unfold any_value_regexp. rewrite <- ?app_assoc. reflexivity.
Qed.

Lemma next_not_newline s x w :
  Regexp.next s = Some (x, w) ->
  x <> Some "010"%char ->
  1 <= w /\ forallb not_newline (take w s) = true /\ w <= length s.
Proof.
  destruct s as [|c0 t]; [done|]. unfold Regexp.next.
  destruct (rune_width_cont c0 t) as [Hw Hc].
  remember (Regexp.rune_width (c0 :: t)) as rw eqn:Erw. clear Erw.
  assert (Hhigh : forall c, 128 <= code c -> not_newline c = true).
  { intros c Hge. unfold not_newline. apply negb_true_iff, not_true_iff_false.
    intros H. apply Ascii.eqb_eq in H. subst c. vm_compute in Hge. lia. }
  destruct (is_ascii c0) eqn:Ha; intros [= <- <-] Hx.
  - split; [lia|]. split; [|simpl; lia]. cbn [take forallb]. rewrite take_0.
    cbn [forallb]. rewrite andb_true_r. unfold not_newline.
    apply negb_true_iff, not_true_iff_false. intros H.
    apply Ascii.eqb_eq in H. by subst c0.
  - split; [lia|].
    assert (Hlen : rw - 1 <= length t).
    { destruct (decide (rw - 1 <= length t)); [done|].
      destruct (Hc (length t)) as (c & Hl & _); [lia|].
      apply lookup_lt_Some in Hl. lia. }
    split; [|simpl; lia].
    destruct rw as [|w]; [lia|]. simpl.
    rewrite Hhigh by (by apply not_ascii_code). simpl.
    apply forallb_forall. intros y Hy. apply list_elem_of_In in Hy.
    apply list_elem_of_lookup in Hy as [j Hj].
    pose proof (lookup_lt_Some _ _ _ Hj) as Hlt. rewrite length_take in Hlt.
    rewrite lookup_take_lt in Hj by lia.
    destruct (Hc j) as (c & Hl & Hge); [simpl; lia|].
    rewrite Hj in Hl. injection Hl as <-. by apply Hhigh.
Qed.

(** The loop of [.*] before something that wants the end of the subject
    takes the whole subject when it has no newline, and fails when it has
    one. *)
Lemma loop_dot_all (k : list ascii -> nat -> list (option (nat * nat))
                        -> option (list (option (nat * nat)))) :
  (forall x t pos c, k (x :: t) pos c = None) ->
  forall n s pos c,
    S (length s) <= n ->
    Regexp.loop (Regexp.run Regexp.Dot) true k n s pos c
    = if forallb not_newline s then k [] (pos + length s) c else None.
Proof.
  intros Hk. induction n as [|n IH]; intros s pos c Hn; [lia|].
  cbn [Regexp.loop Regexp.run].
  destruct s as [|c0 t].
  { cbn [Regexp.next forallb length]. by rewrite Nat.add_0_r. }
  destruct (Regexp.next (c0 :: t)) as [[x w]|] eqn:En.
  2:{ unfold Regexp.next in En. destruct (is_ascii c0); discriminate. }
  case_bool_decide as Ex.
  - rewrite Hk. subst x. unfold Regexp.next in En.
    destruct (is_ascii c0); [|done]. injection En as -> _. reflexivity.
  - destruct (next_not_newline _ _ _ En Ex) as (Hw & Htake & Hlen).
    replace (pos <? pos + w) with true by (symmetry; apply Nat.ltb_lt; lia).
    rewrite IH by (rewrite length_drop; simpl in *; lia).
    rewrite <- (take_drop w (c0 :: t)) at 3. rewrite forallb_app, Htake.
    cbn [andb]. rewrite length_drop.
    replace (pos + w + (length (c0 :: t) - w)) with (pos + length (c0 :: t)) by lia.
    destruct (forallb not_newline (drop w (c0 :: t))); [|apply Hk].
    destruct (k [] (pos + length (c0 :: t)) c); [reflexivity | apply Hk].
Qed.

Lemma run_dot_star_end s pos c K :
  Regexp.run (Regexp.mk_cat [Regexp.Star true Regexp.Dot; Regexp.Eol]) s pos c K
  = if forallb not_newline s then K [] (pos + length s) c else None.
Proof.
  cbn [Regexp.mk_cat foldr Regexp.run].
  rewrite loop_dot_all; [reflexivity | | lia].
  intros x t p c'. reflexivity.
Qed.

(** A query template with an empty value, [key=]: the request matches when
    its raw query has the key, with a first value that has no newline; the
    default pattern of a query value takes any other byte. *)
Theorem query_any_value (key : str) (opts : routeRegexpOptions) :
  forallb is_ascii key = true -> forallb no_brace key = true ->
  IndexByte key "=" = None ->
  exists rr,
    newRouteRegexp (key ++ ["="%char]) regexpTypeQuery opts = Ret rr
    /\ forall req,
         routeRegexp_Match rr req
         = let '(val, ok) := findFirstQueryKey (RawQuery (Req_URL req)) key in
           ok && forallb not_newline val.
Proof.
  intros Ha Hb He. exists (any_value_regexp key opts).
  split; [by apply newRouteRegexp_any_value|].
  intros req. unfold routeRegexp_Match, matchQueryString, getURLQuery.
  cbn [any_value_regexp regexpType_of template regexp].
  decide_query.
  unfold SplitN2. rewrite IndexByte_app_first by exact He.
  cbn [lookup list_lookup default]. rewrite take_app_length. unfold id.
  destruct (findFirstQueryKey (RawQuery (Req_URL req)) key) as [val ok].
  unfold Regexp.MatchString, Regexp.exec. cbn [Regexp.prog Regexp.numSubexp].
  cbn [Regexp.mk_cat foldr]. rewrite search_bol. cbn [Regexp.run Nat.eqb].
  change (foldr Regexp.Cat Regexp.Eps ?l) with (Regexp.mk_cat l).
  destruct ok; cbn [andb].
  - replace (key ++ ("=" : str) ++ val) with ((key ++ ["="%char]) ++ val)
      by (by rewrite <- app_assoc).
    rewrite run_literal, run_dot_star_end.
    destruct (forallb not_newline val).
    + apply bool_decide_eq_true_2. eauto.
    + apply bool_decide_eq_false_2. by intros [? ?].
  - apply bool_decide_eq_false_2. intros [res H].
    apply run_literal_inv in H as (s' & Hs & _).
    destruct key; discriminate.
Qed.

Lemma query_any_value_witness :
  exists rr,
    newRouteRegexp (("page" : str) ++ ["="%char]) regexpTypeQuery (mkOptions false false)
    = Ret rr
    /\ forall req,
         routeRegexp_Match rr req
         = let '(val, ok) := findFirstQueryKey (RawQuery (Req_URL req)) "page" in
           ok && forallb not_newline val.
Proof.
  apply (query_any_value "page" (mkOptions false false)); reflexivity.
Defined.

(** ** A query variable, from a value to a raw query and back *)

Lemma Compile_any_validator :
  Regexp.Compile (("^" : str) ++ (".*" : str) ++ ("$" : str)) = Ret any_validator.
Proof. vm_compute. reflexivity. Qed.

Lemma steps_any_group cat n :
  exists m,
    Regexp.steps (top cat n) (("(?P<v0>.*)" : list ascii) ++ ("$" : list ascii))
    = inl (Regexp.PState (Regexp.MNormal m)
             (Regexp.Frame None []
                (Regexp.Eol
                 :: Regexp.Cap (S n) (varGroupName 0)
                      (Regexp.Cat (Regexp.Star true Regexp.Dot) Regexp.Eps)
                 :: cat))
             [] (S n)).
Proof. eexists. reflexivity. Qed.

Lemma parse_query_var_pattern (t : str) :
  forallb is_ascii t = true ->
  Regexp.parse (("^" : list ascii) ++ Regexp.QuoteMeta t
                  ++ ("(?P<v0>.*)" : list ascii) ++ ("$" : list ascii))
  = inl (Regexp.mk_cat (Regexp.Bol :: map Regexp.Chr t ++ [any_group; Regexp.Eol]), 1).
Proof.
  intros Ht. unfold Regexp.parse.
  change (Regexp.steps Regexp.init (("^" : list ascii) ++ ?x))
    with (Regexp.steps (top [Regexp.Bol] 0) x).
  rewrite steps_app, steps_QuoteMeta by done.
  destruct (steps_any_group (rev (map Regexp.Chr t) ++ [Regexp.Bol]) 0) as [m ->].
  cbn [Regexp.p_mode Regexp.p_stack Regexp.p_cur Regexp.p_ncap].
  unfold Regexp.close_frame.
  cbn [Regexp.f_cat Regexp.f_alts rev app Regexp.mk_alt].
  rewrite <- !app_assoc. cbn [app].
  rewrite rev_app_distr, rev_involutive. cbn [rev app].
  do 2 f_equal.
Qed.

Lemma slice_end (s : str) :
  slice_or_panic s (Z.of_nat (length s)) (Z.of_nat (length s)) = Ret [].
Proof.
  unfold slice_or_panic.
  pose proof (slice_middle s [] [] (Z.of_nat (length s)) (Z.of_nat (length s))
                eq_refl) as H.
  rewrite !app_nil_r in H. rewrite H; [reflexivity | simpl; lia].
Qed.

Lemma newRouteRegexp_query_var (key name : str) (opts : routeRegexpOptions) :
  forallb is_ascii key = true -> forallb no_brace key = true ->
  IndexByte key "=" = None ->
  forallb name_ok name = true -> name <> [] ->
  newRouteRegexp (render [(key ++ ["="%char], name)] []) regexpTypeQuery opts
  = Ret (query_var_regexp key name opts).
Proof.
  intros Ha Hb He Hn Hne. unfold newRouteRegexp, assemble.
  assert (Hnb : forallb no_brace name = true).
  { revert Hn. apply forallb_impl. intros c. unfold name_ok. by intros [? _]%andb_prop. }
  rewrite braceIndices_render; [| |done].
  2:{ cbn [forallb]. unfold seg_braces_ok. cbn [fst snd].
      rewrite forallb_app, Hb, Hnb. reflexivity. }
  decide_query. cbn [o_strictSlash andb indices]. 
  set (lit := key ++ ["="%char]).
  cbn [render compileVars c_end]. unfold slice_or_panic at 1.
  change (Z.of_nat (0 + length lit)) with (Z.of_nat (length lit)).
  rewrite slice_prefix. cbn [obind]. unfold slice_or_panic at 1.
  replace (lit ++ "{"%char :: name ++ ["}"%char])
    with ((lit ++ ["{"%char]) ++ name ++ ["}"%char])
    by (by rewrite <- app_assoc).
  rewrite slice_middle by (rewrite ?length_app; simpl; lia).
  cbn [obind]. unfold SplitN2 at 1 2 3 4 5.
  rewrite (IndexByte_None name ":") by (by apply name_ok_no_colon).
  cbn [lookup list_lookup default]. simpl (default _ _).
  rewrite (bool_decide_eq_false_2 (name = [])) by done.
  change (bool_decide (list_ascii_of_string ".*" = [])) with false.
  cbn [orb]. rewrite Compile_any_validator.
  cbn [obind c_pattern c_reverse c_varsN c_varsR c_end app].
  set (tpl := (lit ++ ["{"%char]) ++ name ++ ["}"%char]).
  assert (Hlen : 0 + length lit + length name + 2 = length tpl).
  { unfold tpl. rewrite !length_app. simpl. lia. }
  rewrite Hlen. rewrite slice_end. cbn [obind].
  assert (Hq : SplitN2 tpl "=" !! 1 = Some ("{"%char :: name ++ ["}"%char])).
  { unfold SplitN2, tpl, lit. rewrite <- !app_assoc. cbn [app].
    rewrite IndexByte_app_first by exact He. cbn [lookup list_lookup]. f_equal.
    by rewrite (cons_middle _ key), app_assoc, drop_app_length'
      by (rewrite length_app; simpl; lia). }
  rewrite Hq. rewrite (bool_decide_eq_false_2 (_ :: _ = [])) by done.
  unfold SplitN2. rewrite (IndexByte_None name ":") by (by apply name_ok_no_colon).
  cbn [lookup list_lookup default obind a_pattern]. simpl (default _ _).
  unfold Regexp.Compile.
  pose proof (parse_query_var_pattern lit) as Hp.
  unfold lit in Hp at 1. rewrite forallb_app, Ha in Hp. specialize (Hp eq_refl).
  replace (((("^" : list ascii) ++ Regexp.QuoteMeta lit ++ ("(?P<" : list ascii)
              ++ varGroupName 0 ++ (">" : list ascii) ++ (".*" : list ascii)
              ++ (")" : list ascii)) ++ Regexp.QuoteMeta []) ++ ("$" : list ascii))
    with (("^" : list ascii) ++ Regexp.QuoteMeta lit
            ++ ("(?P<v0>.*)" : list ascii) ++ ("$" : list ascii)).
  2:{ cbn [Regexp.QuoteMeta flat_map]. rewrite app_nil_r, <- !app_assoc.
      reflexivity. }
  rewrite Hp. cbn [obind Regexp.NumSubexp Regexp.numSubexp a_nvars].
  change (length [0 + length lit; length tpl] / 2) with 1.
  rewrite bool_decide_eq_false_2 by (intros H; by apply H).
  cbn [a_options a_reverse a_varsN a_varsR a_wildcardHostPort].
  unfold query_var_regexp. cbn [render]. fold lit.
  f_equal. f_equal.
  - unfold tpl. by rewrite <- app_assoc.
  - by rewrite app_nil_r.
Qed.

Lemma run_any_group_end s pos c K :
  Regexp.run (Regexp.mk_cat [any_group; Regexp.Eol]) s pos c K
  = if forallb not_newline s
    then K [] (pos + length s) (<[1 := Some (pos, pos + length s)]> c)
    else None.
Proof.
  cbn [Regexp.mk_cat foldr any_group Regexp.run].
  rewrite loop_dot_all; [reflexivity | | lia].
  intros x t p c'. reflexivity.
Qed.

Lemma QueryEscape_no_newline (v : str) : forallb not_newline (QueryEscape v) = true.
Proof.
  induction v as [|c v IH]; [done|].
  rewrite QueryEscape_cons, forallb_app, IH, andb_true_r.
  destruct c as [[] [] [] [] [] [] [] []]; reflexivity.
Qed.

(** The submatches of [key=value] for the template [key={name}]. *)
Lemma exec_query_var (key name : str) (opts : routeRegexpOptions) (v : str) :
  Regexp.exec (regexp (query_var_regexp key name opts)) ((key ++ ["="%char]) ++ v)
  = if forallb not_newline v
    then Some [Some (0, length ((key ++ ["="%char]) ++ v));
               Some (length (key ++ ["="%char]), length ((key ++ ["="%char]) ++ v))]
    else None.
Proof.
  unfold Regexp.exec. cbn [regexp query_var_regexp Regexp.prog Regexp.numSubexp].
  cbn [Regexp.mk_cat foldr]. rewrite search_bol. cbn [Regexp.run Nat.eqb].
  change (foldr Regexp.Cat Regexp.Eps ?l) with (Regexp.mk_cat l).
  rewrite run_literal, run_any_group_end.
  destruct (forallb not_newline v); [|reflexivity].
  cbn [replicate insert list_insert]. rewrite !length_app. reflexivity.
Qed.

Lemma key_byte_no_percent (k : str) :
  forallb key_byte k = true -> forallb no_percent k = true.
Proof.
  apply forallb_impl. intros c. unfold key_byte, no_percent.
  rewrite !negb_true_iff, bool_decide_eq_false. intros H.
  apply not_true_iff_false. intros Hc. apply Ascii.eqb_eq in Hc. subst c.
  apply H. set_solver.
Qed.

Lemma key_byte_no_equals (k : str) :
  forallb key_byte k = true -> IndexByte k "=" = None.
Proof.
  intros H. apply IndexByte_None. revert H. apply forallb_impl.
  intros c. unfold key_byte. rewrite !negb_true_iff, bool_decide_eq_false.
  intros H. apply not_true_iff_false. intros Hc. apply Ascii.eqb_eq in Hc.
  subst c. apply H. set_solver.
Qed.

(** The query template [key={name}], from a value to a raw query and back.
    The reverse build returns [key=] and the escaped value, whatever the
    value.  A request with that raw query matches the descriptor when the
    value has no newline, and then the variable extracted is the value;
    with a newline in the value the URL that was built does not match. *)
Theorem query_variable_round_trip (key name : str) (opts : routeRegexpOptions)
    (values : gmap (list ascii) (list ascii)) (v : str) :
  forallb is_ascii key = true -> forallb no_brace key = true ->
  forallb key_byte key = true ->
  forallb name_ok name = true -> name <> [] ->
  values !! name = Some v ->
  exists rr,
    newRouteRegexp (key ++ "="%char :: "{"%char :: name ++ ["}"%char])
      regexpTypeQuery opts = Ret rr
    /\ routeRegexp_url rr values = Ret (key ++ "="%char :: QueryEscape v)
    /\ forall req,
         RawQuery (Req_URL req) = key ++ "="%char :: QueryEscape v ->
         routeRegexp_Match rr req = forallb not_newline v
         /\ (forallb not_newline v = true ->
             forall m vm, Vars m = Some vm ->
               extractFrom rr (getURLQuery rr req) m
               = Ret (true, set_Vars (Some (<[name := v]> vm)) m)).
Proof.
  intros Ha Hb Hk Hn Hne Hv.
  pose proof (key_byte_no_equals key Hk) as He.
  exists (query_var_regexp key name opts). split; [|split].
  - pose proof (newRouteRegexp_query_var key name opts Ha Hb He Hn Hne) as H.
    cbn [render] in H. rewrite <- app_assoc in H. exact H.
  - unfold routeRegexp_url.
    cbn [query_var_regexp regexpType_of varsN reverse regexp urlValues].
    rewrite Hv. rewrite (bool_decide_eq_true_2 (regexpTypeQuery = regexpTypeQuery)) by done.
    pose proof (Sprintf_segments (fun _ => QueryEscape v) [(key ++ ["="%char], name)])
      as Hs.
    cbn [forallb fst seg_reverse seg_path map snd] in Hs.
    rewrite forallb_app, (key_byte_no_percent key Hk) in Hs.
    specialize (Hs eq_refl [] eq_refl). rewrite !app_nil_r in Hs.
    rewrite Hs.
    unfold Regexp.MatchString.
    change (regexp (query_var_regexp key name opts))
      with (regexp (query_var_regexp key name opts)).
    pose proof (exec_query_var key name opts (QueryEscape v)) as Hx.
    cbn [regexp query_var_regexp] in Hx. rewrite Hx, QueryEscape_no_newline.
    rewrite bool_decide_eq_true_2 by eauto. cbn [negb].
    by rewrite <- app_assoc.
  - intros req Hq.
    assert (Hu : getURLQuery (query_var_regexp key name opts) req
                 = (key ++ ["="%char]) ++ v).
    { unfold getURLQuery. cbn [query_var_regexp regexpType_of template render].
      rewrite (bool_decide_eq_false_2 (regexpTypeQuery <> regexpTypeQuery))
        by (intros H; by apply H).
      unfold SplitN2. rewrite <- app_assoc. cbn [app].
      rewrite IndexByte_app_first by exact He.
      cbn [lookup list_lookup default]. rewrite take_app_length. unfold id.
      rewrite Hq.
      pose proof (findFirstQueryKey_encode_query [(key, v)] key) as Hf.
      cbn [encode_query first_value] in Hf. rewrite app_nil_r in Hf.
      rewrite bool_decide_eq_true_2 in Hf by done.
      rewrite Hf by (repeat constructor; exact Hk).
      by rewrite <- app_assoc. }
    split.
    + unfold routeRegexp_Match, matchQueryString.
      cbn [query_var_regexp regexpType_of].
      rewrite (bool_decide_eq_false_2 (regexpTypeQuery = regexpTypeHost)) by done.
      rewrite (bool_decide_eq_true_2 (regexpTypeQuery = regexpTypeQuery)) by done.
      change (mkRouteRegexp _ regexpTypeQuery _ _ _ _ _ _)
        with (query_var_regexp key name opts).
      rewrite Hu. unfold Regexp.MatchString. rewrite exec_query_var.
      destruct (forallb not_newline v).
      * apply bool_decide_eq_true_2. eauto.
      * apply bool_decide_eq_false_2. by intros [? ?].
    + intros Hnl m vm Hm. rewrite Hu.
      unfold extractFrom, Regexp.FindStringSubmatchIndex.
      rewrite exec_query_var, Hnl. cbn [flat_map app length Nat.ltb Nat.leb].
      cbn [varsN query_var_regexp extractVars Nat.mul Nat.add lookup list_lookup].
      rewrite Hm. unfold slice_or_panic.
      pose proof (slice_middle (key ++ ["="%char]) v []
                    (Z.of_nat (length (key ++ ["="%char])))
                    (Z.of_nat (length ((key ++ ["="%char]) ++ v))) eq_refl) as Hs.
      rewrite app_nil_r in Hs. rewrite Hs by (rewrite length_app; lia).
      reflexivity.
Qed.

(** The template [q={term}] and the value [x y&z]. *)
Lemma query_variable_round_trip_witness :
  exists rr,
    newRouteRegexp (("q" : str) ++ "="%char :: "{"%char :: ("term" : str) ++ ["}"%char])
      regexpTypeQuery (mkOptions false false) = Ret rr
    /\ routeRegexp_url rr term_values
       = Ret (("q" : str) ++ "="%char :: QueryEscape "x y&z")
    /\ forall req,
         RawQuery (Req_URL req) = ("q" : str) ++ "="%char :: QueryEscape "x y&z" ->
         routeRegexp_Match rr req = forallb not_newline "x y&z"
         /\ (forallb not_newline "x y&z" = true ->
             forall m vm, Vars m = Some vm ->
               extractFrom rr (getURLQuery rr req) m
               = Ret (true, set_Vars (Some (<[("term" : str) := ("x y&z" : str)]> vm)) m)).
Proof.
  apply (query_variable_round_trip "q" "term" (mkOptions false false) term_values
           "x y&z"); try reflexivity.
  discriminate.
Defined.

(** ** The methods of the routes that match but for the method *)

Lemma contributes_test sub (id : RouteId) (r : Route) (req : Request) :
  plain_route req r ->
  exists b m',
    Route_Match sub id r req emptyMatch = Ret (b, m')
    /\ b || bool_decide (MatchErr m' = Some ErrMethodMismatch) = contributes r req.
Proof.
  intros [Hp Hset]. unfold contributes, Route_Match.
  destruct (buildOnly r); [by exists false, emptyMatch|].
  cbn [negb orb andb].
  destruct (err r) as [e|] eqn:He.
  { rewrite bool_decide_eq_true_2 by done. exists false, emptyMatch.
    by rewrite (bool_decide_eq_false_2 (Some e = None)). }
  rewrite bool_decide_eq_false_2 by (intros H; by apply H).
  rewrite (bool_decide_eq_true_2 (None = None)) by done. cbn [andb].
  rewrite Route_Match_loop_verdict by exact Hp. cbn [obind].
  destruct (other_rejects _ _); [by exists false, emptyMatch|].
  destruct (method_rejects _ _).
  { exists false, (set_MatchErr (Some ErrMethodMismatch) emptyMatch).
    split; [reflexivity|]. by rewrite bool_decide_eq_true_2. }
  match goal with
  | |- context [setMatch _ req ?m r] =>
      destruct (Hset eq_refl eq_refl m) as [m' ->]; [by eexists|]
  end.
  by exists true, m'.
Qed.

(** The variables of a path that a template of literals and variables
    matches are extracted into the map of the match. *)
Lemma setMatch_path_regexp (val : list ascii -> list ascii)
    (segs : list (list ascii * list ascii)) (tail : list ascii)
    (req : Request) (m : RouteMatch) (r : Route) :
  forallb (value_ok val) segs = true ->
  delimited segs tail = true ->
  useEncodedPath (conf r) = false ->
  Path (Req_URL req) = seg_path val segs ++ tail ->
  is_Some (Vars m) ->
  exists m',
    setMatch (mkGroup None (Some (path_regexp segs tail (mkOptions false false))) [])
      req m r = Ret m'.
Proof.
  intros Hv Hd He Hp [vm Hm].
  pose proof (exec_path_regexp val segs tail (mkOptions false false) Hv Hd) as Hexec.
  unfold setMatch. cbn [host path queries obind]. rewrite He, Hp.
  unfold extractFrom, Regexp.FindStringSubmatchIndex.
  rewrite Hexec. cbn [flat_map]. rewrite flat_map_Some.
  cbn [app length Nat.ltb Nat.leb]. rewrite Hm.
  change (varsN (path_regexp segs tail (mkOptions false false))) with (map snd segs).
  pose proof (extractVars_spans val segs [] tail
                [0%Z; Z.of_nat (length (seg_path val segs ++ tail))] [] 0 vm
                eq_refl) as Hex.
  rewrite app_nil_r in Hex. cbn [app length] in Hex.
  change (Z.of_nat 0) with 0%Z.
  rewrite Hex. cbn [obind andb options path_regexp o_strictSlash setMatch_queries].
  eauto.
Qed.

Lemma getAllMethodsForRoute_loop_spec sub st req : forall ids rs all,
  Forall2 (fun id r => route_heap st !! id = Some r) ids rs ->
  Forall (plain_route req) rs ->
  getAllMethodsForRoute_loop sub st ids req all
  = Ret (match methods_of rs req with
         | inl e => inl e
         | inr ms => inr (all ++ ms)
         end).
Proof.
  intros ids rs all H. revert all.
  induction H as [|id r ids rs Hid _ IH]; intros all Hp.
  - cbn. by rewrite app_nil_r.
  - apply Forall_cons in Hp as [Hr Hp].
    cbn [getAllMethodsForRoute_loop methods_of]. rewrite Hid.
    destruct (contributes_test sub id r req Hr) as (b & m' & -> & Hc).
    cbn [obind]. rewrite Hc. destruct (contributes r req); [|by apply IH].
    destruct (Route_GetMethods r) as [e|ms]; [reflexivity|].
    rewrite IH by exact Hp.
    destruct (methods_of rs req); [reflexivity|]. by rewrite app_assoc.
Qed.

(** [getAllMethodsForRoute] on a router whose routes have matchers that
    read the request only, and extract their variables without a panic
    when they match.  It returns the methods of the routes whose
    matchers other than the method matchers accept the request, whether
    or not the method of the request is one of them; a route that is
    build-only or has an error counts for nothing, and a route that counts
    and has no method matcher makes the call fail. *)
Theorem getAllMethodsForRoute_spec (fuel : nat) (st : Store) (rt : RouterId)
    (r : Router) (rs : list Route) (req : Request) :
  router_heap st !! rt = Some r ->
  Forall2 (fun id route => route_heap st !! id = Some route) (routes r) rs ->
  Forall (plain_route req) rs ->
  getAllMethodsForRoute fuel st rt req = Ret (methods_of rs req).
Proof.
  intros Hr Hids Hp. unfold getAllMethodsForRoute. rewrite Hr.
  rewrite (getAllMethodsForRoute_loop_spec _ _ _ _ rs) by done.
  by destruct (methods_of rs req).
Qed.

(** A router with routes for [/products/{id}] and the methods [GET], [PUT]
    and [POST], and a route for [/articles/{id}], and a request for
    [/products/42] with the method [PUT]: the routes for the path of the
    request count, the one that matches and the ones that the method
    alone keeps from matching. *)
Lemma getAllMethodsForRoute_spec_witness :
  getAllMethodsForRoute 1 product_store 0 (request_for "PUT" "/products/42")
  = Ret (inr [("GET" : str); ("PUT" : str); ("POST" : str)]).
Proof.
  apply (getAllMethodsForRoute_spec 1 product_store 0
           (mkRouter None None [0; 1; 2; 3] 0 [] zeroConf)
           product_routes (request_for "PUT" "/products/42")).
  - reflexivity.
  - repeat constructor.
  - repeat apply Forall_cons_2; try apply Forall_nil_2;
      (split; [reflexivity|]); intros Ho Hm; try (vm_compute in Ho; discriminate Ho);
      try (vm_compute in Hm; discriminate Hm).
    intros m HS.
    apply (setMatch_path_regexp value_42
             [(("/products/" : list ascii), ("id" : list ascii))] []);
      [reflexivity | reflexivity | reflexivity | reflexivity | exact HS].
Defined.

Lemma addMatcher_added (m : matcher) (r : Route) :
  err r = None ->
  err (addMatcher m r) = None
  /\ matchers (conf (addMatcher m r)) = matchers (conf r) ++ [m].
Proof. intros He. unfold addMatcher. rewrite He. done. Qed.

(** [Route.GetMethods] reports the methods of the first call of [Methods]
    only, in upper case, while a request has to pass the method matcher of
    every call. *)
Theorem GetMethods_first_call (r : Route) (ms1 ms2 : list str) (req : Request) :
  err r = None ->
  first_methodMatcher (matchers (conf r)) = None ->
  let r' := addMatcher (methodMatcher (map ToUpper ms2))
              (addMatcher (methodMatcher (map ToUpper ms1)) r) in
  Route_GetMethods r' = inr (map ToUpper ms1)
  /\ (method_rejects (matchers (conf r')) req = false ->
      methodMatcher_Match (map ToUpper ms1) req = true
      /\ methodMatcher_Match (map ToUpper ms2) req = true).
Proof.
  intros He Hn r'.
  destruct (addMatcher_added (methodMatcher (map ToUpper ms1)) r He) as [He1 Hm1].
  destruct (addMatcher_added (methodMatcher (map ToUpper ms2)) _ He1) as [He2 Hm2].
  fold r' in He2, Hm2. rewrite Hm1 in Hm2. split.
  - unfold Route_GetMethods. rewrite He2, Hm2. clear -Hn.
    induction (matchers (conf r)) as [|m ms IH]; [reflexivity|].
    cbn [app first_methodMatcher] in *. destruct m; try discriminate; by apply IH.
  - rewrite Hm2. unfold method_rejects. rewrite <- app_assoc, existsb_app.
    cbn [existsb app].
    intros H. apply orb_false_elim in H as [_ H].
    cbn [is_methodMatcher accepts andb orb] in H.
    apply orb_false_elim in H as [H1 H2]. apply orb_false_elim in H2 as [H2 _].
    by rewrite negb_false_iff in H1, H2.
Qed.

Lemma GetMethods_first_call_witness :
  Route_GetMethods
    (addMatcher (methodMatcher (map ToUpper [("post" : str)]))
       (addMatcher (methodMatcher (map ToUpper [("get" : str)]))
          (mkRoute None false [] None 0 zeroConf)))
  = inr [("GET" : str)].
Proof.
  apply (proj1 (GetMethods_first_call (mkRoute None false [] None 0 zeroConf)
                  [("get" : str)] [("post" : str)] (request_for "GET" "/")
                  eq_refl eq_refl)).
Defined.
